(** * The iohdl scanner: a shallow embedding of [iohdl/internal/scanner]

    The Go scanner walks a byte buffer with a one-rune cursor and hands
    out tokens through [Scan].  The embedding keeps the structure of the
    source: the [Scanner] struct is a record, every method is a function
    from scanner states to scanner states, loops carry an explicit
    iteration budget, and the two ways a Go call can fail to return (a
    run-time panic on a slice or index out of range, a loop that never
    exits) are results of their own.

    Go's [int] and [rune] are modelled as [Z]; the cursor arithmetic stays
    far below the 64-bit bound, because every counter is bounded by the
    length of the buffer.  A Go [string] is a sequence of bytes, and so is
    a Rocq [string]. *)

From Stdlib Require Import ZArith Lia Bool Strings.Byte.
From stdpp Require Import base option list strings pretty gmap.

Local Open Scope Z_scope.

(** ** Results of a Go call *)

Inductive result (A : Type) : Type :=
| Ok (a : A)
| Panic
| OutOfFuel.

Arguments Ok {A} a.
Arguments Panic {A}.
Arguments OutOfFuel {A}.

#[global] Instance result_ret : MRet result := fun A a => Ok a.
#[global] Instance result_bind : MBind result := fun A B f m =>
  match m with
  | Ok a => f a
  | Panic => Panic
  | OutOfFuel => OutOfFuel
  end.

(** ** Byte slices *)

Definition byteZ (b : byte) : Z := Z.of_N (Byte.to_N b).

Definition len {A} (l : list A) : Z := Z.of_nat (length l).

(** [p[i]]: panics when [i] is out of range. *)
Definition index (p : list byte) (i : Z) : result Z :=
  if i <? 0 then Panic
  else match p !! Z.to_nat i with
       | Some b => Ok (byteZ b)
       | None => Panic
       end.

(** [p[lo:hi]]: panics unless [0 <= lo <= hi <= len(p)] (the capacity of
    the buffer is taken to be its length). *)
Definition slice (p : list byte) (lo hi : Z) : result (list byte) :=
  if (0 <=? lo) && (lo <=? hi) && (hi <=? len p)
  then Ok (take (Z.to_nat (hi - lo)) (drop (Z.to_nat lo) p))
  else Panic.

(** [p[lo:]] *)
Definition sliceFrom (p : list byte) (lo : Z) : result (list byte) :=
  slice p lo (len p).

(** ** Package [unicode/utf8] of the Go library, as far as the scanner
       calls it *)

Module utf8.

Definition RuneError : Z := 0xFFFD.
Definition RuneSelf : Z := 0x80.
Definition UTFMax : Z := 4.

Definition maskx : Z := 0x3F.
Definition mask2 : Z := 0x1F.
Definition mask3 : Z := 0x0F.
Definition mask4 : Z := 0x07.

Definition locb : Z := 0x80.
Definition hicb : Z := 0xBF.

Definition xx : Z := 0xF1.
Definition as_ : Z := 0xF0.
Definition s1 : Z := 0x02.
Definition s2 : Z := 0x13.
Definition s3 : Z := 0x03.
Definition s4 : Z := 0x23.
Definition s5 : Z := 0x34.
Definition s6 : Z := 0x04.
Definition s7 : Z := 0x44.

(** The table [first]: information about the first byte of an encoding. *)
Definition first (b : Z) : Z :=
  if b <? 0x80 then as_
  else if b <? 0xC2 then xx
  else if b <? 0xE0 then s1
  else if b =? 0xE0 then s2
  else if b <? 0xED then s3
  else if b =? 0xED then s4
  else if b <? 0xF0 then s3
  else if b =? 0xF0 then s5
  else if b <? 0xF4 then s6
  else if b =? 0xF4 then s7
  else xx.

(** The table [acceptRanges]: bounds [(lo, hi)] of the second byte. *)
Definition acceptRanges (i : Z) : Z * Z :=
  if i =? 0 then (locb, hicb)
  else if i =? 1 then (0xA0, hicb)
  else if i =? 2 then (locb, 0x9F)
  else if i =? 3 then (0x90, hicb)
  else if i =? 4 then (locb, 0x8F)
  else (0, 0).

(** A byte of the slice that the caller has already checked to exist. *)
Definition at_ (p : list byte) (i : Z) : Z :=
  match p !! Z.to_nat i with
  | Some b => byteZ b
  | None => 0
  end.

Definition RuneStart (b : Z) : bool := negb (Z.land b 0xC0 =? 0x80).

Definition DecodeRune (p : list byte) : Z * Z :=
  let n := len p in
  if n <? 1 then (RuneError, 0)
  else
    let p0 := at_ p 0 in
    let x := first p0 in
    if x >=? as_ then
      (* mask := rune(x) << 31 >> 31 in 32 bits: all ones when the low
         bit of x is set, zero otherwise *)
      let mask := if Z.testbit x 0 then -1 else 0 in
      (Z.lor (Z.land p0 (Z.lnot mask)) (Z.land RuneError mask), 1)
    else
      let sz := Z.land x 7 in
      let accept := acceptRanges (Z.shiftr x 4) in
      if n <? sz then (RuneError, 1)
      else
        let b1 := at_ p 1 in
        if (b1 <? fst accept) || (snd accept <? b1) then (RuneError, 1)
        else if sz <=? 2 then
          (Z.lor (Z.shiftl (Z.land p0 mask2) 6) (Z.land b1 maskx), 2)
        else
          let b2 := at_ p 2 in
          if (b2 <? locb) || (hicb <? b2) then (RuneError, 1)
          else if sz <=? 3 then
            (Z.lor (Z.lor (Z.shiftl (Z.land p0 mask3) 12)
                          (Z.shiftl (Z.land b1 maskx) 6))
                   (Z.land b2 maskx), 3)
          else
            let b3 := at_ p 3 in
            if (b3 <? locb) || (hicb <? b3) then (RuneError, 1)
            else
              (Z.lor (Z.lor (Z.lor (Z.shiftl (Z.land p0 mask4) 18)
                                   (Z.shiftl (Z.land b1 maskx) 12))
                            (Z.shiftl (Z.land b2 maskx) 6))
                     (Z.land b3 maskx), 4).

(** The backward walk of [DecodeLastRune]:
    [for start--; start >= lim; start-- { if RuneStart(p[start]) { break } }].
    [k] counts the candidates [start, start-1, ..., lim] still to try. *)
Fixpoint backToStart (k : nat) (p : list byte) (start : Z) : Z :=
  match k with
  | O => start
  | S k' => if RuneStart (at_ p start) then start
            else backToStart k' p (start - 1)
  end.

Definition DecodeLastRune (p : list byte) : Z * Z :=
  let end_ := len p in
  if end_ =? 0 then (RuneError, 0)
  else
    let start := end_ - 1 in
    let r := at_ p start in
    if r <? RuneSelf then (r, 1)
    else
      let lim := end_ - UTFMax in
      let lim := if lim <? 0 then 0 else lim in
      let start := start - 1 in
      let start := backToStart (Z.to_nat (start - lim + 1)) p start in
      let start := if start <? 0 then 0 else start in
      let '(r, size) := DecodeRune (drop (Z.to_nat start) p) in
      if negb (start + size =? end_) then (RuneError, 1)
      else (r, size).

End utf8.

(** ** Package [token] *)

Module token.

Inductive Token : Set :=
| ILLEGAL | EOF | COMMENT
| IDENT | NUMBER | TRUE | FALSE
| COMMA | SEMICOLON | COLON | LEFTDELIM | RIGTDELIM
| LEFTPAR | RIGHTPAR | LEFTINDEX | RIGHTINDEX | PIPE | RANGE
| DECL | IN | OUT | PARTS | CLOCKED.

#[global] Instance Token_eq_dec : EqDecision Token.
Proof. solve_decision. Defined.

Definition keywords : gmap string Token :=
  list_to_map [("CHIP"%string, DECL); ("IN"%string, IN); ("OUT"%string, OUT);
               ("PARTS"%string, PARTS); ("CLOCKED"%string, CLOCKED)].

(** [Lookup] maps an identifier to its keyword token, [TRUE] or [FALSE]
    literal or [IDENT]. *)
Definition Lookup (s : string) : Token :=
  match keywords !! s with
  | Some keyword => keyword
  | None =>
      if String.eqb s "true" then TRUE
      else if String.eqb s "false" then FALSE
      else IDENT
  end.

(** [token.Position] of [iohdl/internal/token/position.go]. *)
Record Position : Set := NewPosition { line : Z; column : Z }.

Definition Line (p : Position) : Z := line p + 1.
Definition Column (p : Position) : Z := column p + 1.

(** [Less] returns true if [p] is strictly less than [q]. *)
Definition Less (p q : Position) : bool :=
  if line p <? line q then true
  else if line p >? line q then false
  else column p <? column q.

(** The value of each constant of the [iota] declaration. *)
Definition code (t : Token) : Z :=
  match t with
  | ILLEGAL => 0 | EOF => 1 | COMMENT => 2
  | IDENT => 3 | NUMBER => 4 | TRUE => 5 | FALSE => 6
  | COMMA => 7 | SEMICOLON => 8 | COLON => 9 | LEFTDELIM => 10 | RIGTDELIM => 11
  | LEFTPAR => 12 | RIGHTPAR => 13 | LEFTINDEX => 14 | RIGHTINDEX => 15
  | PIPE => 16 | RANGE => 17
  | DECL => 18 | IN => 19 | OUT => 20 | PARTS => 21 | CLOCKED => 22
  end.

(** The array [tokenStrings], by index. *)
Definition tokenStrings : list string :=
  ["ILLEGAL"; "EOF"; "COMMENT";
   "IDENT"; "NUMBER"; "true"; "false";
   ","; ";"; ":"; "{"; "}"; "("; ")"; "["; "]"; "="; "..";
   "CHIP"; "IN"; "OUT"; "PARTS"; "CLOCKED"]%string.

(** [String] of a token given as the integer it is; [strconv.Itoa] is
    the decimal printer. *)
Definition String (t : Z) : string :=
  let s := if (0 <=? t) && (t <? len tokenStrings)
           then match tokenStrings !! Z.to_nat t with
                | Some x => x
                | None => ""%string
                end
           else ""%string in
  if String.eqb s "" then ("TOKEN(" +:+ pretty t +:+ ")")%string else s.

End token.

(** ** Package [unicode]: the letter predicate *)

Module unicode.

Definition MaxLatin1 : Z := 0xFF.

(** The letters of the Latin-1 block, from the table [properties]
    ([pLu], [pLl] and [pLo] entries). *)
Definition latin1Letter (r : Z) : bool :=
  ((0x41 <=? r) && (r <=? 0x5A)) || ((0x61 <=? r) && (r <=? 0x7A))
  || (r =? 0xAA) || (r =? 0xB5) || (r =? 0xBA)
  || ((0xC0 <=? r) && (r <=? 0xD6)) || ((0xD8 <=? r) && (r <=? 0xF6))
  || ((0xF8 <=? r) && (r <=? 0xFF)).

Section Letter.

(** [isExcludingLatin(Letter, r)]: the range table of the letters
    beyond Latin-1 is a parameter of the development. *)
Variable Letter : Z -> bool.

(** [uint32(r) <= MaxLatin1] holds for the runes [0 .. 255] only. *)
Definition IsLetter (r : Z) : bool :=
  if (0 <=? r) && (r <=? MaxLatin1) then latin1Letter r
  else Letter r.

End Letter.

End unicode.

(** ** Package [scanner] *)

Module scanner.

Import token.

Definition eof : Z := -1.

(** [scanner.Position], with its zero-based fields. *)
Record Position : Set := mkPosition { file : string; line_ : Z; column_ : Z }.

Definition File (p : Position) : string := file p.
Definition Line (p : Position) : Z := line_ p + 1.
Definition Column (p : Position) : Z := column_ p + 1.

(** An encoding error, recorded with the place of the offending byte.
    The declaration of [Error] is not among the sources; [next] builds
    it from a position alone. *)
Record Error : Set := mkError { errPosition : Position }.

Record Scanner : Type := mkScanner {
  (* input file *)
  filename : string;
  src : list byte;
  (* current rune and its width and position *)
  current : Z;
  w : Z;
  pos : Z;
  line : Z;
  col : Z;
  (* start position of the current token *)
  start : Z;
  tokLine : Z;
  tokCol : Z;
  (* invalid src (not illegal tokens) *)
  errs : list Error
}.

(** The cursor fields are the only ones [next] writes. *)
Definition withCursor (s : Scanner) (c w' p l k : Z) (es : list Error) : Scanner :=
  mkScanner (filename s) (src s) c w' p l k (start s) (tokLine s) (tokCol s) es.

(** [next] moves the scanner to the next rune. *)
Definition next (s : Scanner) : result Scanner :=
  let pos' := pos s + w s in
  let col' := col s + w s in
  let line' := if current s =? 10 then line s + 1 else line s in
  let col' := if current s =? 10 then 0 else col' in
  if pos' >=? len (src s) then
    Ok (withCursor s eof 0 pos' line' col' (errs s))
  else
    b ← index (src s) pos';
    if b >=? utf8.RuneSelf then
      rest ← sliceFrom (src s) pos';
      let '(r, size) := utf8.DecodeLastRune rest in
      if r =? utf8.RuneError then
        Ok (withCursor s r size pos' line' col'
              (errs s ++ [mkError (mkPosition (filename s) line' col')]))
      else Ok (withCursor s r size pos' line' col' (errs s))
    else Ok (withCursor s b 1 pos' line' col' (errs s)).

(** [New] returns a ready-to-use scanner. *)
Definition New (file : string) (src : list byte) : result Scanner :=
  next (mkScanner file src 0 0 0 0 0 0 0 0 []).

(** [moveToken] moves the token position to the current position. *)
Definition moveToken (s : Scanner) : Scanner :=
  mkScanner (filename s) (src s) (current s) (w s) (pos s) (line s) (col s)
            (pos s) (line s) (col s) (errs s).

(** [literal] returns the string between the token start position
    (included) and the current position (excluded). *)
Definition literal (s : Scanner) : result string :=
  bs ← slice (src s) (start s) (pos s);
  Ok (String.string_of_list_byte bs).

(** [for cond(s.current) { s.next() }], with a budget of iterations. *)
Fixpoint while (fuel : nat) (cond : Z -> bool) (s : Scanner) : result Scanner :=
  match fuel with
  | O => OutOfFuel
  | S fuel' =>
      if cond (current s) then s' ← next s; while fuel' cond s'
      else Ok s
  end.

Definition isSpace (r : Z) : bool :=
  (r =? 32) || (r =? 9) || (r =? 13) || (r =? 10).

Definition skipSpace (fuel : nat) (s : Scanner) : result Scanner :=
  s' ← while fuel isSpace s;
  Ok (moveToken s').

(** only 0-9 *)
Definition isDigit (r : Z) : bool := (48 <=? r) && (r <=? 57).

Definition startComment (r : Z) : bool := r =? 47.

(** The closing loop of a block comment: find the next [*/]. *)
Fixpoint closeBlock (fuel : nat) (s : Scanner) : result (Scanner * Token * string) :=
  match fuel with
  | O => OutOfFuel
  | S fuel' =>
      s1 ← while fuel (fun r => negb (r =? 42) && negb (r =? eof)) s;
      if current s1 =? eof then
        lit ← literal s1;
        Ok (s1, ILLEGAL, lit)
      else
        s2 ← next s1;
        if current s2 =? 47 then
          s3 ← next s2;
          lit ← literal s3;
          Ok (moveToken s3, COMMENT, lit)
        else closeBlock fuel' s2
  end.

(** The tail of [comment], once the left delimiter is known and the
    scanner points to the first rune after it. *)
Definition commentBody (fuel : nat) (s : Scanner) : result (Scanner * Token * string) :=
  start_ ← literal s;
  if String.eqb start_ "//" then
    s1 ← while fuel (fun r => negb (r =? eof) && negb (r =? 10) && negb (r =? 13)) s;
    s2 ← next s1;
    lit ← literal s2;
    Ok (moveToken s2, COMMENT, lit)
  else closeBlock fuel s.

(** [comment] scans a comment assuming the current rune is ['/']. *)
Definition comment (fuel : nat) (s : Scanner) : result (Scanner * Token * string) :=
  s1 ← next s;
  if current s1 =? 47 then
    s2 ← next s1;
    commentBody fuel s2
  else if current s1 =? 42 then
    s2 ← next s1;
    if current s2 =? 42 then
      s3 ← next s2;
      if current s3 =? 47 then
        s4 ← next s3;
        lit ← literal s4;
        Ok (moveToken s4, COMMENT, lit)
      else commentBody fuel s3
    else commentBody fuel s2
  else
    lit ← literal s1;
    Ok (moveToken s1, ILLEGAL, lit).

(** The inner [switch] of [Scan] on the one-rune tokens.  The source
    spells two of the constants [SEMICOL] and [COLUMN]; package [token]
    declares them as [SEMICOLON] and [COLON]. *)
Definition simpleToken (r : Z) : Token :=
  if r =? 44 then COMMA
  else if r =? 59 then SEMICOLON
  else if r =? 58 then COLON
  else if r =? 123 then LEFTDELIM
  else if r =? 125 then RIGTDELIM
  else if r =? 40 then LEFTPAR
  else if r =? 41 then RIGHTPAR
  else if r =? 91 then LEFTINDEX
  else if r =? 93 then RIGHTINDEX
  else if r =? 61 then PIPE
  else ILLEGAL.

Section Scan.

Variable Letter : Z -> bool.

(** 0-9, other digits, letters and _ *)
Definition isAlphanumeric (r : Z) : bool :=
  isDigit r || unicode.IsLetter Letter r || (r =? 95).

(** [Scan] scans the next token and returns it with its position and
    literal string if any. *)
Definition Scan (fuel : nat) (s : Scanner)
  : result (Scanner * (Position * Token * string)) :=
  s ← skipSpace fuel s;
  let p := mkPosition (filename s) (tokLine s) (tokCol s) in
  let c := current s in
  if c =? eof then
    Ok (s, (p, EOF, ""%string))
  else if isDigit c then
    s1 ← while fuel isDigit s;
    lit ← literal s1;
    Ok (moveToken s1, (p, NUMBER, lit))
  else if unicode.IsLetter Letter c then
    s1 ← while fuel isAlphanumeric s;
    lit ← literal s1;
    Ok (moveToken s1, (p, Lookup lit, lit))
  else if c =? 46 then
    s1 ← next s;
    if current s1 =? 46 then
      s2 ← next s1;
      Ok (s2, (p, RANGE, ".."%string))
    else Ok (s1, (p, ILLEGAL, "."%string))
  else if startComment c then
    '(s1, tok, lit) ← comment fuel s;
    Ok (s1, (p, tok, lit))
  else
    let tok := simpleToken c in
    s1 ← next s;
    lit ← literal s1;
    Ok (moveToken s1, (p, tok, lit)).

(** [n] successive calls of [Scan] on one scanner: the tokens in the
    order they are returned, and the scanner after the last call. *)
Fixpoint ScanN (fuel : nat) (n : nat) (s : Scanner)
  : result (Scanner * list (Position * Token * string)) :=
  match n with
  | O => Ok (s, [])
  | S n' =>
      '(s1, t) ← Scan fuel s;
      '(s2, ts) ← ScanN fuel n' s1;
      Ok (s2, t :: ts)
  end.

End Scan.

End scanner.

(** ** Package [description]: comments *)

Module description.

Record Comment : Set := mkComment {
  start : token.Position;
  end_ : token.Position;
  lit : string
}.

Definition Literal (c : Comment) : string := lit c.

(** [strings.HasPrefix(c.lit, prefix)] *)
Definition IsEOL (c : Comment) : bool := String.prefix "//" (lit c).
Definition IsMultiline (c : Comment) : bool := String.prefix "/*" (lit c).
Definition IsAPI (c : Comment) : bool := String.prefix "/**" (lit c).

End description.

Import token scanner.

(** * Vocabulary of the claims *)

(** ** Invariants of the cursor *)

(** What [next] reads at byte offset [p]: the rune and its width. *)
Definition readAt (src : list byte) (p : Z) : Z * Z :=
  if p >=? len src then (eof, 0)
  else
    let b := utf8.at_ src p in
    if b >=? utf8.RuneSelf then utf8.DecodeLastRune (drop (Z.to_nat p) src)
    else (b, 1).

(** Every state the scanner reaches through [New], [next] and [Scan]:
    the token start is behind the cursor, the cursor is inside the
    buffer, and the current rune and width are the ones read there. *)
Definition Inv (s : Scanner) : Prop :=
  0 <= start s /\ start s <= pos s /\ pos s <= len (src s) /\
  current s = fst (readAt (src s) (pos s)) /\
  w s = snd (readAt (src s) (pos s)).

(** The weaker condition under which [next] is safe to call. *)
Definition Pre (s : Scanner) : Prop :=
  0 <= start s /\ start s <= pos s /\ 0 <= w s /\ pos s + w s <= len (src s).

(** Lexicographic order on (line, column) pairs. *)
Definition lexLe (p q : Z * Z) : Prop :=
  fst p < fst q \/ (fst p = fst q /\ snd p <= snd q).

Definition place (s : Scanner) : Z * Z := (line s, col s).

Definition posPlace (p : Position) : Z * Z := (Line p, Column p).

(** [Adv s s']: [s'] is [s] with the cursor moved forward. *)
Definition Adv (s s' : Scanner) : Prop :=
  src s' = src s /\ filename s' = filename s /\
  pos s <= pos s' /\ lexLe (place s) (place s').

(** Bytes left to read. *)
Definition remaining (s : Scanner) : Z := len (src s) - pos s.

(** [Returns fuel s m P]: the call [m], made in state [s] with budget
    [fuel], does not panic, runs out of budget only when the budget does
    not exceed the bytes left, and returns a result that satisfies [P]. *)
Definition Returns {A} (fuel : nat) (s : Scanner) (m : result A) (P : A -> Prop) : Prop :=
  match m with
  | Ok a => P a
  | Panic => False
  | OutOfFuel => Z.of_nat fuel <= remaining s
  end.

Definition isAscii (b : byte) : Prop := byteZ b < 128.

(** ** What the calls promise *)

(** The error list after [next]: one more entry exactly when a byte of
    [0x80] or more was decoded to [RuneError]. *)
Definition errsAfter (s : Scanner) : list Error :=
  let pos' := pos s + w s in
  if (pos' <? len (src s)) && (utf8.at_ (src s) pos' >=? utf8.RuneSelf)
     && (fst (readAt (src s) pos') =? utf8.RuneError)
  then errs s ++ [mkError (mkPosition (filename s)
                             (if current s =? 10 then line s + 1 else line s)
                             (if current s =? 10 then 0 else col s + w s))]
  else errs s.

(** What every branch of [comment] promises about the state it leaves
    and the token it returns. *)
Definition commentPost (s : Scanner) (r : Scanner * Token * string) : Prop :=
  Inv (fst (fst r)) /\ Adv s (fst (fst r)) /\
  (snd (fst r) = COMMENT \/ snd (fst r) = ILLEGAL).

Definition tokPosition (t : Position * Token * string) : Position := fst (fst t).
Definition tokKind (t : Position * Token * string) : Token := snd (fst t).
Definition tokLiteral (t : Position * Token * string) : string := snd t.

Definition rawPlace (p : Position) : Z * Z := (line_ p, column_ p).

Definition scanPost (s : Scanner) (r : Scanner * (Position * Token * string)) : Prop :=
  Inv (fst r) /\ Adv s (fst r) /\
  file (tokPosition (snd r)) = filename s /\
  lexLe (place s) (rawPlace (tokPosition (snd r))) /\
  lexLe (rawPlace (tokPosition (snd r))) (place (fst r)).

(** The positions of a run of tokens, each at or after the one before,
    the first at or after [lo]. *)
Fixpoint ascending (lo : Z * Z) (ts : list (Position * Token * string)) : Prop :=
  match ts with
  | [] => True
  | t :: ts' => lexLe lo (rawPlace (tokPosition t)) /\
                ascending (rawPlace (tokPosition t)) ts'
  end.

(** ** Inputs and letter tables of the examples *)

Definition bytes (s : string) : list byte := String.list_byte_of_string s.

(** A letter table pinned at the end-of-input sentinel and at one rune. *)
Definition pinned (L : Z -> bool) (r0 : Z) (r : Z) : bool :=
  if r =? eof then false else if r =? r0 then true else L r.

Definition scanAll (L : Z -> bool) (fuel n : nat) (file : string) (input : list byte)
  : result (list (Position * Token * string)) :=
  s0 ← New file input; '(_, ts) ← ScanN L fuel n s0; Ok ts.

(** ** The token start *)

(** [s] with other values in the three token-start fields. *)
Definition withToken (s : Scanner) (st tl tc : Z) : Scanner :=
  mkScanner (filename s) (src s) (current s) (w s) (pos s) (line s) (col s)
            st tl tc (errs s).

Definition mapOk {A B} (f : A -> B) (m : result A) : result B :=
  match m with
  | Ok a => Ok (f a)
  | Panic => Panic
  | OutOfFuel => OutOfFuel
  end.

(** A letter table that knows the Greek and Coptic block only. *)
Definition greek (r : Z) : bool := (0x370 <=? r) && (r <=? 0x3FF).

(** ** Block comments that are never closed *)

(** No ['*'] of [body] is directly followed by a ['/']. *)
Definition unclosed (body : list byte) : Prop :=
  forall i, body !! i = Some "*"%byte -> body !! S i <> Some "/"%byte.

(** The same two conditions on a buffer, from byte offset [p] on. *)
Definition asciiFrom (l : list byte) (p : Z) : Prop :=
  forall i b, p <= Z.of_nat i -> l !! i = Some b -> isAscii b.

Definition openFrom (l : list byte) (p : Z) : Prop :=
  forall i, p <= Z.of_nat i -> l !! i = Some "*"%byte -> l !! S i <> Some "/"%byte.

(** ** Scanner instances in a store *)

(** The part of the Go heap the scanner works on.  A [[]byte] value
    refers to an array: [New] stores the slice it is given and copies no
    byte, so the scanners made over one buffer share its array with one
    another and with the caller.  [New] allocates the [Scanner] struct it
    returns a pointer to.  A struct is stored with the address of the
    array its field [src] refers to; the bytes of [src] are those of the
    array at the time of each call. *)
Record Store : Type := mkStore {
  arrays : gmap nat (list byte);
  structs : gmap nat (nat * Scanner)
}.

(** [s] with the bytes [bs] under its field [src]. *)
Definition withSrc (s : Scanner) (bs : list byte) : Scanner :=
  mkScanner (filename s) bs (current s) (w s) (pos s) (line s) (col s)
            (start s) (tokLine s) (tokCol s) (errs s).

(** The struct behind the pointer [l], as a method sees it. *)
Definition deref (h : Store) (l : nat) : result (nat * Scanner) :=
  match structs h !! l with
  | None => Panic
  | Some (a, s) =>
      match arrays h !! a with
      | None => Panic
      | Some bs => Ok (a, withSrc s bs)
      end
  end.

(** What a method leaves behind the pointer [l]: the struct, and under
    [src] the bytes of the shared array, so that a method that wrote the
    buffer would be seen by every scanner on that array. *)
Definition assign (h : Store) (l a : nat) (s : Scanner) : Store :=
  mkStore (<[a := src s]> (arrays h)) (<[l := (a, s)]> (structs h)).

(** [New(file, src)] with [src] the array at address [a]. *)
Definition NewAt (file : string) (a : nat) (h : Store) : result (nat * Store) :=
  match arrays h !! a with
  | None => Panic
  | Some bs =>
      s ← New file bs;
      let l := fresh (dom (structs h)) in
      Ok (l, assign h l a s)
  end.

(** A call [s.Scan()] through the pointer [l]. *)
Definition ScanAt (L : Z -> bool) (fuel : nat) (l : nat) (h : Store)
  : result (Store * (Position * Token * string)) :=
  '(a, s) ← deref h l;
  '(s', t) ← Scan L fuel s;
  Ok (assign h l a s', t).

(** A schedule of [Scan] calls on the scanners of a store, in any order:
    the tokens returned, each with the address it was returned for. *)
Fixpoint runSchedule (L : Z -> bool) (fuel : nat) (sched : list nat) (h : Store)
  : result (Store * list (nat * (Position * Token * string))) :=
  match sched with
  | [] => Ok (h, [])
  | l :: rest =>
      '(h1, t) ← ScanAt L fuel l h;
      '(h2, ts) ← runSchedule L fuel rest h1;
      Ok (h2, (l, t) :: ts)
  end.

(** The tokens returned for the scanner at [l], in order. *)
Fixpoint tokensOf (l : nat) (evs : list (nat * (Position * Token * string)))
  : list (Position * Token * string) :=
  match evs with
  | [] => []
  | (l', t) :: rest => if Nat.eqb l' l then t :: tokensOf l rest else tokensOf l rest
  end.

(** ** The moves of the cursor *)

(** [Steps s s']: [s'] is reached from [s] by calls of [next] that
    return and by calls of [moveToken], the two methods that write the
    scanner. *)
Inductive Steps : Scanner -> Scanner -> Prop :=
| Steps_refl s : Steps s s
| Steps_next s s1 s2 : next s = Ok s1 -> Steps s1 s2 -> Steps s s2
| Steps_move s s2 : Steps (moveToken s) s2 -> Steps s s2.

(** The (line, column) place reached from [p] over the bytes [bs]: a
    line feed starts a new line, any other byte is one column. *)
Definition advancePlace (p : Z * Z) (bs : list byte) : Z * Z :=
  fold_left (fun q b => if byteZ b =? 10 then (fst q + 1, 0) else (fst q, snd q + 1))
            bs p.

(** A run of bytes accepted by [cond] ends before [rest]: nothing is
    left, or the next byte is an ASCII byte that [cond] refuses. *)
Definition stops (cond : Z -> bool) (rest : list byte) : Prop :=
  match rest with
  | [] => True
  | b :: _ => isAscii b /\ cond (byteZ b) = false
  end.

(** The counters of the scanner agree with the bytes before the cursor
    and before the token start. *)
Definition placed (s : Scanner) : Prop :=
  place s = advancePlace (0, 0) (take (Z.to_nat (pos s)) (src s)) /\
  (tokLine s, tokCol s) = advancePlace (0, 0) (take (Z.to_nat (start s)) (src s)).

(** A token returned by the comment sub-scan has the literal read off
    some state with the token start of the call and the final cursor. *)
Definition literalAt (s s' : Scanner) (lit : string) : Prop :=
  exists s3, literal s3 = Ok lit /\ start s3 = start s /\
             src s3 = src s /\ pos s3 = pos s'.

(** The tokens [Lookup] can tell from their name. *)
Definition isWord (t : Token) : bool :=
  match t with
  | IDENT | TRUE | FALSE | DECL | IN | OUT | PARTS | CLOCKED => true
  | _ => false
  end.

(** * Proofs *)

(** ** Facts about the decoder *)

Lemma byteZ_range (b : byte) : 0 <= byteZ b < 256.
Proof.
  unfold byteZ. pose proof (Byte.to_N_bounded b). lia.
Qed.

Lemma at_range (p : list byte) (i : Z) : 0 <= utf8.at_ p i < 256.
Proof.
  unfold utf8.at_. destruct (p !! Z.to_nat i); [apply byteZ_range | lia].
Qed.

Lemma len_nonneg {A} (l : list A) : 0 <= len l.
Proof. unfold len. lia. Qed.

Lemma len_app {A} (l1 l2 : list A) : len (l1 ++ l2) = len l1 + len l2.
Proof. unfold len. rewrite length_app. lia. Qed.

Lemma len_drop {A} (l : list A) (n : Z) :
  0 <= n <= len l -> len (drop (Z.to_nat n) l) = len l - n.
Proof. unfold len. intros H. rewrite length_drop. lia. Qed.

Ltac nonneg :=
  repeat first
    [ apply Z.lor_nonneg; split
    | apply Z.shiftl_nonneg
    | apply Z.land_nonneg; left; first [apply at_range | unfold utf8.RuneError; lia] ].

Lemma DecodeRune_spec (p : list byte) r k :
  0 < len p -> utf8.DecodeRune p = (r, k) -> 0 <= r /\ 1 <= k.
Proof.
  intros Hp. unfold utf8.DecodeRune.
  destruct (len p <? 1) eqn:E; [lia |].
  repeat match goal with
         | |- context [if ?c then _ else _] => destruct c
         end;
    intros [= <- <-]; split; try lia; try (unfold utf8.RuneError; lia); nonneg.
Qed.

Lemma backToStart_le k p st : utf8.backToStart k p st <= st.
Proof.
  revert st. induction k as [| k IH]; intros st; simpl; [lia |].
  destruct (utf8.RuneStart _); [lia |]. specialize (IH (st - 1)). lia.
Qed.

Lemma DecodeLastRune_spec (p : list byte) r k :
  0 < len p -> utf8.DecodeLastRune p = (r, k) -> 0 <= r /\ 1 <= k <= len p.
Proof.
  intros Hp. unfold utf8.DecodeLastRune.
  destruct (len p =? 0) eqn:E; [lia |].
  destruct (_ <? utf8.RuneSelf).
  { intros [= <- <-]. split; [apply at_range | lia]. }
  set (lim := if len p - utf8.UTFMax <? 0 then 0 else len p - utf8.UTFMax).
  set (st0 := utf8.backToStart _ p _).
  set (st := if st0 <? 0 then 0 else st0).
  assert (Hst : 0 <= st <= len p - 1).
  { subst st. pose proof (backToStart_le (Z.to_nat (len p - 1 - 1 - lim + 1)) p (len p - 1 - 1)).
    fold st0 in H. destruct (st0 <? 0) eqn:E0; lia. }
  destruct (utf8.DecodeRune _) as [r' k'] eqn:D.
  apply DecodeRune_spec in D; [| rewrite len_drop; lia].
  destruct (st + k' =? len p) eqn:E1; simpl; intros [= <- <-].
  - split; lia.
  - unfold utf8.RuneError. lia.
Qed.

Lemma readAt_spec (src : list byte) (p : Z) :
  0 <= p <= len src ->
  (p = len src /\ readAt src p = (eof, 0)) \/
  (p < len src /\ 0 <= fst (readAt src p) /\
   1 <= snd (readAt src p) /\ p + snd (readAt src p) <= len src).
Proof.
  intros Hp. unfold readAt.
  destruct (p >=? len src) eqn:E; [left; split; [lia | reflexivity] |].
  right. split; [lia |].
  destruct (_ >=? utf8.RuneSelf).
  - destruct (utf8.DecodeLastRune _) as [r k] eqn:D.
    apply DecodeLastRune_spec in D; rewrite len_drop in *; simpl; lia.
  - simpl. pose proof (at_range src p). lia.
Qed.

Lemma Inv_Pre s : Inv s -> Pre s.
Proof.
  intros (H0 & H1 & H2 & Hc & Hw). unfold Pre.
  destruct (readAt_spec (src s) (pos s)) as [[_ E] | (? & ? & ? & ?)]; [lia | |].
  - rewrite E in Hw. simpl in Hw. lia.
  - lia.
Qed.

Lemma Inv_eof s : Inv s -> current s = eof -> pos s = len (src s) /\ w s = 0.
Proof.
  intros (H0 & H1 & H2 & Hc & Hw) He.
  destruct (readAt_spec (src s) (pos s)) as [[? E] | (? & ? & ? & ?)]; [lia | |].
  - rewrite E in Hw. auto.
  - unfold eof in He. lia.
Qed.

Lemma Inv_not_eof s : Inv s -> current s <> eof -> pos s < len (src s) /\ 1 <= w s.
Proof.
  intros (H0 & H1 & H2 & Hc & Hw) He.
  destruct (readAt_spec (src s) (pos s)) as [[? E] | (? & ? & ? & ?)]; [lia | |].
  - rewrite E in Hc. simpl in Hc. congruence.
  - lia.
Qed.

(** ** The cursor step *)

Lemma index_at (p : list byte) (i : Z) :
  0 <= i < len p -> index p i = Ok (utf8.at_ p i).
Proof.
  intros H. unfold index, utf8.at_.
  destruct (i <? 0) eqn:E; [lia |].
  destruct (p !! Z.to_nat i) eqn:El; [reflexivity |].
  apply lookup_ge_None in El. unfold len in H. lia.
Qed.

Lemma slice_Ok (p : list byte) (lo hi : Z) :
  0 <= lo -> lo <= hi -> hi <= len p ->
  slice p lo hi = Ok (take (Z.to_nat (hi - lo)) (drop (Z.to_nat lo) p)).
Proof.
  intros H1 H2 H3. unfold slice.
  destruct (0 <=? lo) eqn:E1; [| lia].
  destruct (lo <=? hi) eqn:E2; [| lia].
  destruct (hi <=? len p) eqn:E3; [reflexivity | lia].
Qed.

Lemma sliceFrom_Ok (p : list byte) (lo : Z) :
  0 <= lo <= len p -> sliceFrom p lo = Ok (drop (Z.to_nat lo) p).
Proof.
  intros H. unfold sliceFrom. rewrite slice_Ok by lia.
  rewrite take_ge; [reflexivity |].
  rewrite length_drop. unfold len. lia.
Qed.

Lemma next_eq (s : Scanner) :
  Pre s ->
  next s = Ok (withCursor s (fst (readAt (src s) (pos s + w s)))
                 (snd (readAt (src s) (pos s + w s)))
                 (pos s + w s)
                 (if current s =? 10 then line s + 1 else line s)
                 (if current s =? 10 then 0 else col s + w s)
                 (errsAfter s)).
Proof.
  intros (H0 & H1 & H2 & H3). unfold next, errsAfter, readAt.
  destruct (pos s + w s >=? len (src s)) eqn:E.
  - replace (pos s + w s <? len (src s)) with false by lia. reflexivity.
  - replace (pos s + w s <? len (src s)) with true by lia.
    rewrite index_at by lia. simpl.
    destruct (utf8.at_ (src s) (pos s + w s) >=? utf8.RuneSelf) eqn:E1.
    + rewrite sliceFrom_Ok by lia. simpl.
      destruct (utf8.DecodeLastRune _) as [r k]. simpl.
      destruct (r =? utf8.RuneError); reflexivity.
    + reflexivity.
Qed.

Lemma lexLe_refl p : lexLe p p.
Proof. unfold lexLe. lia. Qed.

Lemma lexLe_trans p q r : lexLe p q -> lexLe q r -> lexLe p r.
Proof. unfold lexLe. lia. Qed.

Lemma Adv_refl s : Adv s s.
Proof. unfold Adv. auto using lexLe_refl with lia. Qed.

Lemma Adv_trans s1 s2 s3 : Adv s1 s2 -> Adv s2 s3 -> Adv s1 s3.
Proof.
  intros (A1 & A2 & A3 & A4) (B1 & B2 & B3 & B4). unfold Adv.
  repeat split; try congruence; try lia. eapply lexLe_trans; eauto.
Qed.

Lemma Adv_remaining s s' : Adv s s' -> remaining s' <= remaining s.
Proof. intros (A1 & A2 & A3 & A4). unfold remaining. rewrite A1. lia. Qed.

Lemma next_spec (s : Scanner) :
  Pre s ->
  exists s', next s = Ok s' /\ Inv s' /\ Adv s s' /\ pos s' = pos s + w s /\
             start s' = start s.
Proof.
  intros HP. pose proof HP as (H0 & H1 & H2 & H3).
  eexists. split; [apply next_eq; assumption |].
  unfold Inv, Adv, place, withCursor; simpl.
  repeat split; try lia.
  unfold lexLe; simpl. destruct (current s =? 10); lia.
Qed.

Lemma moveToken_Inv s : Inv s -> Inv (moveToken s).
Proof.
  unfold Inv, moveToken; simpl. intros (H0 & H1 & H2 & Hc & Hw).
  repeat split; try assumption; lia.
Qed.

Lemma moveToken_Adv s : Adv s (moveToken s).
Proof. unfold Adv, moveToken, place; simpl. auto using lexLe_refl with lia. Qed.

(** ** Reasoning about [Returns] *)

Lemma Returns_bind {A B} fuel s (m : result A) (f : A -> result B)
      (P : A -> Prop) (Q : B -> Prop) :
  Returns fuel s m P ->
  (forall a, m = Ok a -> P a -> Returns fuel s (f a) Q) ->
  Returns fuel s (mbind f m) Q.
Proof.
  intros Hm Hf. destruct m; simpl in *; auto.
Qed.

Lemma Returns_from {A} fuel s s' (m : result A) (P : A -> Prop) :
  Adv s s' -> Returns fuel s' m P -> Returns fuel s m P.
Proof.
  intros HA. apply Adv_remaining in HA. destruct m; simpl; auto. lia.
Qed.

Lemma Returns_mono {A} fuel s (m : result A) (P Q : A -> Prop) :
  Returns fuel s m P -> (forall a, P a -> Q a) -> Returns fuel s m Q.
Proof. destruct m; simpl; auto. Qed.

Lemma next_Returns fuel s :
  Inv s ->
  Returns fuel s (next s)
          (fun s' => Inv s' /\ Adv s s' /\ pos s' = pos s + w s).
Proof.
  intros HI. destruct (next_spec s (Inv_Pre s HI)) as (s' & E & ? & ? & ? & ?).
  rewrite E. simpl. auto.
Qed.

Lemma while_Returns cond fuel s :
  cond eof = false -> Inv s ->
  Returns fuel s (while fuel cond s)
          (fun s' => Inv s' /\ Adv s s' /\ cond (current s') = false).
Proof.
  intros Hc. revert s. induction fuel as [| fuel IH]; intros s HI.
  - simpl. pose proof HI as (? & ? & ? & _). unfold remaining. lia.
  - simpl. destruct (cond (current s)) eqn:E.
    + assert (current s <> eof) by (intros He; rewrite He in E; congruence).
      destruct (Inv_not_eof s HI H) as [Hlt Hw].
      destruct (next_spec s (Inv_Pre s HI)) as (s' & En & HI' & HA & Hp & _).
      rewrite En. simpl. specialize (IH s' HI').
      destruct (while fuel cond s') as [s'' | |]; simpl in *.
      * destruct IH as (? & ? & ?). eauto using Adv_trans.
      * assumption.
      * unfold remaining in *. destruct HA as (Hs & _). rewrite Hs in IH. lia.
    + simpl. auto using Adv_refl.
Qed.

Lemma literal_Ok s : Inv s -> exists l, literal s = Ok l.
Proof.
  intros (H0 & H1 & H2 & _). unfold literal.
  rewrite slice_Ok by lia. simpl. eauto.
Qed.

Lemma closeBlock_S fuel s :
  closeBlock (S fuel) s =
  mbind (fun s1 =>
           if current s1 =? eof then
             mbind (fun lit => Ok (s1, ILLEGAL, lit)) (literal s1)
           else
             mbind (fun s2 =>
                      if current s2 =? 47 then
                        mbind (fun s3 =>
                                 mbind (fun lit => Ok (moveToken s3, COMMENT, lit))
                                       (literal s3))
                              (next s2)
                      else closeBlock fuel s2)
                   (next s1))
        (while (S fuel) (fun r => negb (r =? 42) && negb (r =? eof)) s).
Proof. reflexivity. Qed.

#[local] Arguments while : simpl never.
#[local] Arguments closeBlock : simpl never.
#[local] Arguments next : simpl never.
#[local] Arguments literal : simpl never.

(** Take one [next] step in a goal of the form
    [Returns _ _ (mbind _ (next s)) _]. *)
Ltac step_next s HI s' :=
  let E := fresh "En" in
  let HI' := fresh "HI" in
  let HA := fresh "HA" in
  let HP := fresh "HP" in
  destruct (next_spec s (Inv_Pre s HI)) as (s' & E & HI' & HA & HP & _);
  rewrite E; simpl.

Ltac step_literal s HI :=
  let l := fresh "lit" in
  let E := fresh "El" in
  destruct (literal_Ok s HI) as (l & E); rewrite E; simpl.

Lemma closeBlock_Returns fuel s :
  Inv s -> Returns fuel s (closeBlock fuel s) (commentPost s).
Proof.
  revert s. induction fuel as [| fuel IH]; intros s HI.
  - simpl. pose proof HI as (? & ? & ? & _). unfold remaining. lia.
  - rewrite closeBlock_S.
    eapply Returns_bind; [apply while_Returns; [reflexivity | assumption] |].
    intros s1 _ (HI1 & HA1 & Hc1). simpl in Hc1.
    destruct (current s1 =? eof) eqn:Ee.
    + step_literal s1 HI1. unfold commentPost; simpl. auto.
    + assert (Hne : current s1 <> eof) by lia.
      destruct (Inv_not_eof s1 HI1 Hne) as [Hlt Hw].
      step_next s1 HI1 s2.
      destruct (current s2 =? 47).
      * step_next s2 HI0 s3. step_literal s3 HI2.
        unfold commentPost; simpl.
        split; [apply moveToken_Inv; assumption |].
        split; [| auto].
        eauto using Adv_trans, moveToken_Adv.
      * specialize (IH s2 HI0).
        assert (HA2 : Adv s s2) by eauto using Adv_trans.
        destruct (closeBlock fuel s2) as [[[s' tok] lit] | |]; simpl in *.
        -- destruct IH as (? & ? & ?). unfold commentPost; simpl.
           eauto using Adv_trans.
        -- assumption.
        -- apply Adv_remaining in HA1. unfold remaining in *.
           destruct HA as (Hs & _). rewrite Hs in IH. lia.
Qed.

Lemma commentBody_Returns fuel s s0 :
  Inv s -> Adv s0 s -> Returns fuel s0 (commentBody fuel s) (commentPost s0).
Proof.
  intros HI HA0. unfold commentBody. step_literal s HI.
  destruct (String.eqb lit "//").
  - eapply Returns_from; [eassumption |].
    eapply Returns_bind; [apply while_Returns; [reflexivity | assumption] |].
    intros s1 _ (HI1 & HA1 & _).
    step_next s1 HI1 s2. step_literal s2 HI0.
    unfold commentPost; simpl.
    split; [apply moveToken_Inv; assumption |].
    split; [| auto].
    eauto using Adv_trans, moveToken_Adv.
  - eapply Returns_from; [eassumption |].
    eapply Returns_mono; [apply closeBlock_Returns; assumption |].
    intros [[s' tok] lit'] (? & ? & ?). unfold commentPost; simpl in *.
    eauto using Adv_trans.
Qed.

Lemma comment_Returns fuel s :
  Inv s -> Returns fuel s (comment fuel s) (commentPost s).
Proof.
  intros HI. unfold comment.
  step_next s HI s1.
  destruct (current s1 =? 47).
  { step_next s1 HI0 s2. apply commentBody_Returns; eauto using Adv_trans. }
  destruct (current s1 =? 42).
  { step_next s1 HI0 s2.
    destruct (current s2 =? 42).
    - step_next s2 HI1 s3.
      destruct (current s3 =? 47).
      + step_next s3 HI2 s4. step_literal s4 HI3.
        unfold commentPost; simpl.
        split; [apply moveToken_Inv; assumption |].
        split; [| auto].
        eauto 6 using Adv_trans, moveToken_Adv.
      + apply commentBody_Returns; eauto using Adv_trans.
    - apply commentBody_Returns; eauto using Adv_trans. }
  step_literal s1 HI0. unfold commentPost; simpl.
  split; [apply moveToken_Inv; assumption |].
  split; [| auto].
  eauto using Adv_trans, moveToken_Adv.
Qed.

(** ** [Scan] returns, in a state that satisfies the invariant *)

Lemma ascending_from lo lo' ts : lexLe lo lo' -> ascending lo' ts -> ascending lo ts.
Proof.
  destruct ts as [| t ts]; simpl; [auto |].
  intros H [H1 H2]. eauto using lexLe_trans.
Qed.

Lemma skipSpace_Returns fuel s :
  Inv s ->
  Returns fuel s (skipSpace fuel s)
          (fun s' => Inv s' /\ Adv s s' /\
                     tokLine s' = line s' /\ tokCol s' = col s').
Proof.
  intros HI. unfold skipSpace.
  eapply Returns_bind; [apply while_Returns; [reflexivity | assumption] |].
  intros s1 _ (HI1 & HA1 & _). simpl.
  split; [apply moveToken_Inv; assumption |].
  split; [eauto using Adv_trans, moveToken_Adv |].
  split; reflexivity.
Qed.

Section ScanReturns.

Variable L : Z -> bool.

(** The end-of-input sentinel [-1] is no code point, and no range of the
    letter table contains it. *)
Hypothesis L_eof : L eof = false.

Lemma isAlphanumeric_eof : isAlphanumeric L eof = false.
Proof. unfold isAlphanumeric, unicode.IsLetter. simpl. rewrite L_eof. reflexivity. Qed.

Lemma Scan_Returns fuel s :
  Inv s -> Returns fuel s (Scan L fuel s) (scanPost s).
Proof.
  intros HI. unfold Scan.
  eapply Returns_bind; [apply skipSpace_Returns; assumption |].
  intros s1 _ (HI1 & HA1 & HtL & HtC).
  assert (Hfile : filename s1 = filename s) by apply HA1.
  assert (Hlo : lexLe (place s) (tokLine s1, tokCol s1)).
  { rewrite HtL, HtC. apply HA1. }
  assert (Hhi : forall s', Adv s1 s' -> lexLe (tokLine s1, tokCol s1) (place s')).
  { intros s' H. rewrite HtL, HtC. apply H. }
  destruct (current s1 =? eof).
  { unfold scanPost; simpl. auto 6 using Adv_refl. }
  destruct (isDigit (current s1)).
  { eapply Returns_from; [eassumption |].
    eapply Returns_bind; [apply while_Returns; [reflexivity | assumption] |].
    intros s2 _ (HI2 & HA2 & _). step_literal s2 HI2.
    unfold scanPost; simpl.
    split; [apply moveToken_Inv; assumption |].
    split; [eauto using Adv_trans, moveToken_Adv |].
    split; [assumption |]. split; [assumption |].
    apply (Hhi (moveToken s2)). eauto using Adv_trans, moveToken_Adv. }
  destruct (unicode.IsLetter L (current s1)).
  { eapply Returns_from; [eassumption |].
    eapply Returns_bind;
      [apply while_Returns; [apply isAlphanumeric_eof | assumption] |].
    intros s2 _ (HI2 & HA2 & _). step_literal s2 HI2.
    unfold scanPost; simpl.
    split; [apply moveToken_Inv; assumption |].
    split; [eauto using Adv_trans, moveToken_Adv |].
    split; [assumption |]. split; [assumption |].
    apply (Hhi (moveToken s2)). eauto using Adv_trans, moveToken_Adv. }
  destruct (current s1 =? 46).
  { step_next s1 HI1 s2.
    destruct (current s2 =? 46).
    - step_next s2 HI0 s3. unfold scanPost; simpl.
      split; [assumption |].
      split; [eauto using Adv_trans |].
      split; [assumption |]. split; [assumption |].
      apply Hhi. eauto using Adv_trans.
    - unfold scanPost; simpl.
      split; [assumption |].
      split; [eauto using Adv_trans |].
      split; [assumption |]. split; [assumption |].
      apply Hhi. assumption. }
  destruct (startComment (current s1)).
  { eapply Returns_from; [eassumption |].
    eapply Returns_bind; [apply comment_Returns; assumption |].
    intros [[s2 tok] lit] _ (HI2 & HA2 & _). simpl in *.
    unfold scanPost; simpl.
    split; [assumption |].
    split; [eauto using Adv_trans |].
    split; [assumption |]. split; [assumption |].
    apply Hhi. assumption. }
  step_next s1 HI1 s2. step_literal s2 HI0.
  unfold scanPost; simpl.
  split; [apply moveToken_Inv; assumption |].
  split; [eauto using Adv_trans, moveToken_Adv |].
  split; [assumption |]. split; [assumption |].
  apply (Hhi (moveToken s2)). eauto using Adv_trans, moveToken_Adv.
Qed.

Lemma ScanN_Returns fuel n s :
  Inv s ->
  Returns fuel s (ScanN L fuel n s)
          (fun r => Inv (fst r) /\ Adv s (fst r) /\
                    length (snd r) = n /\ ascending (place s) (snd r)).
Proof.
  revert s. induction n as [| n IH]; intros s HI.
  - simpl. auto using Adv_refl.
  - simpl. eapply Returns_bind; [apply Scan_Returns; assumption |].
    intros [s1 t] _ (HI1 & HA1 & _ & Hlo & Hhi). simpl in *.
    eapply Returns_from; [eassumption |].
    eapply Returns_bind; [apply IH; assumption |].
    intros [s2 ts] _ (HI2 & HA2 & Hlen & Hasc). simpl in *.
    split; [assumption |].
    split; [eauto using Adv_trans |].
    split; [congruence |].
    split; [assumption |].
    eapply ascending_from; eassumption.
Qed.

End ScanReturns.

Lemma New_Inv file input :
  exists s, New file input = Ok s /\ Inv s /\
            src s = input /\ filename s = file /\ pos s = 0 /\ place s = (0, 0).
Proof.
  unfold New.
  rewrite next_eq by (unfold Pre; simpl; pose proof (len_nonneg input); lia).
  eexists. split; [reflexivity |].
  unfold Inv, place; simpl.
  pose proof (len_nonneg input). repeat split; lia.
Qed.

(** ** The letter table matters through its values only *)

Lemma while_ext c1 c2 fuel s :
  (forall r, c1 r = c2 r) -> while fuel c1 s = while fuel c2 s.
Proof.
  intros H. revert s. induction fuel as [| fuel IH]; intros s; [reflexivity |].
  unfold while; fold while. rewrite H. destruct (c2 (current s)); [| reflexivity].
  destruct (next s); simpl; auto.
Qed.

Lemma Scan_ext L1 L2 fuel s :
  (forall r, L1 r = L2 r) -> Scan L1 fuel s = Scan L2 fuel s.
Proof.
  intros H. unfold Scan.
  destruct (skipSpace fuel s) as [s1 | |]; simpl; try reflexivity.
  assert (HL : forall r, unicode.IsLetter L1 r = unicode.IsLetter L2 r).
  { intros r. unfold unicode.IsLetter. rewrite H. reflexivity. }
  rewrite HL.
  rewrite (while_ext (isAlphanumeric L1) (isAlphanumeric L2)); [reflexivity |].
  intros r. unfold isAlphanumeric. rewrite HL. reflexivity.
Qed.

Lemma ScanN_ext L1 L2 fuel n s :
  (forall r, L1 r = L2 r) -> ScanN L1 fuel n s = ScanN L2 fuel n s.
Proof.
  intros H. revert s. induction n as [| n IH]; intros s; [reflexivity |].
  simpl. rewrite (Scan_ext L1 L2) by assumption.
  destruct (Scan L2 fuel s) as [[s1 t] | |]; simpl; try reflexivity.
  rewrite IH. reflexivity.
Qed.

Lemma pinned_eq L r0 : L eof = false -> L r0 = true -> forall r, L r = pinned L r0 r.
Proof.
  intros He H0 r. unfold pinned.
  destruct (r =? eof) eqn:E1; [replace r with eof by lia; assumption |].
  destruct (r =? r0) eqn:E2; [replace r with r0 by lia; assumption |].
  reflexivity.
Qed.

Lemma scanAll_ext L1 L2 fuel n file input :
  (forall r, L1 r = L2 r) -> scanAll L1 fuel n file input = scanAll L2 fuel n file input.
Proof.
  intros H. unfold scanAll. destruct (New file input); simpl; try reflexivity.
  rewrite (ScanN_ext L1 L2) by assumption. reflexivity.
Qed.

(** ** Which tokens a call can return *)

(** Split a hypothesis [m = Ok r] along the binds and tests of [m]. *)
Ltac bind_inv H :=
  repeat match type of H with
         | mbind _ ?m = Ok _ =>
             let E := fresh "E" in
             destruct m eqn:E; simpl in H; try discriminate H
         | (if ?c then _ else _) = Ok _ =>
             let E := fresh "E" in destruct c eqn:E
         | (let '(_, _) := ?p in _) = Ok _ => destruct p
         end.

Lemma Lookup_not_EOF s : Lookup s <> EOF.
Proof.
  unfold Lookup. destruct (keywords !! s) as [k |] eqn:E.
  - apply elem_of_list_to_map_2 in E.
    repeat (apply elem_of_cons in E as [E | E]; [injection E as -> ->; discriminate |]).
    inversion E.
  - repeat match goal with |- context [if ?c then _ else _] => destruct c end;
      discriminate.
Qed.

Lemma simpleToken_not_EOF r : simpleToken r <> EOF.
Proof.
  unfold simpleToken.
  repeat match goal with |- context [if ?c then _ else _] => destruct c end;
    discriminate.
Qed.

Lemma closeBlock_kind fuel s r :
  closeBlock fuel s = Ok r -> snd (fst r) = COMMENT \/ snd (fst r) = ILLEGAL.
Proof.
  revert s. induction fuel as [| fuel IH]; intros s H; [discriminate |].
  rewrite closeBlock_S in H. bind_inv H; try (injection H as <-; simpl; auto).
  eapply IH; eassumption.
Qed.

Lemma commentBody_kind fuel s r :
  commentBody fuel s = Ok r -> snd (fst r) = COMMENT \/ snd (fst r) = ILLEGAL.
Proof.
  unfold commentBody. intros H.
  bind_inv H; try (injection H as <-; simpl; auto).
  eapply closeBlock_kind; eassumption.
Qed.

Lemma comment_kind fuel s r :
  comment fuel s = Ok r -> snd (fst r) = COMMENT \/ snd (fst r) = ILLEGAL.
Proof.
  unfold comment. intros H.
  bind_inv H; try (injection H as <-; simpl; auto);
    eapply commentBody_kind; eassumption.
Qed.

Lemma while_stop fuel cond s :
  cond (current s) = false -> (0 < fuel)%nat -> while fuel cond s = Ok s.
Proof.
  intros H Hf. destruct fuel; [lia |]. unfold while. rewrite H. reflexivity.
Qed.

(** [Scan] returns [EOF] only from its first case: the rune after the
    white space is the end-of-input sentinel. *)
Lemma Scan_EOF_inv L fuel s s' p lit :
  Scan L fuel s = Ok (s', (p, EOF, lit)) ->
  skipSpace fuel s = Ok s' /\ current s' = eof /\ lit = ""%string /\
  p = mkPosition (filename s') (tokLine s') (tokCol s').
Proof.
  unfold Scan. intros H.
  destruct (skipSpace fuel s) as [s1 | |] eqn:Es; simpl in H; try discriminate.
  destruct (current s1 =? eof) eqn:E0.
  { injection H as <- <- <-. repeat split. lia. }
  destruct (isDigit (current s1)).
  { bind_inv H; discriminate H. }
  destruct (unicode.IsLetter L (current s1)).
  { bind_inv H; injection H as _ _ H _; apply Lookup_not_EOF in H; contradiction. }
  destruct (current s1 =? 46).
  { bind_inv H; discriminate H. }
  destruct (startComment (current s1)).
  { destruct (comment fuel s1) as [[[s2 tok] l] | |] eqn:Ec; simpl in H;
      try discriminate H.
    injection H as _ _ H _. apply comment_kind in Ec. simpl in Ec.
    destruct Ec; congruence. }
  bind_inv H; injection H as _ _ H _; apply simpleToken_not_EOF in H; contradiction.
Qed.

Lemma skipSpace_moved fuel s s' :
  skipSpace fuel s = Ok s' -> moveToken s' = s'.
Proof.
  unfold skipSpace. intros H. bind_inv H. injection H as <-. reflexivity.
Qed.

Lemma Scan_at_eof L fuel s :
  (0 < fuel)%nat -> current s = eof -> moveToken s = s ->
  Scan L fuel s = Ok (s, (mkPosition (filename s) (tokLine s) (tokCol s), EOF, ""%string)).
Proof.
  intros Hf He Hm. unfold Scan, skipSpace.
  rewrite while_stop; [| rewrite He; reflexivity | assumption].
  assert (HL : tokLine s = line s) by (rewrite <- Hm; reflexivity).
  assert (HC : tokCol s = col s) by (rewrite <- Hm; reflexivity).
  simpl. rewrite He, Z.eqb_refl, Hm, HL, HC. reflexivity.
Qed.

Lemma ScanN_at_eof L fuel n s :
  (0 < fuel)%nat -> current s = eof -> moveToken s = s ->
  ScanN L fuel n s =
  Ok (s, repeat (mkPosition (filename s) (tokLine s) (tokCol s), EOF, ""%string) n).
Proof.
  intros Hf He Hm. induction n as [| n IH]; [reflexivity |].
  simpl. rewrite Scan_at_eof by assumption. simpl. rewrite IH. reflexivity.
Qed.

(** C7. Once a call of [Scan] has returned the [EOF] token, every later
    call on the same scanner returns [EOF] again, at the same position
    and with an empty literal; the scanner does not move any more. *)
Theorem C7_EOF_is_idempotent L fuel s s' p lit :
  Scan L fuel s = Ok (s', (p, EOF, lit)) ->
  forall fuel' n, (0 < fuel')%nat ->
    ScanN L fuel' n s' = Ok (s', repeat (p, EOF, ""%string) n).
Proof.
  intros H fuel' n Hf.
  apply Scan_EOF_inv in H as (Hs & He & _ & ->).
  apply ScanN_at_eof; [assumption | assumption |].
  eapply skipSpace_moved; eassumption.
Qed.

Lemma C7_EOF_is_idempotent_witness :
  let s := mkScanner "f" (bytes " ") 32 1 0 0 0 0 0 0 [] in
  let s' := mkScanner "f" (bytes " ") eof 0 1 0 1 1 0 1 [] in
  Scan (fun _ => false) 2 s = Ok (s', (mkPosition "f" 0 1, EOF, ""%string)) /\
  ScanN (fun _ => false) 1 3 s' = Ok (s', repeat (mkPosition "f" 0 1, EOF, ""%string) 3).
Proof.
  intros s s'.
  assert (H : Scan (fun _ => false) 2 s = Ok (s', (mkPosition "f" 0 1, EOF, ""%string)))
    by (vm_compute; reflexivity).
  split; [exact H |].
  apply (C7_EOF_is_idempotent (fun _ => false) 2 s s' (mkPosition "f" 0 1) ""%string H 1%nat 3%nat).
  lia.
Defined.

(** ** Termination and monotone positions *)

Lemma Returns_Ok {A} fuel s (m : result A) (P : A -> Prop) :
  Returns fuel s m P -> remaining s < Z.of_nat fuel -> exists a, m = Ok a /\ P a.
Proof.
  destruct m; simpl; intros H Hf; [eauto | contradiction | lia].
Qed.

Lemma ascending_lookup lo ts i t1 t2 :
  ascending lo ts -> ts !! i = Some t1 -> ts !! S i = Some t2 ->
  lexLe (rawPlace (tokPosition t1)) (rawPlace (tokPosition t2)).
Proof.
  revert lo i. induction ts as [| t ts IH]; intros lo i Ha H1 H2; [discriminate |].
  destruct Ha as [_ Ha]. destruct i as [| i].
  - injection H1 as ->. destruct ts as [| t' ts]; [discriminate |].
    injection H2 as ->. apply Ha.
  - eapply IH; eassumption.
Qed.

(** C10. Every call of [Scan] terminates on every finite input buffer,
    valid UTF-8 or not.  While the current rune is not the end-of-input
    sentinel, [next] returns and moves the byte cursor by at least one;
    [New] returns; and on the scanner [New] returns, any number of
    successive [Scan] calls all return, without a panic, within a budget
    of one loop iteration more than the buffer has bytes. *)
Theorem C10_Scan_terminates (L : Z -> bool) (file : string) (input : list byte) :
  L eof = false ->
  (forall s, Inv s -> current s <> eof ->
             exists s', next s = Ok s' /\ Inv s' /\ pos s + 1 <= pos s') /\
  exists s0, New file input = Ok s0 /\ Inv s0 /\
    forall n, exists s ts,
      ScanN L (S (length input)) n s0 = Ok (s, ts) /\ Inv s /\ length ts = n.
Proof.
  intros HL. split.
  - intros s HI Hne.
    destruct (next_spec s (Inv_Pre s HI)) as (s' & E & HI' & _ & HP & _).
    destruct (Inv_not_eof s HI Hne). exists s'.
    split; [assumption | split; [assumption | lia]].
  - destruct (New_Inv file input) as (s0 & E & HI & Hsrc & _ & Hpos & _).
    exists s0. split; [assumption | split; [assumption |]].
    intros n.
    assert (Hf : remaining s0 < Z.of_nat (S (length input))).
    { unfold remaining, len. rewrite Hsrc, Hpos. lia. }
    destruct (Returns_Ok _ _ _ _ (ScanN_Returns L HL (S (length input)) n s0 HI) Hf)
      as ([s ts] & E' & HI' & _ & Hlen & _).
    exists s, ts. auto.
Qed.

Lemma C10_Scan_terminates_witness :
  (forall s, Inv s -> current s <> eof ->
             exists s', next s = Ok s' /\ Inv s' /\ pos s + 1 <= pos s') /\
  exists s0, New "f" (bytes "/* a") = Ok s0 /\ Inv s0 /\
    forall n, exists s ts,
      ScanN greek 5 n s0 = Ok (s, ts) /\ Inv s /\ length ts = n.
Proof.
  apply (C10_Scan_terminates greek "f" (bytes "/* a")). reflexivity.
Defined.

(** C8. For every input and every pair of successive tokens returned by
    one scanner, the position of the later token is not before the
    position of the earlier one in the lexicographic order on
    (line, column). *)
Theorem C8_positions_never_decrease (L : Z -> bool) file input fuel n s0 s ts i t1 t2 :
  L eof = false ->
  New file input = Ok s0 ->
  ScanN L fuel n s0 = Ok (s, ts) ->
  ts !! i = Some t1 -> ts !! S i = Some t2 ->
  lexLe (posPlace (tokPosition t1)) (posPlace (tokPosition t2)).
Proof.
  intros HL HN HS H1 H2.
  destruct (New_Inv file input) as (s0' & E & HI & _).
  rewrite HN in E. injection E as <-.
  pose proof (ScanN_Returns L HL fuel n s0 HI) as HR.
  rewrite HS in HR. simpl in HR. destruct HR as (_ & _ & _ & Ha).
  pose proof (ascending_lookup _ _ _ _ _ Ha H1 H2) as Hle.
  unfold lexLe, posPlace, rawPlace, Line, Column in *. simpl in *. lia.
Qed.

Lemma C8_positions_never_decrease_witness :
  lexLe (posPlace (mkPosition "f" 0 0)) (posPlace (mkPosition "f" 1 0)).
Proof.
  set (s0 := mkScanner "f" (bytes "a
b") 97 1 0 0 0 0 0 0 []).
  set (s := mkScanner "f" (bytes "a
b") eof 0 3 1 1 3 1 1 []).
  apply (C8_positions_never_decrease (fun _ => false) "f" (bytes "a
b") 4 2 s0 s
           [(mkPosition "f" 0 0, IDENT, "a"%string); (mkPosition "f" 1 0, IDENT, "b"%string)]
           0%nat (mkPosition "f" 0 0, IDENT, "a"%string) (mkPosition "f" 1 0, IDENT, "b"%string));
    vm_compute; reflexivity.
Defined.

(** ** The token start does not influence the cursor *)

Lemma next_withToken s st tl tc :
  next (withToken s st tl tc) = mapOk (fun s' => withToken s' st tl tc) (next s).
Proof.
  unfold next, withToken; simpl.
  destruct (pos s + w s >=? len (src s)); [reflexivity |].
  destruct (index (src s) (pos s + w s)) as [b | |]; simpl; try reflexivity.
  destruct (b >=? utf8.RuneSelf); [| reflexivity].
  destruct (sliceFrom (src s) (pos s + w s)) as [rest | |]; simpl; try reflexivity.
  destruct (utf8.DecodeLastRune rest) as [r k].
  destruct (r =? utf8.RuneError); reflexivity.
Qed.

Lemma while_withToken fuel cond s st tl tc :
  while fuel cond (withToken s st tl tc)
  = mapOk (fun s' => withToken s' st tl tc) (while fuel cond s).
Proof.
  revert s. induction fuel as [| fuel IH]; intros s; [reflexivity |].
  unfold while; fold while. simpl.
  destruct (cond (current s)); [| reflexivity].
  rewrite next_withToken. destruct (next s) as [s' | |]; simpl; try reflexivity.
  apply IH.
Qed.

Lemma skipSpace_withToken fuel s st tl tc :
  skipSpace fuel (withToken s st tl tc) = skipSpace fuel s.
Proof.
  unfold skipSpace. rewrite while_withToken.
  destruct (while fuel isSpace s); reflexivity.
Qed.

Lemma moveToken_withToken s : moveToken s = withToken s (pos s) (line s) (col s).
Proof. reflexivity. Qed.

(** A call of [Scan] starts its token where the cursor stands, whatever
    the token start was before the call. *)
Lemma Scan_moveToken L fuel s : Scan L fuel (moveToken s) = Scan L fuel s.
Proof.
  unfold Scan. rewrite moveToken_withToken, skipSpace_withToken. reflexivity.
Qed.

Lemma next_fields s s' :
  next s = Ok s' ->
  pos s' = pos s + w s /\
  line s' = (if current s =? 10 then line s + 1 else line s) /\
  col s' = (if current s =? 10 then 0 else col s + w s) /\
  start s' = start s /\ src s' = src s /\ filename s' = filename s.
Proof.
  unfold next. intros H.
  bind_inv H; injection H as <-; simpl; repeat split; reflexivity.
Qed.

(** ** Claims on concrete inputs *)

Example greek_bytes :
  bytes "γθιπ" = [xce; xb3; xce; xb8; xce; xb9; xcf; x80]%byte.
Proof. reflexivity. Qed.

(** C1, as stated, fails on its own example: whatever the letter table
    says beyond the two facts the scan relies on, the token that follows
    the four runes of "γθιπ" is not at column 5. *)
Lemma C1_counterexample :
  ~ (exists L : Z -> bool,
        L eof = false /\ L 0x3C0 = true /\
        exists t1 t2,
          scanAll L 9 2 "f" (bytes "γθιπ") = Ok [t1; t2] /\
          Column (tokPosition t2) = 5).
Proof.
  intros (L & He & Hp & t1 & t2 & H & Hc).
  rewrite (scanAll_ext L (pinned L 0x3C0)) in H by (apply pinned_eq; assumption).
  vm_compute in H. injection H as <- <-. vm_compute in Hc. discriminate Hc.
Qed.

Example dot_e_acute_dot :
  bytes ".é." = [x2e; xc3; xa9; x2e]%byte.
Proof. reflexivity. Qed.

(** C4. In the input ".é." the first ['.'] is followed by the two bytes
    of the rune ['é'], not by a second ['.'].  [next] does not decode the
    rune at the cursor but the last rune of the rest of the buffer, here
    the final ['.'], so [Scan] takes the dot and the first byte of ['é']
    for a range: the calls return [RANGE], [RANGE] and [EOF], and no
    [ILLEGAL] token with literal ".".  On "1.2", where the byte after the
    dot is an ASCII byte, the calls return NUMBER("1"), ILLEGAL("."),
    NUMBER("2"). *)
Theorem C4_dot_before_a_multibyte_rune (L : Z -> bool) :
  utf8.DecodeRune (drop 1 (bytes ".é.")) = (0xE9, 2) /\
  readAt (bytes ".é.") 1 = (46, 1) /\
  scanAll L 1 3 "f" (bytes ".é.")
  = Ok [(mkPosition "f" 0 0, RANGE, ".."%string);
        (mkPosition "f" 0 2, RANGE, ".."%string);
        (mkPosition "f" 0 4, EOF, ""%string)] /\
  scanAll L 4 3 "f" (bytes "1.2")
  = Ok [(mkPosition "f" 0 0, NUMBER, "1"%string);
        (mkPosition "f" 0 1, ILLEGAL, "."%string);
        (mkPosition "f" 0 2, NUMBER, "2"%string)].
Proof.
  repeat split; vm_compute; reflexivity.
Qed.

(** C3. The input "/**/" is scanned as one [COMMENT] token with literal
    "/**/", through the branch the source comments as an empty multi-line
    comment; on the comment built from that literal, [IsAPI] answers
    [true], where the claim wants [false]. *)
Theorem C3_IsAPI_on_empty_block_comment (L : Z -> bool) :
  scanAll L 5 2 "f" (bytes "/**/")
  = Ok [(mkPosition "f" 0 0, COMMENT, "/**/"%string);
        (mkPosition "f" 0 4, EOF, ""%string)] /\
  description.IsAPI
    (description.mkComment (NewPosition 0 0) (NewPosition 0 4) "/**/") = true /\
  description.IsMultiline
    (description.mkComment (NewPosition 0 0) (NewPosition 0 4) "/**/") = true.
Proof. repeat split; vm_compute; reflexivity. Qed.

(** C6. On the two-byte input [0xFF 0x3B] the byte [0xFF] is no valid
    encoding, yet no error is recorded and no [RuneError] is substituted:
    [next] decodes the last rune of the rest of the buffer, here [';'],
    so the fresh scanner stands on [';'] with an empty error list, returns
    [SEMICOLON] twice and ends with the error list still empty.  When the
    invalid byte is the last one of the buffer, as in [0x3B 0xFF], [next]
    does record the error and leaves [RuneError] as the current rune. *)
Theorem C6_invalid_byte_goes_unrecorded (L : Z -> bool) :
  (New "f" [xff; x3b]%byte
   = Ok (mkScanner "f" [xff; x3b]%byte 59 1 0 0 0 0 0 0 []) /\
   ScanN L 3 3 (mkScanner "f" [xff; x3b]%byte 59 1 0 0 0 0 0 0 [])
   = Ok (mkScanner "f" [xff; x3b]%byte eof 0 2 0 2 2 0 2 [],
         [(mkPosition "f" 0 0, SEMICOLON, String.string_of_list_byte [xff]%byte);
          (mkPosition "f" 0 1, SEMICOLON, ";"%string);
          (mkPosition "f" 0 2, EOF, ""%string)])) /\
  (New "f" [x3b; xff]%byte
   = Ok (mkScanner "f" [x3b; xff]%byte 59 1 0 0 0 0 0 0 []) /\
   next (mkScanner "f" [x3b; xff]%byte 59 1 0 0 0 0 0 0 [])
   = Ok (mkScanner "f" [x3b; xff]%byte utf8.RuneError 1 1 0 1 0 0 0
                   [mkError (mkPosition "f" 0 1)])).
Proof.
  split; split; vm_compute; reflexivity.
Qed.

(** C2, as stated, fails on its own example: after the [ILLEGAL] token
    of "/* unterminated", the next call of [Scan] returns a token, and
    that token is [EOF]. *)
Lemma C2_counterexample :
  ~ (exists L : Z -> bool,
        forall s0 s1 t1 s2 t2,
          New "f" (bytes "/* unterminated") = Ok s0 ->
          Scan L 16 s0 = Ok (s1, t1) ->
          Scan L 16 s1 = Ok (s2, t2) ->
          tokKind t2 <> EOF).
Proof.
  intros (L & H).
  destruct (New "f" (bytes "/* unterminated")) as [s0 | |] eqn:E0;
    pose proof E0 as C0; vm_compute in C0; try discriminate C0.
  destruct (Scan L 16 s0) as [[s1 t1] | |] eqn:E1;
    pose proof E1 as C1; injection C0 as <-; vm_compute in C1; try discriminate C1.
  destruct (Scan L 16 s1) as [[s2 t2] | |] eqn:E2;
    pose proof E2 as C2; injection C1 as <- <-; vm_compute in C2; try discriminate C2.
  specialize (H _ _ _ _ _ E0 E1 E2).
  injection C2 as _ <-. apply H. reflexivity.
Qed.

(** C5, as stated, fails on a comment closed by a line feed: the literal
    of the [COMMENT] token of "// c\nCHIP" ends with the line feed. *)
Lemma C5_counterexample :
  ~ (exists L : Z -> bool,
        forall s0 s1 t1,
          New "f" (bytes "// c" ++ [x0a]%byte ++ bytes "CHIP") = Ok s0 ->
          Scan L 10 s0 = Ok (s1, t1) ->
          tokKind t1 = COMMENT /\ tokLiteral t1 = "// c"%string).
Proof.
  intros (L & H).
  destruct (New "f" (bytes "// c" ++ [x0a]%byte ++ bytes "CHIP")) as [s0 | |] eqn:E0;
    vm_compute in E0; try discriminate E0.
  destruct (Scan L 10 s0) as [[s1 t1] | |] eqn:E1;
    injection E0 as <-; vm_compute in E1; try discriminate E1.
  destruct (H _ _ _ eq_refl E1) as [_ Hl].
  injection E1 as <- <-. vm_compute in Hl. discriminate Hl.
Qed.

(** ** Scanning ASCII bytes *)

Lemma readAt_ascii (l : list byte) (p : Z) (b : byte) :
  0 <= p -> l !! Z.to_nat p = Some b -> isAscii b -> readAt l p = (byteZ b, 1).
Proof.
  intros Hp Hl Hb. unfold readAt, isAscii in *.
  pose proof (lookup_lt_Some _ _ _ Hl) as Hlt.
  destruct (p >=? len l) eqn:E; [unfold len in E; lia |].
  unfold utf8.at_. rewrite Hl.
  destruct (byteZ b >=? utf8.RuneSelf) eqn:E1; [unfold utf8.RuneSelf in E1; lia |].
  reflexivity.
Qed.

Lemma Inv_current_at s b :
  Inv s -> src s !! Z.to_nat (pos s) = Some b -> isAscii b ->
  current s = byteZ b /\ w s = 1.
Proof.
  intros (H0 & H1 & H2 & Hc & Hw) Hl Hb.
  rewrite (readAt_ascii _ _ b) in Hc, Hw by (assumption || lia). auto.
Qed.

Lemma lookup_middle_Z (a : list byte) (b : byte) (r : list byte) :
  (a ++ b :: r) !! Z.to_nat (len a) = Some b.
Proof.
  unfold len. rewrite Nat2Z.id. apply list_lookup_middle. reflexivity.
Qed.

Lemma Inv_current_middle s a b r :
  Inv s -> src s = a ++ b :: r -> pos s = len a -> isAscii b ->
  current s = byteZ b /\ w s = 1.
Proof.
  intros HI Hs Hp Hb. apply Inv_current_at; [assumption | | assumption].
  rewrite Hs, Hp. apply lookup_middle_Z.
Qed.

Lemma byteZ_inj b1 b2 : byteZ b1 = byteZ b2 -> b1 = b2.
Proof.
  unfold byteZ. intros H. apply N2Z.inj in H.
  apply (f_equal Byte.of_N) in H. rewrite !Byte.of_to_N in H.
  congruence.
Qed.

Lemma slice_middle (a m r : list byte) :
  slice (a ++ m ++ r) (len a) (len a + len m) = Ok m.
Proof.
  pose proof (len_nonneg a). pose proof (len_nonneg m). pose proof (len_nonneg r).
  rewrite slice_Ok by (rewrite ?len_app; lia).
  unfold len. rewrite Nat2Z.id.
  replace (Z.to_nat (Z.of_nat (length a) + Z.of_nat (length m) - Z.of_nat (length a)))
    with (length m) by lia.
  rewrite drop_app_length, take_app_length. reflexivity.
Qed.

Lemma while_fields fuel cond s s' :
  while fuel cond s = Ok s' ->
  start s' = start s /\ src s' = src s /\ filename s' = filename s.
Proof.
  revert s. induction fuel as [| fuel IH]; intros s H; [discriminate |].
  unfold while in H; fold while in H.
  destruct (cond (current s)).
  - destruct (next s) as [s1 | |] eqn:En; simpl in H; try discriminate.
    apply next_fields in En as (_ & _ & _ & A & B & C).
    apply IH in H as (A' & B' & C'). repeat split; congruence.
  - injection H as <-. auto.
Qed.

(** A loop of [Scan] over a run of ASCII bytes that all satisfy its
    condition, up to a byte that does not. *)
Lemma while_run cond run : forall fuel s a b r,
  Inv s -> src s = a ++ run ++ b :: r -> pos s = len a ->
  Forall (fun x => isAscii x /\ cond (byteZ x) = true) run ->
  isAscii b -> cond (byteZ b) = false ->
  len run < Z.of_nat fuel ->
  exists s', while fuel cond s = Ok s' /\ Inv s' /\
             pos s' = len a + len run /\ current s' = byteZ b /\ w s' = 1.
Proof.
  induction run as [| x run IH]; intros fuel s a b r HI Hs Hp Hrun Hb Hcb Hf.
  - destruct (Inv_current_middle s a b r HI Hs Hp Hb) as [Hc Hw].
    exists s. rewrite while_stop; [| rewrite Hc; assumption | unfold len in Hf; simpl in Hf; lia].
    split; [reflexivity |]. split; [assumption |].
    split; [rewrite Hp; unfold len; simpl; lia | auto].
  - inversion Hrun as [| ? ? [Hx Hcx] Hrun']; subst.
    destruct (Inv_current_middle s a x (run ++ b :: r) HI Hs Hp Hx) as [Hc Hw].
    destruct fuel as [| fuel]; [unfold len in Hf; simpl in Hf; lia |].
    unfold while; fold while. rewrite Hc, Hcx.
    destruct (next_spec s (Inv_Pre s HI)) as (s1 & En & HI1 & HA1 & HP1 & _).
    rewrite En. simpl.
    destruct (IH fuel s1 (a ++ [x]) b r) as (s' & E & HI' & HP' & Hc' & Hw');
      try assumption.
    + destruct HA1 as (-> & _). rewrite Hs, <- app_assoc. reflexivity.
    + rewrite HP1, Hp, Hw, len_app. reflexivity.
    + unfold len in *. simpl in Hf. lia.
    + exists s'. split; [assumption |]. split; [assumption |].
      split; [| auto].
      rewrite HP', len_app. unfold len. simpl. lia.
Qed.

Lemma literal_middle s a m r :
  src s = a ++ m ++ r -> start s = len a -> pos s = len a + len m ->
  literal s = Ok (String.string_of_list_byte m).
Proof.
  intros Hs Hst Hp. unfold literal. rewrite Hs, Hst, Hp, slice_middle. reflexivity.
Qed.

Lemma ascii_slash : isAscii "/"%byte.
Proof. unfold isAscii. vm_compute. reflexivity. Qed.

Lemma ascii_star : isAscii "*"%byte.
Proof. unfold isAscii. vm_compute. reflexivity. Qed.

(** One [next] step from a state that stands on an ASCII byte. *)
Lemma next_over s a b r :
  Inv s -> src s = a ++ b :: r -> pos s = len a -> isAscii b ->
  exists s', next s = Ok s' /\ Inv s' /\ src s' = src s /\
             pos s' = len (a ++ [b]) /\ start s' = start s /\
             filename s' = filename s.
Proof.
  intros HI Hs Hp Hb.
  destruct (Inv_current_middle s a b r HI Hs Hp Hb) as [_ Hw].
  destruct (next_spec s (Inv_Pre s HI)) as (s' & En & HI' & HA & HP & HS).
  exists s'. destruct HA as (A1 & A2 & _).
  repeat (split; [assumption |]). split; [| auto].
  rewrite HP, Hp, Hw, len_app. reflexivity.
Qed.

(** The line-comment path of [comment], from the first ['/']. *)
(** Equal lists of bytes up to the bracketing of [++]. *)
Ltac list_eq := repeat rewrite <- app_assoc; rewrite ?app_nil_r; simpl; reflexivity.

Lemma comment_line fuel s pre body t rest :
  Inv s ->
  src s = pre ++ ["/"; "/"]%byte ++ body ++ t :: rest ->
  pos s = len pre -> start s = len pre ->
  Forall isAscii body ->
  Forall (fun b => b <> x0a /\ b <> x0d) body ->
  t = x0a \/ t = x0d ->
  len body < Z.of_nat fuel ->
  exists s', comment fuel s
             = Ok (moveToken s', COMMENT,
                   String.string_of_list_byte (["/"; "/"]%byte ++ body ++ [t])) /\
             Inv s' /\ pos s' = len pre + 2 + len body + 1.
Proof.
  intros HI Hs Hp Hst Hasc Hnl Ht Hf.
  assert (Hta : isAscii t) by (destruct Ht as [-> | ->]; vm_compute; reflexivity).
  destruct (next_over s pre "/"%byte (["/"]%byte ++ body ++ t :: rest))
    as (s1 & En1 & HI1 & Hs1 & Hp1 & Hst1 & _);
    [assumption | rewrite Hs; reflexivity | assumption | apply ascii_slash |].
  assert (Hsrc1 : src s1 = (pre ++ ["/"]%byte) ++ "/"%byte :: (body ++ t :: rest)).
  { rewrite Hs1, Hs. list_eq. }
  destruct (Inv_current_middle s1 _ _ _ HI1 Hsrc1 Hp1 ascii_slash) as [Hc1 _].
  destruct (next_over s1 _ _ _ HI1 Hsrc1 Hp1 ascii_slash)
    as (s2 & En2 & HI2 & Hs2 & Hp2 & Hst2 & _).
  assert (Hsrc2 : src s2 = (pre ++ ["/"; "/"]%byte) ++ body ++ t :: rest).
  { rewrite Hs2, Hs1, Hs. list_eq. }
  assert (Hp2' : pos s2 = len (pre ++ ["/"; "/"]%byte)).
  { rewrite Hp2, !len_app. unfold len. simpl. lia. }
  destruct (while_run (fun r => negb (r =? eof) && negb (r =? 10) && negb (r =? 13))
                      body fuel s2 _ t rest HI2 Hsrc2 Hp2')
    as (s3 & Ew & HI3 & Hp3 & Hc3 & Hw3); [| assumption | | assumption |].
  { rewrite Forall_forall in *. intros x Hx. split; [auto |].
    destruct (Hnl x Hx) as [N1 N2]. pose proof (byteZ_range x).
    assert (byteZ x <> 10) by (intros E; apply N1, byteZ_inj; rewrite E; reflexivity).
    assert (byteZ x <> 13) by (intros E; apply N2, byteZ_inj; rewrite E; reflexivity).
    unfold eof. repeat (apply andb_true_intro; split); apply negb_true_iff; lia. }
  { destruct Ht as [-> | ->]; reflexivity. }
  destruct (while_fields _ _ _ _ Ew) as (Hst3 & Hs3 & _).
  assert (Hsrc3 : src s3 = (pre ++ ["/"; "/"]%byte ++ body) ++ t :: rest).
  { rewrite Hs3, Hs2, Hs1, Hs. list_eq. }
  assert (Hp3' : pos s3 = len (pre ++ ["/"; "/"]%byte ++ body)).
  { rewrite Hp3, !len_app. lia. }
  destruct (next_over s3 _ _ _ HI3 Hsrc3 Hp3' Hta)
    as (s4 & En4 & HI4 & Hs4 & Hp4 & Hst4 & _).
  exists s4. split; [| split; [assumption |]].
  - unfold comment. rewrite En1. simpl. rewrite Hc1. simpl. rewrite En2. simpl.
    unfold commentBody.
    rewrite (literal_middle s2 pre ["/"; "/"]%byte (body ++ t :: rest));
      [| rewrite Hs2, Hs1, Hs; reflexivity | congruence
       | rewrite Hp2, !len_app; unfold len; simpl; lia].
    simpl. rewrite Ew. simpl. rewrite En4. simpl.
    rewrite (literal_middle s4 pre (["/"; "/"]%byte ++ body ++ [t]) rest);
      [reflexivity | | congruence |].
    + rewrite Hs4, Hs3, Hs2, Hs1, Hs. list_eq.
    + rewrite Hp4, !len_app. lia.
  - rewrite Hp4, !len_app. unfold len. simpl. lia.
Qed.

(** [Scan] on a state that stands on a ['/']: the comment sub-scan runs
    from the same place with the token start moved there. *)
Lemma Scan_at_slash L fuel s :
  (0 < fuel)%nat -> current s = 47 ->
  Scan L fuel s
  = mbind (fun r : Scanner * Token * string =>
             Ok (fst (fst r),
                 (mkPosition (filename s) (line s) (col s), snd (fst r), snd r)))
          (comment fuel (moveToken s)).
Proof.
  intros Hf Hc. unfold Scan, skipSpace.
  rewrite while_stop; [| rewrite Hc; reflexivity | assumption].
  simpl. rewrite Hc. simpl.
  destruct (comment fuel (moveToken s)) as [[[s1 tok] lit] | |]; reflexivity.
Qed.

(** [Scan] from a state that stands on the [//] of a line comment
    ended by a carriage return or a line feed. *)
Lemma line_comment_at_cursor
        (L : Z -> bool) (fuel : nat) (s : Scanner) (pre body : list byte)
        (t : byte) (rest : list byte) :
  Inv s ->
  src s = pre ++ ["/"; "/"]%byte ++ body ++ t :: rest ->
  pos s = len pre ->
  Forall isAscii body ->
  Forall (fun b => b <> x0a /\ b <> x0d) body ->
  t = x0a \/ t = x0d ->
  len body < Z.of_nat fuel ->
  exists s',
    Scan L fuel s
    = Ok (s', (mkPosition (filename s) (line s) (col s), COMMENT,
               String.string_of_list_byte (["/"; "/"]%byte ++ body ++ [t]))) /\
    Inv s' /\ pos s' = len pre + 2 + len body + 1.
Proof.
  intros HI Hs Hp Hasc Hnl Ht Hf.
  destruct (Inv_current_middle s pre "/"%byte (["/"]%byte ++ body ++ t :: rest))
    as [Hc _]; [assumption | rewrite Hs; reflexivity | assumption | apply ascii_slash |].
  pose proof (len_nonneg body).
  rewrite Scan_at_slash; [| lia | exact Hc].
  destruct (comment_line fuel (moveToken s) pre body t rest)
    as (s' & E & HI' & Hp'); try assumption.
  - apply moveToken_Inv; assumption.
  - exists (moveToken s'). rewrite E. simpl.
    split; [reflexivity |]. split; [apply moveToken_Inv; assumption | exact Hp'].
Qed.

(** ** Block comments that are never closed *)

Lemma Inv_byte s :
  Inv s -> current s <> eof -> asciiFrom (src s) (pos s) ->
  exists b, src s !! Z.to_nat (pos s) = Some b /\ current s = byteZ b /\ w s = 1.
Proof.
  intros HI Hne Ha. destruct (Inv_not_eof s HI Hne) as [Hlt _].
  pose proof HI as (H0 & H1 & _).
  destruct (lookup_lt_is_Some_2 (src s) (Z.to_nat (pos s))) as [b Hb];
    [unfold len in Hlt; lia |].
  exists b. split; [assumption |].
  apply Inv_current_at; [assumption | assumption |].
  apply (Ha (Z.to_nat (pos s))); [lia | assumption].
Qed.

(** After a ['*'] that no ['/'] follows, the scanner is not on a ['/']. *)
Lemma star_not_closed s1 s2 :
  Inv s1 -> Inv s2 -> src s2 = src s1 -> pos s2 = pos s1 + w s1 ->
  current s1 = 42 ->
  asciiFrom (src s1) (pos s1) -> openFrom (src s1) (pos s1) ->
  current s2 <> 47.
Proof.
  intros HI1 HI2 Hs Hp Hc Ha Ho H47.
  destruct (Inv_byte s1 HI1) as (b1 & Hb1 & Hc1 & Hw1);
    [rewrite Hc; discriminate | assumption |].
  assert (b1 = "*"%byte) by (apply byteZ_inj; rewrite <- Hc1, Hc; reflexivity).
  subst b1. pose proof HI1 as (? & ? & _).
  destruct (Inv_byte s2 HI2) as (b2 & Hb2 & Hc2 & _).
  - rewrite H47. discriminate.
  - rewrite Hs. intros i b Hi. apply Ha. lia.
  - assert (b2 = "/"%byte) by (apply byteZ_inj; rewrite <- Hc2, H47; reflexivity).
    subst b2. apply (Ho (Z.to_nat (pos s1))); [lia | assumption |].
    rewrite Hs, Hp, Hw1 in Hb2.
    replace (S (Z.to_nat (pos s1))) with (Z.to_nat (pos s1 + 1)) by lia.
    assumption.
Qed.

Lemma closeBlock_unclosed fuel : forall s,
  Inv s -> asciiFrom (src s) (pos s) -> openFrom (src s) (pos s) ->
  remaining s < Z.of_nat fuel ->
  exists s' lit,
    closeBlock fuel s = Ok (s', ILLEGAL, lit) /\ literal s' = Ok lit /\
    Inv s' /\ current s' = eof /\
    src s' = src s /\ start s' = start s /\ filename s' = filename s.
Proof.
  induction fuel as [| fuel IH]; intros s HI Ha Ho Hf.
  { pose proof HI as (? & ? & ? & _). unfold remaining in Hf. lia. }
  rewrite closeBlock_S.
  destruct (Returns_Ok _ _ _ _
              (while_Returns (fun r => negb (r =? 42) && negb (r =? eof))
                             (S fuel) s eq_refl HI) Hf)
    as (s1 & Ew & HI1 & HA1 & Hc1).
  rewrite Ew. simpl.
  destruct (while_fields _ _ _ _ Ew) as (Hst1 & Hs1 & Hf1).
  destruct HA1 as (_ & _ & Hpos1 & _).
  destruct (current s1 =? eof) eqn:Ee.
  - destruct (literal_Ok s1 HI1) as (lit & El). rewrite El. simpl.
    exists s1, lit. repeat (split; [first [reflexivity | assumption | lia] |]).
    assumption.
  - assert (Hc42 : current s1 = 42).
    { destruct (current s1 =? 42) eqn:E42; [lia |].
      discriminate Hc1. }
    assert (Ha1 : asciiFrom (src s1) (pos s1)).
    { rewrite Hs1. intros i b Hi. apply Ha. lia. }
    assert (Ho1 : openFrom (src s1) (pos s1)).
    { rewrite Hs1. intros i Hi. apply Ho. lia. }
    destruct (Inv_byte s1 HI1) as (b1 & _ & _ & Hw1);
      [rewrite Hc42; discriminate | assumption |].
    destruct (next_spec s1 (Inv_Pre s1 HI1)) as (s2 & En & HI2 & HA2 & HP2 & Hst2).
    rewrite En. simpl.
    destruct HA2 as (Hs2 & Hf2 & _).
    pose proof (star_not_closed s1 s2 HI1 HI2 Hs2 HP2 Hc42 Ha1 Ho1) as Hn47.
    destruct (current s2 =? 47) eqn:E47; [lia |].
    destruct (IH s2 HI2) as (s' & lit & E & El & HI' & Hc' & Hs' & Hst' & Hf').
    + rewrite Hs2. intros i b Hi. apply Ha1. lia.
    + rewrite Hs2. intros i Hi. apply Ho1. lia.
    + unfold remaining in *. rewrite Hs2, Hs1. lia.
    + exists s', lit. rewrite E.
      repeat (split; [first [reflexivity | assumption | congruence] |]).
      congruence.
Qed.

Lemma lookup_body (pre body : list byte) (i : nat) :
  (length pre + 2 <= i)%nat ->
  (pre ++ ["/"; "*"]%byte ++ body) !! i = body !! (i - length pre - 2)%nat.
Proof.
  intros Hi. rewrite lookup_app_r by lia. rewrite lookup_app_r by (simpl; lia).
  f_equal.
Qed.

Lemma asciiFrom_body pre body :
  Forall isAscii body -> asciiFrom (pre ++ ["/"; "*"]%byte ++ body) (len pre + 2).
Proof.
  intros Hb i b Hi Hl. unfold len in Hi.
  rewrite lookup_body in Hl by lia.
  rewrite Forall_lookup in Hb. eapply Hb; eassumption.
Qed.

Lemma openFrom_body pre body :
  unclosed body -> openFrom (pre ++ ["/"; "*"]%byte ++ body) (len pre + 2).
Proof.
  intros Hb i Hi Hl. unfold len in Hi.
  rewrite lookup_body in * by lia.
  replace (S i - length pre - 2)%nat with (S (i - length pre - 2)) by lia.
  apply Hb. assumption.
Qed.

Lemma asciiFrom_le l p q : p <= q -> asciiFrom l p -> asciiFrom l q.
Proof. intros Hpq H i b Hi. apply H. lia. Qed.

Lemma openFrom_le l p q : p <= q -> openFrom l p -> openFrom l q.
Proof. intros Hpq H i Hi. apply H. lia. Qed.

(** The tail of [comment] after a block opener whose comment never
    closes: the literal read so far is not "//", and [closeBlock] runs to
    the end of the input. *)
Lemma commentBody_unclosed fuel s pre opener body' :
  Inv s ->
  src s = pre ++ opener ++ body' ->
  start s = len pre -> pos s = len pre + len opener ->
  String.eqb (String.string_of_list_byte opener) "//" = false ->
  asciiFrom (src s) (pos s) -> openFrom (src s) (pos s) ->
  remaining s < Z.of_nat fuel ->
  exists s',
    commentBody fuel s
    = Ok (s', ILLEGAL, String.string_of_list_byte (opener ++ body')) /\
    Inv s' /\ current s' = eof /\ filename s' = filename s.
Proof.
  intros HI Hs Hst Hp Hne Ha Ho Hf.
  unfold commentBody.
  rewrite (literal_middle s pre opener body' Hs Hst Hp). simpl. rewrite Hne.
  destruct (closeBlock_unclosed fuel s HI Ha Ho Hf)
    as (s' & lit & E & El & HI' & Hc' & Hs' & Hst' & Hf').
  exists s'. rewrite E.
  destruct (Inv_eof s' HI' Hc') as [Hp' _].
  rewrite (literal_middle s' pre (opener ++ body') []) in El.
  - injection El as <-. auto.
  - rewrite Hs', Hs. list_eq.
  - congruence.
  - rewrite Hp', Hs', Hs, !len_app. lia.
Qed.

Lemma comment_unclosed fuel s pre body :
  Inv s ->
  src s = pre ++ ["/"; "*"]%byte ++ body ->
  pos s = len pre -> start s = len pre ->
  Forall isAscii body -> unclosed body ->
  len body < Z.of_nat fuel ->
  exists s',
    comment fuel s
    = Ok (s', ILLEGAL, String.string_of_list_byte (["/"; "*"]%byte ++ body)) /\
    Inv s' /\ current s' = eof /\ filename s' = filename s.
Proof.
  intros HI Hs Hp Hst Hasc Hopen Hf.
  destruct (next_over s pre "/"%byte ("*"%byte :: body))
    as (s1 & En1 & HI1 & Hs1 & Hp1 & Hst1 & Hf1);
    [assumption | rewrite Hs; reflexivity | assumption | apply ascii_slash |].
  assert (Hsrc1 : src s1 = (pre ++ ["/"]%byte) ++ "*"%byte :: body).
  { rewrite Hs1, Hs. list_eq. }
  destruct (Inv_current_middle s1 _ _ _ HI1 Hsrc1 Hp1 ascii_star) as [Hc1 _].
  destruct (next_over s1 _ _ _ HI1 Hsrc1 Hp1 ascii_star)
    as (s2 & En2 & HI2 & Hs2 & Hp2 & Hst2 & Hf2).
  assert (Hp2' : pos s2 = len pre + 2).
  { rewrite Hp2, !len_app. unfold len. simpl. lia. }
  assert (Hsrc2 : src s2 = pre ++ ["/"; "*"]%byte ++ body) by congruence.
  assert (Ha2 : asciiFrom (src s2) (pos s2)).
  { rewrite Hsrc2, Hp2'. apply asciiFrom_body. assumption. }
  assert (Ho2 : openFrom (src s2) (pos s2)).
  { rewrite Hsrc2, Hp2'. apply openFrom_body. assumption. }
  assert (Hrem2 : remaining s2 = len body).
  { unfold remaining. rewrite Hsrc2, Hp2', !len_app. unfold len. simpl. lia. }
  unfold comment. rewrite En1. simpl. rewrite Hc1. simpl. rewrite En2. simpl.
  destruct (current s2 =? 42) eqn:E42.
  - assert (Hc2 : current s2 = 42) by lia.
    destruct (Inv_byte s2 HI2) as (b & Hb & Hcb & Hw2);
      [rewrite Hc2; discriminate | assumption |].
    assert (b = "*"%byte) by (apply byteZ_inj; rewrite <- Hcb, Hc2; reflexivity).
    subst b.
    rewrite Hsrc2, Hp2' in Hb. unfold len in Hb.
    rewrite lookup_body in Hb by lia.
    replace (Z.to_nat (Z.of_nat (length pre) + 2) - length pre - 2)%nat with 0%nat
      in Hb by lia.
    destruct body as [| b0 body']; [discriminate |]. injection Hb as ->.
    destruct (next_spec s2 (Inv_Pre s2 HI2)) as (s3 & En3 & HI3 & HA3 & HP3 & Hst3).
    destruct HA3 as (Hs3 & Hf3 & _).
    pose proof (star_not_closed s2 s3 HI2 HI3 Hs3 HP3 Hc2 Ha2 Ho2) as Hn47.
    rewrite En3. simpl.
    destruct (current s3 =? 47) eqn:E47; [lia |].
    destruct (commentBody_unclosed fuel s3 pre ["/"; "*"; "*"]%byte body')
      as (s' & E & HI' & Hc' & Hf'); try assumption.
    + rewrite Hs3, Hsrc2. reflexivity.
    + congruence.
    + rewrite HP3, Hp2', Hw2. unfold len. simpl. lia.
    + reflexivity.
    + rewrite Hs3. apply (asciiFrom_le _ (pos s2)); [lia | assumption].
    + rewrite Hs3. apply (openFrom_le _ (pos s2)); [lia | assumption].
    + unfold remaining in *. rewrite Hs3. lia.
    + exists s'. rewrite E. repeat (split; [first [reflexivity | assumption] |]).
      congruence.
  - destruct (commentBody_unclosed fuel s2 pre ["/"; "*"]%byte body)
      as (s' & E & HI' & Hc' & Hf'); try assumption.
    + congruence.
    + reflexivity.
    + lia.
    + exists s'. rewrite E. repeat (split; [first [reflexivity | assumption] |]).
      congruence.
Qed.

Lemma ScanN_from_eof L fuel n s :
  (0 < fuel)%nat -> current s = eof ->
  exists s', ScanN L fuel n s
             = Ok (s', repeat (mkPosition (filename s) (line s) (col s), EOF, ""%string) n).
Proof.
  intros Hf Hc. destruct n as [| n]; [exists s; reflexivity |].
  exists (moveToken s). simpl.
  rewrite <- (Scan_moveToken L fuel s).
  rewrite Scan_at_eof by (assumption || reflexivity). simpl.
  rewrite ScanN_at_eof by (assumption || reflexivity). reflexivity.
Qed.

(** [Scan] from a state that stands on the opener of a block comment
    that is never closed. *)
Lemma unterminated_comment_at_cursor
        (L : Z -> bool) (fuel : nat) (s : Scanner) (pre body : list byte) :
  Inv s ->
  src s = pre ++ ["/"; "*"]%byte ++ body ->
  pos s = len pre ->
  Forall isAscii body ->
  unclosed body ->
  len body < Z.of_nat fuel ->
  exists s',
    Scan L fuel s
    = Ok (s', (mkPosition (filename s) (line s) (col s), ILLEGAL,
               String.string_of_list_byte (["/"; "*"]%byte ++ body))) /\
    forall n, exists s'',
      ScanN L fuel n s'
      = Ok (s'', repeat (mkPosition (filename s) (line s') (col s'), EOF, ""%string) n).
Proof.
  intros HI Hs Hp Hasc Hopen Hf.
  destruct (Inv_current_middle s pre "/"%byte ("*"%byte :: body))
    as [Hc _]; [assumption | rewrite Hs; reflexivity | assumption | apply ascii_slash |].
  pose proof (len_nonneg body).
  rewrite Scan_at_slash; [| lia | exact Hc].
  destruct (comment_unclosed fuel (moveToken s) pre body)
    as (s' & E & HI' & Hc' & Hf'); try assumption.
  { apply moveToken_Inv; assumption. }
  exists s'. rewrite E. simpl. split; [reflexivity |].
  intros n. simpl in Hf'. rewrite <- Hf'.
  apply ScanN_from_eof; [lia | assumption].
Qed.

(** ** Two runs of calls from one state *)

Lemma ScanN_agree L fuel n : forall m s s1 s2 ts1 ts2 i x y,
  ScanN L fuel n s = Ok (s1, ts1) ->
  ScanN L fuel m s = Ok (s2, ts2) ->
  ts1 !! i = Some x -> ts2 !! i = Some y -> x = y.
Proof.
  induction n as [| n IH]; intros m s s1 s2 ts1 ts2 i x y H1 H2 Hx Hy.
  - injection H1 as <- <-. discriminate Hx.
  - destruct m as [| m]; [injection H2 as <- <-; discriminate Hy |].
    simpl in H1, H2.
    destruct (Scan L fuel s) as [[s' t] | |]; simpl in H1, H2; try discriminate H1.
    destruct (ScanN L fuel n s') as [[u1 r1] | |] eqn:E1; simpl in H1;
      try discriminate H1.
    destruct (ScanN L fuel m s') as [[u2 r2] | |] eqn:E2; simpl in H2;
      try discriminate H2.
    injection H1 as <- <-. injection H2 as <- <-.
    destruct i as [| i]; [simpl in Hx, Hy; congruence |].
    eapply IH; eassumption.
Qed.

(** * Further properties of the code *)

(** ** Package [token] *)

(** X1. [Less] is a strict total order on positions: no position is
    less than itself, the relation is transitive, and of two different
    positions one is less than the other. *)
Theorem X1_Less_strict_total_order :
  (forall p, token.Less p p = false) /\
  (forall p q r, token.Less p q = true -> token.Less q r = true ->
                 token.Less p r = true) /\
  (forall p q, token.Less p q = true \/ p = q \/ token.Less q p = true) /\
  (forall p q, token.Less p q = true -> token.Less q p = false).
Proof.
  unfold token.Less. repeat split.
  - intros [l c]; simpl.
    destruct (l <? l) eqn:E1; [lia |]. destruct (l >? l) eqn:E2; lia.
  - intros [l1 c1] [l2 c2] [l3 c3]; simpl.
    repeat match goal with
           | |- context [if ?c then _ else _] => destruct c eqn:?
           end; lia.
  - intros [l1 c1] [l2 c2]; simpl.
    destruct (Z.lt_trichotomy l1 l2) as [H | [H | H]];
      [left | | right; right].
    + destruct (l1 <? l2) eqn:E; [reflexivity | lia].
    + subst l2. destruct (Z.lt_trichotomy c1 c2) as [Hc | [Hc | Hc]].
      * left. destruct (l1 <? l1) eqn:E1; [lia |].
        destruct (l1 >? l1) eqn:E2; lia.
      * right; left. congruence.
      * right; right. destruct (l1 <? l1) eqn:E1; [lia |].
        destruct (l1 >? l1) eqn:E2; lia.
    + destruct (l2 <? l1) eqn:E; [reflexivity | lia].
  - intros [l1 c1] [l2 c2]; simpl.
    repeat match goal with
           | |- context [if ?c then _ else _] => destruct c eqn:?
           end; lia.
Qed.

(** X2. Printing a token with [String] and reading the name back with
    [Lookup] returns the token for the keywords, [TRUE], [FALSE] and
    [IDENT]; the name of any other declared token is read as an
    identifier. *)
Theorem X2_Lookup_of_String (t : Token) :
  Lookup (token.String (code t)) = if isWord t then t else IDENT.
Proof. destruct t; vm_compute; reflexivity. Qed.

(** X3. [Lookup] answers a keyword, [TRUE] or [FALSE] for the exact
    spelling of that token only: any other string, a change of case
    included, is an [IDENT]; and [Lookup] returns no token but these. *)
Theorem X3_Lookup_exact_spelling (s : string) (t : Token) :
  Lookup s = t ->
  isWord t = true /\ (t <> IDENT -> s = token.String (code t)).
Proof.
  unfold Lookup. intros H.
  destruct (keywords !! s) as [k |] eqn:E.
  - subst k. apply elem_of_list_to_map_2 in E.
    repeat (apply elem_of_cons in E as [E | E];
            [injection E as -> ->; split; [reflexivity | intros _; reflexivity] |]).
    inversion E.
  - destruct (String.eqb s "true") eqn:E1.
    { apply String.eqb_eq in E1. subst. split; [reflexivity | reflexivity]. }
    destruct (String.eqb s "false") eqn:E2.
    { apply String.eqb_eq in E2. subst. split; [reflexivity | reflexivity]. }
    subst t. split; [reflexivity | congruence].
Qed.

Lemma X3_Lookup_exact_spelling_witness :
  isWord PARTS = true /\ (PARTS <> IDENT -> "PARTS"%string = token.String (code PARTS)).
Proof.
  apply (X3_Lookup_exact_spelling "PARTS" PARTS). reflexivity.
Defined.

(** X4. [String] gives every declared token a name of its own: the name
    is the entry of the token in [tokenStrings], which is not empty, so
    the [TOKEN(n)] fallback is not used for a declared token; two declared
    tokens with the same name are the same token; and an integer outside
    the table is printed as [TOKEN(n)]. *)
Theorem X4_String_names_are_distinct :
  (forall t, tokenStrings !! Z.to_nat (code t) = Some (token.String (code t)) /\
             token.String (code t) <> ""%string) /\
  (forall t1 t2, token.String (code t1) = token.String (code t2) -> t1 = t2) /\
  (forall z, z < 0 \/ len tokenStrings <= z ->
             token.String z = ("TOKEN(" +:+ pretty z +:+ ")")%string).
Proof.
  split; [| split].
  - intros t. destruct t; vm_compute; split; first [reflexivity | discriminate].
  - intros t1 t2. destruct t1; destruct t2; vm_compute; intros H;
      first [reflexivity | discriminate H].
  - intros z Hz. unfold token.String.
    destruct ((0 <=? z) && (z <? len tokenStrings)) eqn:E; [lia |].
    reflexivity.
Qed.

(** ** Package [description] *)

Lemma prefix_cons a s l :
  String.prefix (String.String a s) l = true ->
  exists l', l = String.String a l' /\ String.prefix s l' = true.
Proof.
  destruct l as [| b l']; simpl; [discriminate |].
  destruct (Ascii.ascii_dec a b) as [-> |]; [eauto | discriminate].
Qed.

Lemma prefix_two a b a' b' l :
  String.prefix (String.String a (String.String b ""))
                (String.String a' (String.String b' l))
  = (if Ascii.ascii_dec a a' then if Ascii.ascii_dec b b' then true else false
     else false).
Proof.
  cbn [String.prefix].
  destruct (Ascii.ascii_dec a a'); [| reflexivity].
  destruct (Ascii.ascii_dec b b'); [| reflexivity].
  destruct l; reflexivity.
Qed.

(** X5. The three predicates of a comment agree with one another: an API
    comment is a multi-line comment and no end-of-line comment, and an
    end-of-line comment is no multi-line comment. *)
Theorem X5_comment_predicates (c : description.Comment) :
  (description.IsAPI c = true ->
   description.IsMultiline c = true /\ description.IsEOL c = false) /\
  (description.IsEOL c = true -> description.IsMultiline c = false).
Proof.
  unfold description.IsAPI, description.IsMultiline, description.IsEOL.
  split.
  - intros H. apply prefix_cons in H as (l1 & E1 & H).
    apply prefix_cons in H as (l2 & E2 & H). subst l1. rewrite E1.
    rewrite !prefix_two.
    repeat match goal with
           | |- context [Ascii.ascii_dec ?x ?y] =>
               let E := fresh "E" in
               destruct (Ascii.ascii_dec x y) as [E | E];
               [try discriminate E | try congruence]
           end; try (split; reflexivity).
  - intros H. apply prefix_cons in H as (l1 & E1 & H).
    apply prefix_cons in H as (l2 & E2 & H). subst l1. rewrite E1.
    rewrite !prefix_two.
    repeat match goal with
           | |- context [Ascii.ascii_dec ?x ?y] =>
               let E := fresh "E" in
               destruct (Ascii.ascii_dec x y) as [E | E];
               [try discriminate E | try congruence]
           end; try reflexivity.
Qed.

Lemma X5_comment_predicates_witness :
  description.IsMultiline
    (description.mkComment (NewPosition 0 0) (NewPosition 0 9) "/** a */") = true /\
  description.IsEOL
    (description.mkComment (NewPosition 0 0) (NewPosition 0 9) "/** a */") = false.
Proof.
  apply (proj1 (X5_comment_predicates
                  (description.mkComment (NewPosition 0 0) (NewPosition 0 9) "/** a */"))).
  reflexivity.
Defined.

(** ** What the scanner writes *)

Lemma Steps_trans s1 s2 s3 : Steps s1 s2 -> Steps s2 s3 -> Steps s1 s3.
Proof.
  intros H. revert s3. induction H; intros s3 H3; eauto using Steps.
Qed.

Lemma Steps_one s s' : next s = Ok s' -> Steps s s'.
Proof. intros H. eapply Steps_next; [eassumption | apply Steps_refl]. Qed.

Lemma Steps_moved s : Steps s (moveToken s).
Proof. apply Steps_move, Steps_refl. Qed.

Lemma while_Steps fuel cond : forall s s',
  while fuel cond s = Ok s' -> Steps s s'.
Proof.
  induction fuel as [| fuel IH]; intros s s' H; [discriminate |].
  unfold while in H; fold while in H.
  destruct (cond (current s)).
  - destruct (next s) as [s1 | |] eqn:En; simpl in H; try discriminate.
    eapply Steps_next; eauto.
  - injection H as <-. apply Steps_refl.
Qed.

(** A loop whose condition holds on entry takes one [next] step at least. *)
Lemma while_enter fuel cond s s' :
  cond (current s) = true -> while fuel cond s = Ok s' ->
  exists s1, next s = Ok s1 /\ Steps s1 s'.
Proof.
  intros Hc H. destruct fuel as [| fuel]; [discriminate |].
  unfold while in H; fold while in H. rewrite Hc in H.
  destruct (next s) as [s1 | |] eqn:En; simpl in H; try discriminate.
  exists s1. split; [reflexivity | eapply while_Steps; eassumption].
Qed.

Lemma closeBlock_Steps fuel : forall s r,
  closeBlock fuel s = Ok r -> Steps s (fst (fst r)).
Proof.
  induction fuel as [| fuel IH]; intros s r H; [discriminate |].
  rewrite closeBlock_S in H.
  destruct (while (S fuel) _ s) as [s1 | |] eqn:Ew; simpl in H; try discriminate.
  apply (while_Steps _ _ _ _) in Ew.
  destruct (current s1 =? eof).
  - bind_inv H. injection H as <-. assumption.
  - destruct (next s1) as [s2 | |] eqn:En; simpl in H; try discriminate.
    apply Steps_one in En.
    destruct (current s2 =? 47).
    + destruct (next s2) as [s3 | |] eqn:En3; simpl in H; try discriminate.
      apply Steps_one in En3.
      bind_inv H. injection H as <-. simpl.
      eauto using Steps_trans, Steps_moved.
    + apply IH in H. eauto using Steps_trans.
Qed.

Lemma commentBody_Steps fuel s r :
  commentBody fuel s = Ok r -> Steps s (fst (fst r)).
Proof.
  unfold commentBody. intros H.
  destruct (literal s) as [l | |]; simpl in H; try discriminate.
  destruct (String.eqb l "//").
  - destruct (while fuel _ s) as [s1 | |] eqn:Ew; simpl in H; try discriminate.
    apply (while_Steps _ _ _ _) in Ew.
    destruct (next s1) as [s2 | |] eqn:En; simpl in H; try discriminate.
    apply Steps_one in En.
    bind_inv H. injection H as <-. simpl.
    eauto using Steps_trans, Steps_moved.
  - eapply closeBlock_Steps; eassumption.
Qed.

(** [comment] begins with a [next] step. *)
Lemma comment_Steps fuel s r :
  comment fuel s = Ok r ->
  exists s1, next s = Ok s1 /\ Steps s1 (fst (fst r)).
Proof.
  unfold comment. intros H.
  destruct (next s) as [s1 | |] eqn:En1; simpl in H; try discriminate.
  exists s1. split; [reflexivity |].
  destruct (current s1 =? 47).
  { destruct (next s1) as [s2 | |] eqn:En2; simpl in H; try discriminate.
    apply Steps_one in En2. apply commentBody_Steps in H.
    eauto using Steps_trans. }
  destruct (current s1 =? 42).
  { destruct (next s1) as [s2 | |] eqn:En2; simpl in H; try discriminate.
    apply Steps_one in En2.
    destruct (current s2 =? 42).
    - destruct (next s2) as [s3 | |] eqn:En3; simpl in H; try discriminate.
      apply Steps_one in En3.
      destruct (current s3 =? 47).
      + destruct (next s3) as [s4 | |] eqn:En4; simpl in H; try discriminate.
        apply Steps_one in En4.
        bind_inv H. injection H as <-. simpl.
        eauto 6 using Steps_trans, Steps_moved.
      + apply commentBody_Steps in H. eauto using Steps_trans.
    - apply commentBody_Steps in H. eauto using Steps_trans. }
  bind_inv H. injection H as <-. simpl. apply Steps_moved.
Qed.

(** The shape of a call of [Scan] that returns: the white space is
    skipped, the position is read off the token start, and the cursor
    moves on; past an [EOF] test that fails, by one [next] step at
    least. *)
Lemma Scan_shape L fuel s s' p tok lit :
  Scan L fuel s = Ok (s', (p, tok, lit)) ->
  exists s1,
    skipSpace fuel s = Ok s1 /\
    p = mkPosition (filename s1) (tokLine s1) (tokCol s1) /\
    Steps s1 s' /\
    (tok <> EOF ->
     current s1 <> eof /\ exists s2, next s1 = Ok s2 /\ Steps s2 s').
Proof.
  unfold Scan. intros H.
  destruct (skipSpace fuel s) as [s1 | |] eqn:Es; simpl in H; try discriminate.
  exists s1. split; [reflexivity |].
  destruct (current s1 =? eof) eqn:E0.
  { injection H as <- <- <- <-.
    split; [reflexivity |]. split; [apply Steps_refl |].
    intros Hn. exfalso. apply Hn. reflexivity. }
  assert (Hne : current s1 <> eof) by lia.
  destruct (isDigit (current s1)) eqn:Ed.
  { destruct (while fuel isDigit s1) as [s2 | |] eqn:Ew; simpl in H; try discriminate.
    bind_inv H. injection H as <- <- <- <-.
    destruct (while_enter _ _ _ _ Ed Ew) as (s3 & En & HS).
    split; [reflexivity |].
    split; [eauto using Steps_trans, Steps_one, Steps_moved |].
    intros _. split; [assumption |].
    exists s3. eauto using Steps_trans, Steps_moved. }
  destruct (unicode.IsLetter L (current s1)) eqn:El.
  { destruct (while fuel (isAlphanumeric L) s1) as [s2 | |] eqn:Ew; simpl in H;
      try discriminate.
    bind_inv H. injection H as <- <- <- <-.
    assert (Ea : isAlphanumeric L (current s1) = true).
    { unfold isAlphanumeric. rewrite El. apply orb_true_iff. left.
      apply orb_true_r. }
    destruct (while_enter _ _ _ _ Ea Ew) as (s3 & En & HS).
    split; [reflexivity |].
    split; [eauto using Steps_trans, Steps_one, Steps_moved |].
    intros _. split; [assumption |].
    exists s3. eauto using Steps_trans, Steps_moved. }
  destruct (current s1 =? 46).
  { destruct (next s1) as [s2 | |] eqn:En; simpl in H; try discriminate.
    destruct (current s2 =? 46).
    - destruct (next s2) as [s3 | |] eqn:En3; simpl in H; try discriminate.
      injection H as <- <- <- <-.
      split; [reflexivity |].
      split; [eauto using Steps_trans, Steps_one |].
      intros _. split; [assumption |]. exists s2. eauto using Steps_one.
    - injection H as <- <- <- <-.
      split; [reflexivity |].
      split; [eauto using Steps_one |].
      intros _. split; [assumption |]. exists s2. eauto using Steps_refl. }
  destruct (startComment (current s1)).
  { destruct (comment fuel s1) as [[[s2 tok'] lit'] | |] eqn:Ec; simpl in H;
      try discriminate.
    injection H as <- <- <- <-.
    destruct (comment_Steps _ _ _ Ec) as (s3 & En & HS). simpl in HS.
    split; [reflexivity |].
    split; [eauto using Steps_trans, Steps_one |].
    intros _. split; [assumption |]. exists s3. auto. }
  destruct (next s1) as [s2 | |] eqn:En; simpl in H; try discriminate.
  bind_inv H. injection H as <- <- <- <-.
  split; [reflexivity |].
  split; [eauto using Steps_trans, Steps_one, Steps_moved |].
  intros _. split; [assumption |]. exists s2. split; [reflexivity | apply Steps_moved].
Qed.

Lemma skipSpace_Steps fuel s s' : skipSpace fuel s = Ok s' -> Steps s s'.
Proof.
  unfold skipSpace. intros H.
  destruct (while fuel isSpace s) as [s1 | |] eqn:Ew; simpl in H; try discriminate.
  injection H as <-. apply (while_Steps _ _ _ _) in Ew.
  eauto using Steps_trans, Steps_moved.
Qed.

Lemma Scan_Steps L fuel s s' t : Scan L fuel s = Ok (s', t) -> Steps s s'.
Proof.
  destruct t as [[p tok] lit]. intros H.
  apply Scan_shape in H as (s1 & Es & _ & HS & _).
  apply skipSpace_Steps in Es. eauto using Steps_trans.
Qed.

Lemma ScanN_Steps L fuel n : forall s s' ts,
  ScanN L fuel n s = Ok (s', ts) -> Steps s s'.
Proof.
  induction n as [| n IH]; intros s s' ts H.
  - injection H as <- <-. apply Steps_refl.
  - simpl in H.
    destruct (Scan L fuel s) as [[s1 t] | |] eqn:Es; simpl in H; try discriminate.
    destruct (ScanN L fuel n s1) as [[s2 ts'] | |] eqn:En; simpl in H;
      try discriminate.
    injection H as <- <-.
    apply Scan_Steps in Es. apply IH in En. eauto using Steps_trans.
Qed.

Lemma next_errs s s' :
  next s = Ok s' ->
  errs s' = errs s \/
  errs s' = errs s ++ [mkError (mkPosition (filename s) (line s') (col s'))].
Proof.
  unfold next. intros H.
  bind_inv H; injection H as <-; simpl; auto.
Qed.

Lemma Steps_keeps s s' :
  Steps s s' ->
  src s' = src s /\ filename s' = filename s /\
  exists es, errs s' = errs s ++ es /\
             Forall (fun e => file (errPosition e) = filename s) es.
Proof.
  induction 1 as [s | s s1 s2 En _ IH | s s2 _ IH].
  - repeat split. exists []. rewrite app_nil_r. auto.
  - destruct IH as (A & B & es & C & D).
    pose proof (next_fields _ _ En) as (_ & _ & _ & _ & A1 & B1).
    split; [congruence |]. split; [congruence |].
    destruct (next_errs _ _ En) as [E | E].
    + exists es. split; [congruence |]. rewrite <- B1. assumption.
    + eexists (_ :: es). split.
      * rewrite C, E, <- app_assoc. reflexivity.
      * constructor; [reflexivity |]. rewrite <- B1. assumption.
  - assumption.
Qed.

(** X6. Whatever the input, a run of [Scan] calls leaves the buffer and
    the file name of the scanner as they were and only appends to the
    error list: the errors recorded before stay, in order, and every new
    one carries the scanner's file name. *)
Theorem X6_Scan_only_appends_errors (L : Z -> bool) fuel n s s' ts :
  ScanN L fuel n s = Ok (s', ts) ->
  src s' = src s /\ filename s' = filename s /\
  exists es, errs s' = errs s ++ es /\
             Forall (fun e => file (errPosition e) = filename s) es.
Proof. intros H. apply Steps_keeps. eapply ScanN_Steps; eassumption. Qed.

Lemma X6_Scan_only_appends_errors_witness :
  exists es,
    [mkError (mkPosition "f" 0 1)] = [] ++ es /\
    Forall (fun e => file (errPosition e) = "f"%string) es.
Proof.
  apply (X6_Scan_only_appends_errors greek 3 1
           (mkScanner "f" [x3b; xff]%byte 59 1 0 0 0 0 0 0 [])
           (mkScanner "f" [x3b; xff]%byte utf8.RuneError 1 1 0 1 1 0 1
                      [mkError (mkPosition "f" 0 1)])
           [(mkPosition "f" 0 0, SEMICOLON, ";"%string)]).
  vm_compute. reflexivity.
Defined.

Lemma Steps_Inv s s' :
  Steps s s' -> Inv s -> Inv s' /\ pos s <= pos s'.
Proof.
  induction 1 as [s | s s1 s2 En _ IH | s s2 _ IH]; intros HI.
  - split; [assumption | lia].
  - destruct (next_spec s (Inv_Pre s HI)) as (s1' & En' & HI1 & HA & _).
    rewrite En in En'. injection En' as <-.
    destruct (IH HI1) as [HI2 Hp]. destruct HA as (_ & _ & Hp1 & _).
    split; [assumption | lia].
  - destruct (IH (moveToken_Inv s HI)) as [HI2 Hp]. auto.
Qed.

(** X7. In every state a scanner reaches from [New] through [Scan]
    calls, the token start is behind the cursor and the cursor inside the
    buffer, so that [literal] does not panic; the current rune is the
    end-of-input sentinel exactly when the cursor is at the end of the
    buffer; and any other current rune is no negative number and has a
    width of one byte at least that fits in the buffer. *)
Theorem X7_reachable_states (L : Z -> bool) file input fuel n s0 s ts :
  New file input = Ok s0 ->
  ScanN L fuel n s0 = Ok (s, ts) ->
  src s = input /\ filename s = file /\
  0 <= start s /\ start s <= pos s /\ pos s <= len input /\
  (current s = eof <-> pos s = len input) /\
  (current s <> eof -> 0 <= current s /\ 1 <= w s /\ pos s + w s <= len input) /\
  exists l, literal s = Ok l.
Proof.
  intros HN HS.
  destruct (New_Inv file input) as (s0' & E & HI0 & Hsrc & Hfile & _).
  rewrite HN in E. injection E as <-.
  apply ScanN_Steps in HS.
  destruct (Steps_keeps _ _ HS) as (A & B & _).
  destruct (Steps_Inv _ _ HS HI0) as [HI _].
  pose proof HI as (H0 & H1 & H2 & Hc & Hw).
  rewrite A, Hsrc in *. rewrite B, Hfile.
  split; [reflexivity |]. split; [reflexivity |].
  split; [assumption |]. split; [assumption |]. split; [assumption |].
  destruct (readAt_spec input (pos s)) as [[Hp E] | (Hp & Hr & Hk & Hf)]; [lia | |].
  - rewrite E in Hc, Hw. simpl in Hc, Hw.
    split; [tauto |]. split; [congruence |]. apply literal_Ok. assumption.
  - rewrite <- Hc in Hr. rewrite <- Hw in Hk, Hf.
    split; [unfold eof; split; lia |].
    split; [auto |]. apply literal_Ok. assumption.
Qed.

Lemma X7_reachable_states_witness :
  exists l, literal (mkScanner "f" (bytes "a b") 32 1 1 0 1 1 0 1 []) = Ok l.
Proof.
  apply (X7_reachable_states greek "f" (bytes "a b") 4 1
           (mkScanner "f" (bytes "a b") 97 1 0 0 0 0 0 0 [])
           (mkScanner "f" (bytes "a b") 32 1 1 0 1 1 0 1 [])
           [(mkPosition "f" 0 0, IDENT, "a"%string)]);
    vm_compute; reflexivity.
Defined.

(** ** The token stream ends *)

(** A call of [Scan] that returns a token other than [EOF] has moved the
    byte cursor forward. *)
Lemma Scan_progress L fuel s s' p tok lit :
  Inv s -> Scan L fuel s = Ok (s', (p, tok, lit)) -> tok <> EOF ->
  pos s < pos s'.
Proof.
  intros HI H Hne.
  apply Scan_shape in H as (s1 & Es & _ & _ & Hn).
  destruct (Hn Hne) as (Hc & s2 & En & HS).
  apply skipSpace_Steps in Es.
  destruct (Steps_Inv _ _ Es HI) as [HI1 Hp1].
  destruct (Inv_not_eof s1 HI1 Hc) as [_ Hw].
  destruct (next_spec s1 (Inv_Pre s1 HI1)) as (s2' & En' & HI2 & _ & Hp2 & _).
  rewrite En in En'. injection En' as <-.
  destruct (Steps_Inv _ _ HS HI2) as [_ Hp3]. lia.
Qed.

Lemma ScanN_S L fuel n s :
  ScanN L fuel (S n) s
  = match Scan L fuel s with
    | Ok (s1, t) =>
        match ScanN L fuel n s1 with
        | Ok (s2, ts) => Ok (s2, t :: ts)
        | Panic => Panic
        | OutOfFuel => OutOfFuel
        end
    | Panic => Panic
    | OutOfFuel => OutOfFuel
    end.
Proof.
  change (ScanN L fuel (S n) s)
    with (mbind (fun '(s1, t) =>
                   mbind (fun '(s2, ts) => Ok (s2, t :: ts)) (ScanN L fuel n s1))
                (Scan L fuel s)).
  destruct (Scan L fuel s) as [[s1 t] | |]; reflexivity.
Qed.

Lemma tokens_until_EOF (L : Z -> bool) (F : nat) :
  L eof = false ->
  forall m s,
    Inv s -> remaining s <= Z.of_nat m -> remaining s < Z.of_nat F ->
    exists k s' ts p,
      (k <= m)%nat /\
      ScanN L F (S k) s = Ok (s', ts ++ [(p, EOF, ""%string)]) /\
      length ts = k /\ Forall (fun t => tokKind t <> EOF) ts.
Proof.
  intros HL. induction m as [| m IH]; intros s HI Hm HF.
  - destruct (Returns_Ok _ _ _ _ (Scan_Returns L HL F s HI) HF)
      as ([s1 [[p tok] lit]] & E & HI1 & _).
    destruct (decide (tok = EOF)) as [-> | Hne].
    + pose proof (Scan_EOF_inv _ _ _ _ _ _ E) as (_ & _ & -> & _).
      exists 0%nat, s1, [], p. simpl. rewrite E. simpl.
      repeat split; auto.
    + pose proof (Scan_progress _ _ _ _ _ _ _ HI E Hne) as Hp.
      simpl in HI1. pose proof HI1 as (_ & _ & Hle & _).
      destruct (Steps_keeps _ _ (Scan_Steps _ _ _ _ _ E)) as (Hs & _).
      unfold remaining in Hm. rewrite Hs in Hle. lia.
  - destruct (Returns_Ok _ _ _ _ (Scan_Returns L HL F s HI) HF)
      as ([s1 [[p tok] lit]] & E & HI1 & _).
    simpl in HI1.
    destruct (decide (tok = EOF)) as [-> | Hne].
    + pose proof (Scan_EOF_inv _ _ _ _ _ _ E) as (_ & _ & -> & _).
      exists 0%nat, s1, [], p. simpl. rewrite E. simpl.
      repeat split; auto. lia.
    + pose proof (Scan_progress _ _ _ _ _ _ _ HI E Hne) as Hp.
      destruct (Steps_keeps _ _ (Scan_Steps _ _ _ _ _ E)) as (Hs & _).
      destruct (IH s1 HI1) as (k & s' & ts & p' & Hk & E' & Hlen & Hall).
      * unfold remaining in *. rewrite Hs. lia.
      * unfold remaining in *. rewrite Hs. lia.
      * exists (S k), s', ((p, tok, lit) :: ts), p'.
        split; [lia |].
        split; [| split; [simpl; congruence | constructor; assumption]].
        rewrite (ScanN_S L F (S k) s), E, E'. reflexivity.
Qed.

(** X8. Scanning ends: on the scanner [New] returns for a buffer of [n]
    bytes, the calls of [Scan] return at most [n] tokens other than [EOF]
    and then the [EOF] token, with an empty literal; each token other
    than [EOF] has consumed one byte at least. *)
Theorem X8_EOF_within_length (L : Z -> bool) (file : string) (input : list byte) :
  L eof = false ->
  exists s0 k s ts p,
    New file input = Ok s0 /\
    (k <= length input)%nat /\
    ScanN L (S (length input)) (S k) s0 = Ok (s, ts ++ [(p, EOF, ""%string)]) /\
    length ts = k /\ Forall (fun t => tokKind t <> EOF) ts.
Proof.
  intros HL.
  destruct (New_Inv file input) as (s0 & E & HI & Hsrc & _ & Hpos & _).
  destruct (tokens_until_EOF L (S (length input)) HL (length input) s0 HI)
    as (k & s & ts & p & Hk & Es & Hlen & Hall).
  - unfold remaining, len. rewrite Hsrc, Hpos. lia.
  - unfold remaining, len. rewrite Hsrc, Hpos. lia.
  - exists s0, k, s, ts, p. auto.
Qed.

Lemma X8_EOF_within_length_witness :
  exists s0 k s ts p,
    New "f" (bytes "a;") = Ok s0 /\
    (k <= 2)%nat /\
    ScanN greek 3 (S k) s0 = Ok (s, ts ++ [(p, EOF, ""%string)]) /\
    length ts = k /\ Forall (fun t => tokKind t <> EOF) ts.
Proof.
  apply (X8_EOF_within_length greek "f" (bytes "a;")). reflexivity.
Defined.

(** ** Tokens of ASCII input *)

Lemma Inv_at_end s : Inv s -> pos s = len (src s) -> current s = eof /\ w s = 0.
Proof.
  intros (_ & _ & _ & Hc & Hw) Hp. unfold readAt in Hc, Hw.
  destruct (pos s >=? len (src s)) eqn:E; [auto | lia].
Qed.

(** A loop over a run of ASCII bytes that reaches the end of the buffer. *)
Lemma while_run_end cond run : forall fuel s a,
  Inv s -> src s = a ++ run -> pos s = len a ->
  Forall (fun x => isAscii x /\ cond (byteZ x) = true) run ->
  cond eof = false ->
  len run < Z.of_nat fuel ->
  exists s', while fuel cond s = Ok s' /\ Inv s' /\
             pos s' = len a + len run /\ current s' = eof.
Proof.
  induction run as [| x run IH]; intros fuel s a HI Hs Hp Hrun Hce Hf.
  - assert (Hend : pos s = len (src s)) by (rewrite Hs, Hp, app_nil_r; reflexivity).
    destruct (Inv_at_end s HI Hend) as [Hc _].
    exists s. rewrite while_stop; [| rewrite Hc; assumption | unfold len in Hf; simpl in Hf; lia].
    split; [reflexivity |]. split; [assumption |].
    split; [rewrite Hp; unfold len; simpl; lia | assumption].
  - inversion Hrun as [| ? ? [Hx Hcx] Hrun']; subst.
    destruct (Inv_current_middle s a x run HI Hs Hp Hx) as [Hc Hw].
    destruct fuel as [| fuel]; [unfold len in Hf; simpl in Hf; lia |].
    unfold while; fold while. rewrite Hc, Hcx.
    destruct (next_spec s (Inv_Pre s HI)) as (s1 & En & HI1 & HA1 & HP1 & _).
    rewrite En. simpl.
    destruct (IH fuel s1 (a ++ [x])) as (s' & E & HI' & HP' & Hc'); try assumption.
    + destruct HA1 as (-> & _). rewrite Hs, <- app_assoc. reflexivity.
    + rewrite HP1, Hp, Hw, len_app. reflexivity.
    + unfold len in *. simpl in Hf. lia.
    + exists s'. split; [assumption |]. split; [assumption |].
      split; [| assumption].
      rewrite HP', len_app. unfold len. simpl. lia.
Qed.

(** A loop over a run of ASCII bytes, up to the end of the run. *)
Lemma while_over cond run fuel s a rest :
  Inv s -> src s = a ++ run ++ rest -> pos s = len a ->
  Forall (fun x => isAscii x /\ cond (byteZ x) = true) run ->
  stops cond rest -> cond eof = false ->
  len run < Z.of_nat fuel ->
  exists s', while fuel cond s = Ok s' /\ Inv s' /\
             pos s' = len a + len run /\
             src s' = src s /\ start s' = start s /\ filename s' = filename s /\
             cond (current s') = false.
Proof.
  intros HI Hs Hp Hrun Hstop Hce Hf.
  destruct rest as [| b r].
  - rewrite app_nil_r in Hs.
    destruct (while_run_end cond run fuel s a HI Hs Hp Hrun Hce Hf)
      as (s' & E & HI' & Hp' & Hc').
    destruct (while_fields _ _ _ _ E) as (A & B & C).
    exists s'. repeat (split; [assumption |]). rewrite Hc'. assumption.
  - destruct Hstop as [Hb Hcb].
    destruct (while_run cond run fuel s a b r HI Hs Hp Hrun Hb Hcb Hf)
      as (s' & E & HI' & Hp' & Hc' & _).
    destruct (while_fields _ _ _ _ E) as (A & B & C).
    exists s'. repeat (split; [assumption |]). rewrite Hc'. assumption.
Qed.

Lemma digit_ascii x : isDigit (byteZ x) = true -> isAscii x.
Proof. unfold isDigit, isAscii. lia. Qed.

(** The first tests of [Scan] on a state that stands on no white space. *)
Lemma Scan_unfold L fuel s :
  (0 < fuel)%nat -> isSpace (current s) = false ->
  Scan L fuel s
  = (let s := moveToken s in
     let p := mkPosition (filename s) (tokLine s) (tokCol s) in
     let c := current s in
     if c =? eof then Ok (s, (p, EOF, ""%string))
     else if isDigit c then
       s1 ← while fuel isDigit s; lit ← literal s1;
       Ok (moveToken s1, (p, NUMBER, lit))
     else if unicode.IsLetter L c then
       s1 ← while fuel (isAlphanumeric L) s; lit ← literal s1;
       Ok (moveToken s1, (p, Lookup lit, lit))
     else if c =? 46 then
       s1 ← next s;
       if current s1 =? 46 then s2 ← next s1; Ok (s2, (p, RANGE, ".."%string))
       else Ok (s1, (p, ILLEGAL, "."%string))
     else if startComment c then
       '(s1, tok, lit) ← comment fuel s; Ok (s1, (p, tok, lit))
     else
       let tok := simpleToken c in
       s1 ← next s; lit ← literal s1;
       Ok (moveToken s1, (p, tok, lit))).
Proof.
  intros Hf Hc. unfold Scan, skipSpace.
  rewrite while_stop by assumption. reflexivity.
Qed.

(** X9. A maximal run of ASCII digits is one [NUMBER] token whose
    literal is the run: the scan stops at the end of the buffer or at the
    first ASCII byte that is no digit, a ['.'] included, and leaves the
    cursor there. *)
Theorem X9_number_is_the_digit_run
        (L : Z -> bool) (fuel : nat) (s : Scanner)
        (pre : list byte) (d : byte) (ds rest : list byte) :
  Inv s ->
  src s = pre ++ (d :: ds) ++ rest ->
  pos s = len pre ->
  Forall (fun x => isDigit (byteZ x) = true) (d :: ds) ->
  stops isDigit rest ->
  len (d :: ds) < Z.of_nat fuel ->
  exists s',
    Scan L fuel s
    = Ok (s', (mkPosition (filename s) (line s) (col s), NUMBER,
               String.string_of_list_byte (d :: ds))) /\
    Inv s' /\ pos s' = len pre + len (d :: ds).
Proof.
  intros HI Hs Hp Hd Hstop Hf.
  inversion Hd as [| ? ? Hd0 Hds]; subst.
  destruct (Inv_current_middle s pre d (ds ++ rest) HI Hs Hp (digit_ascii d Hd0))
    as [Hc _].
  pose proof (len_nonneg (d :: ds)).
  rewrite Scan_unfold; [| lia | rewrite Hc; unfold isDigit, isSpace in *; lia].
  cbv zeta. simpl current. rewrite Hc.
  replace (byteZ d =? eof) with false by (unfold isDigit, eof in *; lia).
  rewrite Hd0.
  destruct (while_over isDigit (d :: ds) fuel (moveToken s) pre rest)
    as (s1 & Ew & HI1 & Hp1 & Hs1 & Hst1 & _ & _); try assumption.
  - apply moveToken_Inv; assumption.
  - rewrite Forall_forall in *. intros x Hx. split; [apply digit_ascii |]; auto.
  - reflexivity.
  - rewrite Ew. simpl.
    rewrite (literal_middle s1 pre (d :: ds) rest);
      [| rewrite Hs1; exact Hs | rewrite Hst1; exact Hp | exact Hp1].
    simpl. eexists. split; [reflexivity |].
    split; [apply moveToken_Inv; assumption | exact Hp1].
Qed.

Lemma X9_number_is_the_digit_run_witness :
  exists s',
    Scan greek 4 (mkScanner "f" (bytes "16]") 49 1 0 0 0 0 0 0 [])
    = Ok (s', (mkPosition "f" 0 0, NUMBER, "16"%string)) /\
    Inv s' /\ pos s' = 2.
Proof.
  apply (X9_number_is_the_digit_run greek 4
           (mkScanner "f" (bytes "16]") 49 1 0 0 0 0 0 0 [])
           [] "1"%byte (bytes "6") (bytes "]")).
  - unfold Inv. vm_compute. repeat split; congruence.
  - reflexivity.
  - reflexivity.
  - repeat constructor.
  - split; vm_compute; reflexivity.
  - vm_compute. reflexivity.
Defined.

Lemma IsLetter_byte L x : unicode.IsLetter L (byteZ x) = unicode.latin1Letter (byteZ x).
Proof.
  unfold unicode.IsLetter, unicode.MaxLatin1. pose proof (byteZ_range x).
  destruct ((0 <=? byteZ x) && (byteZ x <=? 255)) eqn:E; [reflexivity | lia].
Qed.

Lemma letter_ascii_class x :
  isAscii x -> unicode.latin1Letter (byteZ x) = true ->
  isSpace (byteZ x) = false /\ isDigit (byteZ x) = false /\ byteZ x <> eof.
Proof.
  unfold isAscii, unicode.latin1Letter, isSpace, isDigit, eof. lia.
Qed.

(** [Scan] from a state that stands on the first letter of a word. *)
Lemma word_at_cursor
        (L : Z -> bool) (fuel : nat) (s : Scanner)
        (pre : list byte) (c : byte) (cs rest : list byte) :
  L eof = false ->
  Inv s ->
  src s = pre ++ (c :: cs) ++ rest ->
  pos s = len pre ->
  isAscii c -> unicode.latin1Letter (byteZ c) = true ->
  Forall (fun x => isAscii x /\ isAlphanumeric L (byteZ x) = true) cs ->
  stops (isAlphanumeric L) rest ->
  len (c :: cs) < Z.of_nat fuel ->
  exists s',
    Scan L fuel s
    = Ok (s', (mkPosition (filename s) (line s) (col s),
               Lookup (String.string_of_list_byte (c :: cs)),
               String.string_of_list_byte (c :: cs))) /\
    Inv s' /\ pos s' = len pre + len (c :: cs).
Proof.
  intros HL HI Hs Hp Hca Hcl Hcs Hstop Hf.
  destruct (Inv_current_middle s pre c (cs ++ rest) HI Hs Hp Hca) as [Hc _].
  destruct (letter_ascii_class c Hca Hcl) as (Hsp & Hdg & Hne).
  pose proof (len_nonneg (c :: cs)).
  rewrite Scan_unfold; [| lia | rewrite Hc; assumption].
  cbv zeta. simpl current. rewrite Hc.
  replace (byteZ c =? eof) with false by lia.
  rewrite Hdg, IsLetter_byte, Hcl.
  destruct (while_over (isAlphanumeric L) (c :: cs) fuel (moveToken s) pre rest)
    as (s1 & Ew & HI1 & Hp1 & Hs1 & Hst1 & _ & _); try assumption.
  - apply moveToken_Inv; assumption.
  - constructor; [| assumption]. split; [assumption |].
    unfold isAlphanumeric. rewrite IsLetter_byte, Hcl.
    rewrite orb_true_r. reflexivity.
  - apply isAlphanumeric_eof. assumption.
  - rewrite Ew. simpl.
    rewrite (literal_middle s1 pre (c :: cs) rest);
      [| rewrite Hs1; exact Hs | rewrite Hst1; exact Hp | exact Hp1].
    simpl. eexists. split; [reflexivity |].
    split; [apply moveToken_Inv; assumption | exact Hp1].
Qed.

(** X11. An ASCII byte that is no white space, digit, letter, ['.'] or
    ['/'] is a token of its own: the scanner consumes that byte alone,
    returns it as the literal, and the kind is the fixed kind of the
    punctuation sign, or [ILLEGAL] for any other byte. *)
Theorem X11_one_byte_token
        (L : Z -> bool) (fuel : nat) (s : Scanner)
        (pre : list byte) (b : byte) (rest : list byte) :
  (0 < fuel)%nat ->
  Inv s ->
  src s = pre ++ b :: rest ->
  pos s = len pre ->
  isAscii b ->
  isSpace (byteZ b) = false -> isDigit (byteZ b) = false ->
  unicode.latin1Letter (byteZ b) = false ->
  byteZ b <> 46 -> byteZ b <> 47 ->
  exists s',
    Scan L fuel s
    = Ok (s', (mkPosition (filename s) (line s) (col s),
               simpleToken (byteZ b), String.string_of_list_byte [b])) /\
    Inv s' /\ pos s' = len pre + 1.
Proof.
  intros Hf HI Hs Hp Hb Hsp Hdg Hlt H46 H47.
  destruct (Inv_current_middle s pre b rest HI Hs Hp Hb) as [Hc _].
  pose proof (byteZ_range b).
  rewrite Scan_unfold; [| assumption | rewrite Hc; assumption].
  cbv zeta. simpl current. rewrite Hc.
  replace (byteZ b =? eof) with false by (unfold eof; lia).
  rewrite Hdg, IsLetter_byte, Hlt.
  replace (byteZ b =? 46) with false by lia.
  replace (startComment (byteZ b)) with false by (unfold startComment; lia).
  destruct (next_over (moveToken s) pre b rest)
    as (s1 & En & HI1 & Hs1 & Hp1 & Hst1 & _); try assumption.
  { apply moveToken_Inv; assumption. }
  rewrite En. simpl.
  rewrite (literal_middle s1 pre [b] rest);
    [| rewrite Hs1; exact Hs | rewrite Hst1; exact Hp
     | rewrite Hp1, len_app; reflexivity].
  simpl. eexists. split; [reflexivity |].
  split; [apply moveToken_Inv; assumption |].
  simpl. rewrite Hp1, len_app. reflexivity.
Qed.

Lemma X11_one_byte_token_witness :
  exists s',
    Scan greek 1 (mkScanner "f" (bytes "*}") 42 1 0 0 0 0 0 0 [])
    = Ok (s', (mkPosition "f" 0 0, ILLEGAL, "*"%string)) /\
    Inv s' /\ pos s' = 1.
Proof.
  apply (X11_one_byte_token greek 1
           (mkScanner "f" (bytes "*}") 42 1 0 0 0 0 0 0 [])
           [] "*"%byte (bytes "}")).
  - lia.
  - unfold Inv. vm_compute. repeat split; congruence.
  - reflexivity.
  - reflexivity.
  - vm_compute. reflexivity.
  - reflexivity.
  - reflexivity.
  - reflexivity.
  - discriminate.
  - discriminate.
Defined.

Lemma ascii_dot : isAscii "."%byte.
Proof. unfold isAscii. vm_compute. reflexivity. Qed.

(** X12. Two ['.'] in a row are one [RANGE] token with literal "..":
    both bytes are consumed and the cursor is left on the byte after the
    second. *)
Theorem X12_two_dots_are_a_range
        (L : Z -> bool) (fuel : nat) (s : Scanner) (pre rest : list byte) :
  (0 < fuel)%nat ->
  Inv s ->
  src s = pre ++ "."%byte :: "."%byte :: rest ->
  pos s = len pre ->
  exists s',
    Scan L fuel s
    = Ok (s', (mkPosition (filename s) (line s) (col s), RANGE, ".."%string)) /\
    Inv s' /\ pos s' = len pre + 2.
Proof.
  intros Hf HI Hs Hp.
  destruct (Inv_current_middle s pre _ _ HI Hs Hp ascii_dot) as [Hc _].
  rewrite Scan_unfold; [| assumption | rewrite Hc; reflexivity].
  cbv zeta. simpl current. rewrite Hc. simpl.
  destruct (next_over (moveToken s) pre "."%byte ("."%byte :: rest))
    as (s1 & En1 & HI1 & Hs1 & Hp1 & _); try assumption.
  { apply moveToken_Inv; assumption. }
  { apply ascii_dot. }
  assert (Hsrc1 : src s1 = (pre ++ ["."]%byte) ++ "."%byte :: rest).
  { rewrite Hs1. simpl. rewrite Hs. list_eq. }
  destruct (Inv_current_middle s1 _ _ _ HI1 Hsrc1 Hp1 ascii_dot) as [Hc1 _].
  destruct (next_over s1 _ _ _ HI1 Hsrc1 Hp1 ascii_dot)
    as (s2 & En2 & HI2 & _ & Hp2 & _).
  rewrite En1. simpl. rewrite Hc1. simpl. rewrite En2. simpl.
  exists s2. split; [reflexivity |]. split; [assumption |].
  rewrite Hp2, !len_app. unfold len. simpl. lia.
Qed.

Lemma X12_two_dots_are_a_range_witness :
  exists s',
    Scan greek 1 (mkScanner "f" (bytes "..8") 46 1 0 0 0 0 0 0 [])
    = Ok (s', (mkPosition "f" 0 0, RANGE, ".."%string)) /\
    Inv s' /\ pos s' = 2.
Proof.
  apply (X12_two_dots_are_a_range greek 1
           (mkScanner "f" (bytes "..8") 46 1 0 0 0 0 0 0 []) [] (bytes "8")).
  - lia.
  - unfold Inv. vm_compute. repeat split; congruence.
  - reflexivity.
  - reflexivity.
Defined.

(** [Scan] from a state that stands on a ['/'] that opens no comment. *)
Lemma lone_slash_at_cursor
        (L : Z -> bool) (fuel : nat) (s : Scanner) (pre rest : list byte) :
  (0 < fuel)%nat ->
  Inv s ->
  src s = pre ++ "/"%byte :: rest ->
  pos s = len pre ->
  stops (fun r => (r =? 47) || (r =? 42)) rest ->
  exists s',
    Scan L fuel s
    = Ok (s', (mkPosition (filename s) (line s) (col s), ILLEGAL, "/"%string)) /\
    Inv s' /\ pos s' = len pre + 1.
Proof.
  intros Hf HI Hs Hp Hstop.
  destruct (Inv_current_middle s pre _ _ HI Hs Hp ascii_slash) as [Hc _].
  rewrite Scan_at_slash; [| assumption | exact Hc].
  destruct (next_over (moveToken s) pre "/"%byte rest)
    as (s1 & En1 & HI1 & Hs1 & Hp1 & Hst1 & _); try assumption.
  { apply moveToken_Inv; assumption. }
  { apply ascii_slash. }
  assert (Hc1 : (current s1 =? 47) = false /\ (current s1 =? 42) = false).
  { destruct rest as [| b r].
    - destruct (Inv_at_end s1 HI1) as [E _].
      + rewrite Hp1, Hs1. simpl. rewrite Hs. reflexivity.
      + rewrite E. split; reflexivity.
    - destruct Hstop as [Hb Hcb].
      destruct (Inv_current_middle s1 (pre ++ ["/"]%byte) b r HI1) as [E _];
        [rewrite Hs1; simpl; rewrite Hs; list_eq | assumption | assumption |].
      rewrite E. apply orb_false_iff in Hcb. assumption. }
  destruct Hc1 as [E47 E42].
  unfold comment. rewrite En1. simpl. rewrite E47, E42.
  rewrite (literal_middle s1 pre ["/"]%byte rest);
    [| rewrite Hs1; exact Hs | rewrite Hst1; exact Hp
     | rewrite Hp1, len_app; reflexivity].
  simpl. eexists. split; [reflexivity |].
  split; [apply moveToken_Inv; assumption |].
  simpl. rewrite Hp1, len_app. reflexivity.
Qed.

(** ** Comments that are closed, or that the buffer ends *)

Lemma split_at_star (body : list byte) :
  Forall (fun x => x <> "*"%byte) body \/
  exists run body', body = run ++ "*"%byte :: body' /\
                    Forall (fun x => x <> "*"%byte) run.
Proof.
  induction body as [| x body IH]; [left; constructor |].
  assert (Hdec : x = "*"%byte \/ x <> "*"%byte).
  { destruct (Z.eq_dec (byteZ x) 42) as [E | N].
    - left. apply byteZ_inj. rewrite E. reflexivity.
    - right. intros ->. apply N. reflexivity. }
  destruct Hdec as [-> | Hx].
  - right. exists [], body. split; [reflexivity | constructor].
  - destruct IH as [H | (run & body' & -> & H)].
    + left. constructor; assumption.
    + right. exists (x :: run), body'. split; [reflexivity |].
      constructor; assumption.
Qed.

Lemma unclosed_tail run body' :
  unclosed (run ++ "*"%byte :: body') -> unclosed body'.
Proof.
  intros H i Hi.
  specialize (H (length run + 1 + i)%nat).
  rewrite lookup_app_r in H by lia.
  replace (length run + 1 + i - length run)%nat with (S i) in H by lia.
  replace (S (length run + 1 + i)) with (length run + S (S i))%nat in H by lia.
  rewrite lookup_app_r in H by lia.
  replace (length run + S (S i) - length run)%nat with (S (S i)) in H by lia.
  simpl in H. auto.
Qed.

Lemma unclosed_after_star run y body' :
  unclosed (run ++ "*"%byte :: y :: body') -> y <> "/"%byte.
Proof.
  intros H E. subst y.
  apply (H (length run)).
  - rewrite list_lookup_middle; reflexivity.
  - replace (S (length run)) with (length run + 1)%nat by lia.
    rewrite lookup_app_r by lia.
    replace (length run + 1 - length run)%nat with 1%nat by lia. reflexivity.
Qed.

Lemma not_star_cond x :
  isAscii x -> x <> "*"%byte ->
  isAscii x /\ negb (byteZ x =? 42) && negb (byteZ x =? eof) = true.
Proof.
  intros Ha Hx. split; [assumption |].
  pose proof (byteZ_range x).
  assert (byteZ x <> 42) by (intros E; apply Hx, byteZ_inj; rewrite E; reflexivity).
  unfold eof. apply andb_true_intro. split; apply negb_true_iff; lia.
Qed.

(** The closing loop on an ASCII body whose first [*/] is the one that
    follows it. *)
Lemma closeBlock_closed fuel : forall body s a rest,
  Inv s ->
  src s = a ++ body ++ "*"%byte :: "/"%byte :: rest ->
  pos s = len a ->
  Forall isAscii body -> unclosed body ->
  len body + 2 < Z.of_nat fuel ->
  exists s3 lit,
    closeBlock fuel s = Ok (moveToken s3, COMMENT, lit) /\
    literal s3 = Ok lit /\ Inv s3 /\
    pos s3 = len a + len body + 2 /\ start s3 = start s /\ src s3 = src s.
Proof.
  induction fuel as [| fuel IH]; intros body s a rest HI Hs Hp Hasc Hopen Hf.
  { pose proof (len_nonneg body). lia. }
  rewrite closeBlock_S.
  destruct (split_at_star body) as [Hno | (run & body' & -> & Hno)].
  - (* no star in the body: the loop runs to the closing star *)
    destruct (while_run (fun r => negb (r =? 42) && negb (r =? eof))
                        body (S fuel) s a "*"%byte ("/"%byte :: rest) HI Hs Hp)
      as (s1 & Ew & HI1 & Hp1 & Hc1 & _).
    { rewrite Forall_forall in *. intros x Hx. apply not_star_cond; auto. }
    { apply ascii_star. }
    { reflexivity. }
    { lia. }
    destruct (while_fields _ _ _ _ Ew) as (Hst1 & Hs1 & _).
    rewrite Ew. simpl. rewrite Hc1. simpl.
    assert (Hsrc1 : src s1 = (a ++ body) ++ "*"%byte :: "/"%byte :: rest).
    { rewrite Hs1, Hs. list_eq. }
    assert (Hp1' : pos s1 = len (a ++ body)) by (rewrite Hp1, len_app; reflexivity).
    destruct (next_over s1 _ _ _ HI1 Hsrc1 Hp1' ascii_star)
      as (s2 & En2 & HI2 & Hs2 & Hp2 & Hst2 & _).
    assert (Hsrc2 : src s2 = ((a ++ body) ++ ["*"]%byte) ++ "/"%byte :: rest).
    { rewrite Hs2, Hsrc1. list_eq. }
    destruct (Inv_current_middle s2 _ _ _ HI2 Hsrc2 Hp2 ascii_slash) as [Hc2 _].
    destruct (next_over s2 _ _ _ HI2 Hsrc2 Hp2 ascii_slash)
      as (s3 & En3 & HI3 & Hs3 & Hp3 & Hst3 & _).
    rewrite En2. simpl. rewrite Hc2. simpl. rewrite En3. simpl.
    destruct (literal_Ok s3 HI3) as (lit & El). rewrite El. simpl.
    exists s3, lit. split; [reflexivity |]. split; [assumption |].
    split; [assumption |].
    split; [rewrite Hp3, !len_app; unfold len; simpl; lia |].
    split; congruence.
  - (* a star in the body: it is followed by no slash, and the loop goes on *)
    apply Forall_app in Hasc as [Harun Hab]. inversion Hab as [| ? ? _ Hab']; subst.
    destruct (while_run (fun r => negb (r =? 42) && negb (r =? eof))
                        run (S fuel) s a "*"%byte
                        (body' ++ "*"%byte :: "/"%byte :: rest) HI)
      as (s1 & Ew & HI1 & Hp1 & Hc1 & _).
    { rewrite Hs. list_eq. }
    { assumption. }
    { rewrite Forall_forall in *. intros x Hx. apply not_star_cond; auto. }
    { apply ascii_star. }
    { reflexivity. }
    { rewrite len_app in Hf. pose proof (len_nonneg ("*"%byte :: body')). lia. }
    destruct (while_fields _ _ _ _ Ew) as (Hst1 & Hs1 & _).
    rewrite Ew. simpl. rewrite Hc1. simpl.
    assert (Hsrc1 : src s1 = (a ++ run) ++ "*"%byte
                                :: (body' ++ "*"%byte :: "/"%byte :: rest)).
    { rewrite Hs1, Hs. list_eq. }
    assert (Hp1' : pos s1 = len (a ++ run)) by (rewrite Hp1, len_app; reflexivity).
    destruct (next_over s1 _ _ _ HI1 Hsrc1 Hp1' ascii_star)
      as (s2 & En2 & HI2 & Hs2 & Hp2 & Hst2 & _).
    assert (Hsrc2 : src s2 = ((a ++ run) ++ ["*"]%byte)
                               ++ body' ++ "*"%byte :: "/"%byte :: rest).
    { rewrite Hs2, Hsrc1. list_eq. }
    rewrite En2. simpl.
    assert (Hn47 : (current s2 =? 47) = false).
    { destruct body' as [| y body''].
      - destruct (Inv_current_middle s2 _ _ _ HI2 Hsrc2 Hp2 ascii_star) as [E _].
        rewrite E. reflexivity.
      - inversion Hab' as [| ? ? Hy _]; subst.
        destruct (Inv_current_middle s2 _ y (body'' ++ "*"%byte :: "/"%byte :: rest)
                                     HI2 Hsrc2 Hp2 Hy) as [E _].
        pose proof (unclosed_after_star _ _ _ Hopen) as Hy'.
        assert (byteZ y <> 47)
          by (intros E'; apply Hy', byteZ_inj; rewrite E'; reflexivity).
        rewrite E. lia. }
    rewrite Hn47.
    destruct (IH body' s2 _ rest HI2 Hsrc2 Hp2 Hab' (unclosed_tail _ _ Hopen))
      as (s3 & lit & E & El & HI3 & Hp3 & Hst3 & Hs3).
    { rewrite len_app in Hf. unfold len in *. simpl in Hf. lia. }
    exists s3, lit. split; [assumption |]. split; [assumption |].
    split; [assumption |].
    split; [rewrite Hp3, !len_app; unfold len; simpl; lia |].
    split; congruence.
Qed.

Lemma commentBody_closed fuel s pre opener body rest :
  Inv s ->
  src s = pre ++ opener ++ body ++ "*"%byte :: "/"%byte :: rest ->
  start s = len pre -> pos s = len pre + len opener ->
  String.eqb (String.string_of_list_byte opener) "//" = false ->
  Forall isAscii body -> unclosed body ->
  len body + 2 < Z.of_nat fuel ->
  exists s3,
    commentBody fuel s
    = Ok (moveToken s3, COMMENT,
          String.string_of_list_byte (opener ++ body ++ ["*"; "/"]%byte)) /\
    Inv s3 /\ pos s3 = len pre + len opener + len body + 2.
Proof.
  intros HI Hs Hst Hp Hne Hasc Hopen Hf.
  unfold commentBody.
  rewrite (literal_middle s pre opener (body ++ "*"%byte :: "/"%byte :: rest) Hs Hst Hp).
  simpl. rewrite Hne.
  destruct (closeBlock_closed fuel body s (pre ++ opener) rest)
    as (s3 & lit & E & El & HI3 & Hp3 & Hst3 & Hs3); try assumption.
  { rewrite Hs. list_eq. }
  { rewrite Hp, len_app. reflexivity. }
  rewrite (literal_middle s3 pre (opener ++ body ++ ["*"; "/"]%byte) rest) in El.
  - injection El as <-. exists s3. split; [assumption |]. split; [assumption |].
    rewrite Hp3, len_app. lia.
  - rewrite Hs3, Hs. list_eq.
  - congruence.
  - rewrite Hp3, !len_app. unfold len. simpl. lia.
Qed.

Lemma comment_closed fuel s pre body rest :
  Inv s ->
  src s = pre ++ ["/"; "*"]%byte ++ body ++ "*"%byte :: "/"%byte :: rest ->
  pos s = len pre -> start s = len pre ->
  Forall isAscii body -> unclosed body ->
  len body + 2 < Z.of_nat fuel ->
  exists s',
    comment fuel s
    = Ok (moveToken s', COMMENT,
          String.string_of_list_byte (["/"; "*"]%byte ++ body ++ ["*"; "/"]%byte)) /\
    Inv s' /\ pos s' = len pre + len body + 4.
Proof.
  intros HI Hs Hp Hst Hasc Hopen Hf.
  destruct (next_over s pre "/"%byte ("*"%byte :: body ++ "*"%byte :: "/"%byte :: rest))
    as (s1 & En1 & HI1 & Hs1 & Hp1 & Hst1 & _);
    [assumption | rewrite Hs; reflexivity | assumption | apply ascii_slash |].
  assert (Hsrc1 : src s1 = (pre ++ ["/"]%byte)
                             ++ "*"%byte :: body ++ "*"%byte :: "/"%byte :: rest).
  { rewrite Hs1, Hs. list_eq. }
  destruct (Inv_current_middle s1 _ _ _ HI1 Hsrc1 Hp1 ascii_star) as [Hc1 _].
  destruct (next_over s1 _ _ _ HI1 Hsrc1 Hp1 ascii_star)
    as (s2 & En2 & HI2 & Hs2 & Hp2 & Hst2 & _).
  assert (Hp2' : pos s2 = len pre + 2).
  { rewrite Hp2, !len_app. unfold len. simpl. lia. }
  unfold comment. rewrite En1. simpl. rewrite Hc1. simpl. rewrite En2. simpl.
  destruct body as [| y body''].
  - (* the degenerate comment *)
    assert (Hsrc2 : src s2 = ((pre ++ ["/"]%byte) ++ ["*"]%byte)
                               ++ "*"%byte :: "/"%byte :: rest).
    { rewrite Hs2, Hsrc1. list_eq. }
    destruct (Inv_current_middle s2 _ _ _ HI2 Hsrc2 Hp2 ascii_star) as [Hc2 _].
    destruct (next_over s2 _ _ _ HI2 Hsrc2 Hp2 ascii_star)
      as (s3 & En3 & HI3 & Hs3 & Hp3 & Hst3 & _).
    assert (Hsrc3 : src s3 = (((pre ++ ["/"]%byte) ++ ["*"]%byte) ++ ["*"]%byte)
                               ++ "/"%byte :: rest).
    { rewrite Hs3, Hsrc2. list_eq. }
    destruct (Inv_current_middle s3 _ _ _ HI3 Hsrc3 Hp3 ascii_slash) as [Hc3 _].
    destruct (next_over s3 _ _ _ HI3 Hsrc3 Hp3 ascii_slash)
      as (s4 & En4 & HI4 & Hs4 & Hp4 & Hst4 & _).
    rewrite Hc2. simpl. rewrite En3. simpl. rewrite Hc3. simpl. rewrite En4. simpl.
    rewrite (literal_middle s4 pre ["/"; "*"; "*"; "/"]%byte rest).
    + simpl. exists s4. split; [reflexivity |]. split; [assumption |].
      rewrite Hp4, !len_app. unfold len. simpl. lia.
    + rewrite Hs4, Hsrc3. list_eq.
    + congruence.
    + rewrite Hp4, !len_app. unfold len. simpl. lia.
  - inversion Hasc as [| ? ? Hy Hasc']; subst.
    assert (Hsrc2 : src s2 = ((pre ++ ["/"]%byte) ++ ["*"]%byte)
                               ++ y :: body'' ++ "*"%byte :: "/"%byte :: rest).
    { rewrite Hs2, Hsrc1. list_eq. }
    destruct (Inv_current_middle s2 _ _ _ HI2 Hsrc2 Hp2 Hy) as [Hc2 _].
    rewrite Hc2.
    destruct (byteZ y =? 42) eqn:E42.
    + (* an API comment *)
      assert (y = "*"%byte) by (apply byteZ_inj; apply Z.eqb_eq in E42; rewrite E42; reflexivity).
      subst y.
      destruct (next_over s2 _ _ _ HI2 Hsrc2 Hp2 ascii_star)
        as (s3 & En3 & HI3 & Hs3 & Hp3 & Hst3 & _).
      assert (Hsrc3 : src s3 = (((pre ++ ["/"]%byte) ++ ["*"]%byte) ++ ["*"]%byte)
                                 ++ body'' ++ "*"%byte :: "/"%byte :: rest).
      { rewrite Hs3, Hsrc2. list_eq. }
      rewrite En3. simpl.
      assert (Hn47 : (current s3 =? 47) = false).
      { destruct body'' as [| z body3].
        - destruct (Inv_current_middle s3 _ _ _ HI3 Hsrc3 Hp3 ascii_star) as [E _].
          rewrite E. reflexivity.
        - inversion Hasc' as [| ? ? Hz _]; subst.
          destruct (Inv_current_middle s3 _ z (body3 ++ "*"%byte :: "/"%byte :: rest)
                                       HI3 Hsrc3 Hp3 Hz) as [E _].
          pose proof (unclosed_after_star [] z body3 Hopen) as Hz'.
          assert (byteZ z <> 47)
            by (intros E'; apply Hz', byteZ_inj; rewrite E'; reflexivity).
          rewrite E. lia. }
      rewrite Hn47.
      destruct (commentBody_closed fuel s3 pre ["/"; "*"; "*"]%byte body'' rest)
        as (s' & E & HI' & Hp'); try assumption.
      * rewrite Hsrc3. list_eq.
      * congruence.
      * rewrite Hp3, !len_app. unfold len. simpl. lia.
      * reflexivity.
      * apply (unclosed_tail [] body'' Hopen).
      * unfold len in *. simpl in Hf. lia.
      * exists s'. split; [exact E |]. split; [assumption |].
        rewrite Hp'. unfold len. simpl. lia.
    + destruct (commentBody_closed fuel s2 pre ["/"; "*"]%byte (y :: body'') rest)
        as (s' & E & HI' & Hp'); try assumption.
      * rewrite Hsrc2. list_eq.
      * congruence.
      * reflexivity.
      * exists s'. split; [exact E |]. split; [assumption |].
        rewrite Hp'. unfold len. simpl. lia.
Qed.

Lemma multiline_literal (l : list byte) :
  String.prefix "/*" (String.string_of_list_byte ("/"%byte :: "*"%byte :: l)) = true /\
  String.prefix "//" (String.string_of_list_byte ("/"%byte :: "*"%byte :: l)) = false.
Proof.
  change (String.string_of_list_byte ("/"%byte :: "*"%byte :: l))
    with (String.String (Ascii.ascii_of_byte "/"%byte)
            (String.String (Ascii.ascii_of_byte "*"%byte)
               (String.string_of_list_byte l))).
  rewrite !prefix_two.
  repeat match goal with
         | |- context [Ascii.ascii_dec ?x ?y] =>
             let E := fresh "E" in
             destruct (Ascii.ascii_dec x y) as [E | E];
             [try (vm_compute in E; discriminate E)
             | try (exfalso; apply E; reflexivity)]
         end; try (split; reflexivity).
Qed.

(** [Scan] from a state that stands on the opener of a block comment
    that is closed. *)
Lemma block_comment_at_cursor
        (L : Z -> bool) (fuel : nat) (s : Scanner) (pre body rest : list byte) :
  Inv s ->
  src s = pre ++ ["/"; "*"]%byte ++ body ++ "*"%byte :: "/"%byte :: rest ->
  pos s = len pre ->
  Forall isAscii body ->
  unclosed body ->
  len body + 2 < Z.of_nat fuel ->
  exists s' lit,
    Scan L fuel s
    = Ok (s', (mkPosition (filename s) (line s) (col s), COMMENT, lit)) /\
    lit = String.string_of_list_byte (["/"; "*"]%byte ++ body ++ ["*"; "/"]%byte) /\
    Inv s' /\ pos s' = len pre + len body + 4 /\
    forall st en,
      description.IsMultiline (description.mkComment st en lit) = true /\
      description.IsEOL (description.mkComment st en lit) = false.
Proof.
  intros HI Hs Hp Hasc Hopen Hf.
  destruct (Inv_current_middle s pre "/"%byte
              ("*"%byte :: body ++ "*"%byte :: "/"%byte :: rest))
    as [Hc _]; [assumption | rewrite Hs; reflexivity | assumption | apply ascii_slash |].
  pose proof (len_nonneg body).
  rewrite Scan_at_slash; [| lia | exact Hc].
  destruct (comment_closed fuel (moveToken s) pre body rest)
    as (s' & E & HI' & Hp'); try assumption.
  { apply moveToken_Inv; assumption. }
  rewrite E. simpl. eexists. eexists. split; [reflexivity |].
  split; [reflexivity |].
  split; [apply moveToken_Inv; assumption |].
  split; [exact Hp' |].
  intros st en.
  unfold description.IsMultiline, description.IsEOL. simpl description.lit.
  apply multiline_literal.
Qed.

Lemma comment_line_end fuel s pre body :
  Inv s ->
  src s = pre ++ ["/"; "/"]%byte ++ body ->
  pos s = len pre -> start s = len pre ->
  Forall isAscii body ->
  Forall (fun b => b <> x0a /\ b <> x0d) body ->
  len body < Z.of_nat fuel ->
  exists s', comment fuel s
             = Ok (moveToken s', COMMENT,
                   String.string_of_list_byte (["/"; "/"]%byte ++ body)) /\
             Inv s' /\ current s' = eof /\ filename s' = filename s.
Proof.
  intros HI Hs Hp Hst Hasc Hnl Hf.
  destruct (next_over s pre "/"%byte (["/"]%byte ++ body))
    as (s1 & En1 & HI1 & Hs1 & Hp1 & Hst1 & Hf1);
    [assumption | rewrite Hs; reflexivity | assumption | apply ascii_slash |].
  assert (Hsrc1 : src s1 = (pre ++ ["/"]%byte) ++ "/"%byte :: body).
  { rewrite Hs1, Hs. list_eq. }
  destruct (Inv_current_middle s1 _ _ _ HI1 Hsrc1 Hp1 ascii_slash) as [Hc1 _].
  destruct (next_over s1 _ _ _ HI1 Hsrc1 Hp1 ascii_slash)
    as (s2 & En2 & HI2 & Hs2 & Hp2 & Hst2 & Hf2).
  assert (Hsrc2 : src s2 = (pre ++ ["/"; "/"]%byte) ++ body).
  { rewrite Hs2, Hs1, Hs. list_eq. }
  assert (Hp2' : pos s2 = len (pre ++ ["/"; "/"]%byte)).
  { rewrite Hp2, !len_app. unfold len. simpl. lia. }
  destruct (while_run_end (fun r => negb (r =? eof) && negb (r =? 10) && negb (r =? 13))
                          body fuel s2 _ HI2 Hsrc2 Hp2')
    as (s3 & Ew & HI3 & Hp3 & Hc3); [| reflexivity | assumption |].
  { rewrite Forall_forall in *. intros x Hx. split; [auto |].
    destruct (Hnl x Hx) as [N1 N2]. pose proof (byteZ_range x).
    assert (byteZ x <> 10) by (intros E; apply N1, byteZ_inj; rewrite E; reflexivity).
    assert (byteZ x <> 13) by (intros E; apply N2, byteZ_inj; rewrite E; reflexivity).
    unfold eof. repeat (apply andb_true_intro; split); apply negb_true_iff; lia. }
  destruct (while_fields _ _ _ _ Ew) as (Hst3 & Hs3 & Hf3).
  destruct (Inv_eof s3 HI3 Hc3) as [Hend3 Hw3].
  destruct (next_spec s3 (Inv_Pre s3 HI3)) as (s4 & En4 & HI4 & HA4 & Hp4 & Hst4).
  destruct HA4 as (Hs4 & Hf4 & _).
  assert (Hc4 : current s4 = eof).
  { apply Inv_at_end; [assumption |]. rewrite Hp4, Hw3, Hs4. lia. }
  exists s4. split; [| split; [assumption | split; [assumption | congruence]]].
  unfold comment. rewrite En1. simpl. rewrite Hc1. simpl. rewrite En2. simpl.
  unfold commentBody.
  rewrite (literal_middle s2 pre ["/"; "/"]%byte body);
    [| rewrite Hs2, Hs1, Hs; reflexivity | congruence
     | rewrite Hp2, !len_app; unfold len; simpl; lia].
  simpl. rewrite Ew. simpl. rewrite En4. simpl.
  rewrite (literal_middle s4 pre (["/"; "/"]%byte ++ body) []);
    [reflexivity | | congruence |].
  - rewrite Hs4, Hs3, Hs2, Hs1, Hs. list_eq.
  - rewrite Hp4, Hw3, Hp3, !len_app. lia.
Qed.

Lemma eol_literal (l : list byte) :
  String.prefix "//" (String.string_of_list_byte ("/"%byte :: "/"%byte :: l)) = true /\
  String.prefix "/*" (String.string_of_list_byte ("/"%byte :: "/"%byte :: l)) = false.
Proof.
  change (String.string_of_list_byte ("/"%byte :: "/"%byte :: l))
    with (String.String (Ascii.ascii_of_byte "/"%byte)
            (String.String (Ascii.ascii_of_byte "/"%byte)
               (String.string_of_list_byte l))).
  rewrite !prefix_two.
  repeat match goal with
         | |- context [Ascii.ascii_dec ?x ?y] =>
             let E := fresh "E" in
             destruct (Ascii.ascii_dec x y) as [E | E];
             [try (vm_compute in E; discriminate E)
             | try (exfalso; apply E; reflexivity)]
         end; try (split; reflexivity).
Qed.

(** [Scan] from a state that stands on the [//] of a line comment that
    runs to the end of the buffer. *)
Lemma line_comment_to_end_at_cursor
        (L : Z -> bool) (fuel : nat) (s : Scanner) (pre body : list byte) :
  Inv s ->
  src s = pre ++ ["/"; "/"]%byte ++ body ->
  pos s = len pre ->
  Forall isAscii body ->
  Forall (fun b => b <> x0a /\ b <> x0d) body ->
  len body < Z.of_nat fuel ->
  exists s' lit,
    Scan L fuel s
    = Ok (s', (mkPosition (filename s) (line s) (col s), COMMENT, lit)) /\
    lit = String.string_of_list_byte (["/"; "/"]%byte ++ body) /\
    (forall st en,
       description.IsEOL (description.mkComment st en lit) = true /\
       description.IsMultiline (description.mkComment st en lit) = false) /\
    forall n, exists s'',
      ScanN L fuel n s'
      = Ok (s'', repeat (mkPosition (filename s) (line s') (col s'), EOF, ""%string) n).
Proof.
  intros HI Hs Hp Hasc Hnl Hf.
  destruct (Inv_current_middle s pre "/"%byte ("/"%byte :: body))
    as [Hc _]; [assumption | rewrite Hs; reflexivity | assumption | apply ascii_slash |].
  pose proof (len_nonneg body).
  rewrite Scan_at_slash; [| lia | exact Hc].
  destruct (comment_line_end fuel (moveToken s) pre body)
    as (s' & E & HI' & Hc' & Hf'); try assumption.
  { apply moveToken_Inv; assumption. }
  rewrite E. simpl. eexists. eexists. split; [reflexivity |].
  split; [reflexivity |]. split.
  - intros st en. unfold description.IsMultiline, description.IsEOL.
    simpl description.lit. apply eol_literal.
  - intros n. simpl in Hf'. rewrite <- Hf'.
    apply (ScanN_from_eof L fuel n (moveToken s')); [lia | exact Hc'].
Qed.

(** ** White space and positions *)

Lemma space_ascii x : isSpace (byteZ x) = true -> isAscii x.
Proof. unfold isSpace, isAscii. lia. Qed.

(** X16. When nothing but white space (blank, tab, carriage return,
    line feed) is left in the buffer, [Scan] consumes it all and returns
    [EOF] with an empty literal, placed at the end of the buffer. *)
Theorem X16_white_space_then_EOF
        (L : Z -> bool) (fuel : nat) (s : Scanner) (pre ws : list byte) :
  Inv s ->
  src s = pre ++ ws ->
  pos s = len pre ->
  Forall (fun x => isSpace (byteZ x) = true) ws ->
  len ws < Z.of_nat fuel ->
  exists s',
    Scan L fuel s
    = Ok (s', (mkPosition (filename s) (line s') (col s'), EOF, ""%string)) /\
    Inv s' /\ pos s' = len (src s) /\ current s' = eof.
Proof.
  intros HI Hs Hp Hws Hf.
  destruct (while_run_end isSpace ws fuel s pre HI Hs Hp) as (s1 & Ew & HI1 & Hp1 & Hc1);
    [| reflexivity | assumption |].
  { rewrite Forall_forall in *. intros x Hx. split; [apply space_ascii |]; auto. }
  destruct (while_fields _ _ _ _ Ew) as (_ & Hs1 & Hf1).
  exists (moveToken s1).
  unfold Scan, skipSpace. rewrite Ew. simpl. rewrite Hc1, Hf1. simpl.
  split; [reflexivity |]. split; [apply moveToken_Inv; assumption |].
  split; [| reflexivity].
  rewrite Hp1, Hs, len_app. reflexivity.
Qed.

Lemma X16_white_space_then_EOF_witness :
  exists s',
    Scan greek 3 (mkScanner "f" [x20; x0a]%byte 32 1 0 0 0 0 0 0 [])
    = Ok (s', (mkPosition "f" (line s') (col s'), EOF, ""%string)) /\
    Inv s' /\ pos s' = 2 /\ current s' = eof.
Proof.
  apply (X16_white_space_then_EOF greek 3
           (mkScanner "f" [x20; x0a]%byte 32 1 0 0 0 0 0 0 [])
           [] [x20; x0a]%byte).
  - unfold Inv. vm_compute. repeat split; congruence.
  - reflexivity.
  - reflexivity.
  - repeat constructor.
  - vm_compute. reflexivity.
Defined.

Lemma advancePlace_snoc p l b :
  advancePlace p (l ++ [b])
  = (if byteZ b =? 10 then (fst (advancePlace p l) + 1, 0)
     else (fst (advancePlace p l), snd (advancePlace p l) + 1)).
Proof. unfold advancePlace. rewrite fold_left_app. reflexivity. Qed.

Lemma next_placed s s' :
  Forall isAscii (src s) -> Inv s -> next s = Ok s' -> placed s -> placed s'.
Proof.
  intros Hasc HI En [Hpl Htk].
  pose proof (next_fields _ _ En) as (Hp & Hl & Hc & Hst & Hs & _).
  assert (Htok : tokLine s' = tokLine s /\ tokCol s' = tokCol s).
  { rewrite (next_eq s (Inv_Pre s HI)) in En. injection En as <-. auto. }
  destruct Htok as [Ht1 Ht2].
  unfold placed, place in *. rewrite Hs, Hst, Ht1, Ht2.
  split; [| assumption].
  pose proof HI as (H0 & H1 & H2 & _).
  destruct (Z.eq_dec (current s) eof) as [He | Hne].
  - destruct (Inv_eof s HI He) as [_ Hw].
    rewrite Hl, Hc, Hp, He, Hw. simpl.
    rewrite !Z.add_0_r. exact Hpl.
  - destruct (Inv_not_eof s HI Hne) as [Hlt _].
    destruct (lookup_lt_is_Some_2 (src s) (Z.to_nat (pos s))) as [b Hb];
      [unfold len in Hlt; lia |].
    assert (Hba : isAscii b).
    { rewrite Forall_forall in Hasc. apply Hasc.
      apply list_elem_of_lookup. eauto. }
    destruct (Inv_current_at s b HI Hb Hba) as [Hcb Hw].
    rewrite Hp, Hw.
    replace (Z.to_nat (pos s + 1)) with (S (Z.to_nat (pos s))) by lia.
    rewrite (take_S_r _ _ _ Hb), advancePlace_snoc, <- Hpl, Hl, Hc, Hcb, Hw.
    simpl. destruct (byteZ b =? 10); reflexivity.
Qed.

Lemma Steps_placed s s' :
  Steps s s' -> Forall isAscii (src s) -> Inv s -> placed s -> placed s'.
Proof.
  induction 1 as [s | s s1 s2 En _ IH | s s2 _ IH]; intros Hasc HI Hpl.
  - assumption.
  - destruct (next_spec s (Inv_Pre s HI)) as (s1' & En' & HI1 & HA & _).
    rewrite En in En'. injection En' as <-.
    destruct HA as (Hs & _).
    apply IH; [rewrite Hs; assumption | assumption |].
    eapply next_placed; eassumption.
  - apply IH; [assumption | apply moveToken_Inv; assumption |].
    destruct Hpl as [Hpl _]. split; [exact Hpl | exact Hpl].
Qed.

Lemma while_exit fuel cond : forall s s',
  while fuel cond s = Ok s' -> cond (current s') = false.
Proof.
  induction fuel as [| fuel IH]; intros s s' H; [discriminate |].
  unfold while in H; fold while in H.
  destruct (cond (current s)) eqn:E.
  - destruct (next s) as [s1 | |]; simpl in H; try discriminate. eauto.
  - injection H as <-. assumption.
Qed.

(** The bytes a loop has passed satisfied its condition. *)
Lemma while_skipped fuel cond : forall s s',
  Forall isAscii (src s) -> Inv s -> while fuel cond s = Ok s' ->
  forall (i : nat) b, pos s <= Z.of_nat i < pos s' -> src s !! i = Some b ->
                      cond (byteZ b) = true.
Proof.
  induction fuel as [| fuel IH]; intros s s' Hasc HI H i b Hi Hb; [discriminate |].
  unfold while in H; fold while in H.
  destruct (cond (current s)) eqn:E.
  - destruct (next_spec s (Inv_Pre s HI)) as (s1 & En & HI1 & HA & Hp1 & _).
    rewrite En in H. simpl in H. destruct HA as (Hs1 & _).
    destruct (Z.eq_dec (current s) eof) as [He | Hne].
    + destruct (Inv_eof s HI He) as [_ Hw].
      refine (IH s1 s' _ HI1 H i b _ _); rewrite ?Hs1; try assumption. lia.
    + destruct (Inv_not_eof s HI Hne) as [Hlt _].
      pose proof HI as (H0 & H1 & _).
      destruct (lookup_lt_is_Some_2 (src s) (Z.to_nat (pos s))) as [b0 Hb0];
        [unfold len in Hlt; lia |].
      assert (Hba : isAscii b0).
      { rewrite Forall_forall in Hasc. apply Hasc.
        apply list_elem_of_lookup. eauto. }
      destruct (Inv_current_at s b0 HI Hb0 Hba) as [Hcb Hw].
      destruct (Z.eq_dec (Z.of_nat i) (pos s)) as [Ei | Ni].
      * replace (Z.to_nat (pos s)) with i in Hb0 by lia.
        assert (b = b0) by congruence. subst b0. rewrite <- Hcb. assumption.
      * refine (IH s1 s' _ HI1 H i b _ _); rewrite ?Hs1; try assumption. lia.
  - injection H as <-. lia.
Qed.

Lemma New_placed file input s0 :
  New file input = Ok s0 -> Inv s0 /\ src s0 = input /\ pos s0 = 0 /\ placed s0.
Proof.
  unfold New. intros H.
  rewrite next_eq in H by (unfold Pre; simpl; pose proof (len_nonneg input); lia).
  injection H as <-.
  destruct (New_Inv file input) as (s0 & E & HI & _).
  unfold New in E.
  rewrite next_eq in E by (unfold Pre; simpl; pose proof (len_nonneg input); lia).
  injection E as <-.
  split; [assumption |]. split; [reflexivity |]. split; [reflexivity |].
  unfold placed, place. simpl. split; reflexivity.
Qed.

(** X17. On ASCII input the position of a token is the place of its
    first byte: [Scan] passes white space only, up to the first byte that
    is none (or to the end of the buffer), and the zero-based line and
    column it returns are the number of line feeds before that byte and
    the number of bytes after the last of them. *)
Theorem X17_position_of_a_token
        (L : Z -> bool) (file : string) (input : list byte) (fuel n : nat)
        (s0 s s' : Scanner) ts p tok lit :
  Forall isAscii input ->
  New file input = Ok s0 ->
  ScanN L fuel n s0 = Ok (s, ts) ->
  Scan L fuel s = Ok (s', (p, tok, lit)) ->
  exists k : nat,
    pos s <= Z.of_nat k /\ Z.of_nat k <= pos s' /\
    (forall (i : nat) b, pos s <= Z.of_nat i < Z.of_nat k -> input !! i = Some b ->
                         isSpace (byteZ b) = true) /\
    (forall b, input !! k = Some b -> isSpace (byteZ b) = false) /\
    rawPlace p = advancePlace (0, 0) (take k input).
Proof.
  intros Hasc HN HS H.
  destruct (New_placed _ _ _ HN) as (HI0 & Hsrc0 & _ & Hpl0).
  apply ScanN_Steps in HS.
  destruct (Steps_keeps _ _ HS) as (Hsrc & _).
  destruct (Steps_Inv _ _ HS HI0) as [HI _].
  assert (Hpl : placed s) by (apply (Steps_placed _ _ HS); congruence).
  assert (Hin : src s = input) by congruence.
  apply Scan_shape in H as (s1 & Es & -> & HS1 & _).
  unfold skipSpace in Es.
  destruct (while fuel isSpace s) as [sw | |] eqn:Ew; simpl in Es; try discriminate.
  injection Es as <-.
  pose proof (while_Steps _ _ _ _ Ew) as HSw.
  destruct (Steps_Inv _ _ HSw HI) as [HIw Hpw].
  destruct (Steps_keeps _ _ HSw) as (Hsw & _).
  assert (Hplw : placed sw) by (apply (Steps_placed _ _ HSw); congruence).
  destruct (Steps_Inv _ _ HS1 (moveToken_Inv _ HIw)) as [_ Hp'].
  pose proof HIw as (H0 & H1 & _).
  exists (Z.to_nat (pos sw)). simpl in Hp'.
  split; [lia |]. split; [lia |]. split; [| split].
  - intros i b Hi Hb.
    assert (Hasc_s : Forall isAscii (src s)) by congruence.
    apply (while_skipped _ _ _ _ Hasc_s HI Ew i b); [lia | congruence].
  - intros b Hb.
    assert (Hba : isAscii b).
    { rewrite Forall_forall in Hasc. apply Hasc.
      apply list_elem_of_lookup. eauto. }
    destruct (Inv_current_at sw b HIw) as [Hcb _]; [congruence | assumption |].
    rewrite <- Hcb. eapply while_exit; eassumption.
  - destruct Hplw as [Hplw _]. unfold rawPlace. simpl.
    unfold place in Hplw. rewrite Hplw. congruence.
Qed.

Lemma X17_position_of_a_token_witness :
  exists k : nat,
    0 <= Z.of_nat k /\ Z.of_nat k <= 3 /\
    (forall (i : nat) b, 0 <= Z.of_nat i < Z.of_nat k ->
                         [x0a; x20; x3b]%byte !! i = Some b ->
                         isSpace (byteZ b) = true) /\
    (forall b, [x0a; x20; x3b]%byte !! k = Some b -> isSpace (byteZ b) = false) /\
    rawPlace (mkPosition "f" 1 1) = advancePlace (0, 0) (take k [x0a; x20; x3b]%byte).
Proof.
  apply (X17_position_of_a_token greek "f" [x0a; x20; x3b]%byte 4 0
           (mkScanner "f" [x0a; x20; x3b]%byte 10 1 0 0 0 0 0 0 [])
           (mkScanner "f" [x0a; x20; x3b]%byte 10 1 0 0 0 0 0 0 [])
           (mkScanner "f" [x0a; x20; x3b]%byte eof 0 3 1 2 3 1 2 [])
           [] (mkPosition "f" 1 1) SEMICOLON ";"%string).
  - repeat constructor.
  - vm_compute. reflexivity.
  - reflexivity.
  - vm_compute. reflexivity.
Defined.

(** ** ASCII input records no error *)

Lemma next_no_error s s' :
  Forall isAscii (src s) -> Pre s -> next s = Ok s' -> errs s' = errs s.
Proof.
  intros Hasc HP En. rewrite (next_eq s HP) in En. injection En as <-.
  simpl. unfold errsAfter.
  destruct (pos s + w s <? len (src s)) eqn:E; [| reflexivity].
  destruct HP as (H0 & H1 & H2 & _).
  unfold utf8.at_.
  destruct (src s !! Z.to_nat (pos s + w s)) as [b |] eqn:Eb.
  - assert (Hb : isAscii b).
    { rewrite Forall_forall in Hasc. apply Hasc.
      apply list_elem_of_lookup. eauto. }
    unfold isAscii in Hb.
    destruct (byteZ b >=? utf8.RuneSelf) eqn:E1; [unfold utf8.RuneSelf in E1; lia |].
    reflexivity.
  - reflexivity.
Qed.

Lemma Steps_no_error s s' :
  Steps s s' -> Forall isAscii (src s) -> Inv s -> errs s' = errs s.
Proof.
  induction 1 as [s | s s1 s2 En _ IH | s s2 _ IH]; intros Hasc HI.
  - reflexivity.
  - destruct (next_spec s (Inv_Pre s HI)) as (s1' & En' & HI1 & HA & _).
    rewrite En in En'. injection En' as <-. destruct HA as (Hs & _).
    rewrite IH; [| rewrite Hs; assumption | assumption].
    apply next_no_error; [assumption | apply Inv_Pre; assumption | assumption].
  - rewrite IH; [reflexivity | assumption | apply moveToken_Inv; assumption].
Qed.

(** X18. On ASCII input the scanner records no encoding error: after
    [New] and any number of [Scan] calls the error list is empty. *)
Theorem X18_ASCII_input_has_no_error
        (L : Z -> bool) (file : string) (input : list byte) (fuel n : nat)
        (s0 s : Scanner) ts :
  Forall isAscii input ->
  New file input = Ok s0 ->
  ScanN L fuel n s0 = Ok (s, ts) ->
  errs s = [].
Proof.
  intros Hasc HN HS.
  destruct (New_placed _ _ _ HN) as (HI0 & Hsrc0 & _).
  apply ScanN_Steps in HS.
  rewrite (Steps_no_error _ _ HS); [| congruence | assumption].
  unfold New in HN.
  apply next_no_error in HN; [assumption | assumption |].
  unfold Pre. simpl. pose proof (len_nonneg input). lia.
Qed.

Lemma X18_ASCII_input_has_no_error_witness :
  errs (mkScanner "f" (bytes "a b") 32 1 1 0 1 1 0 1 []) = [].
Proof.
  apply (X18_ASCII_input_has_no_error greek "f" (bytes "a b") 4 1
           (mkScanner "f" (bytes "a b") 97 1 0 0 0 0 0 0 [])
           (mkScanner "f" (bytes "a b") 32 1 1 0 1 1 0 1 [])
           [(mkPosition "f" 0 0, IDENT, "a"%string)]).
  - repeat constructor.
  - vm_compute. reflexivity.
  - vm_compute. reflexivity.
Defined.

(** ** The literal is what the call consumed *)


Lemma closeBlock_literal fuel : forall s s' tok lit,
  closeBlock fuel s = Ok (s', tok, lit) -> literalAt s s' lit.
Proof.
  induction fuel as [| fuel IH]; intros s s' tok lit H; [discriminate |].
  rewrite closeBlock_S in H.
  destruct (while (S fuel) _ s) as [s1 | |] eqn:Ew; simpl in H; try discriminate.
  destruct (while_fields _ _ _ _ Ew) as (A1 & B1 & _).
  destruct (current s1 =? eof).
  - destruct (literal s1) as [l | |] eqn:El; simpl in H; try discriminate.
    injection H as <- <- <-. exists s1. auto.
  - destruct (next s1) as [s2 | |] eqn:En; simpl in H; try discriminate.
    pose proof (next_fields _ _ En) as (_ & _ & _ & A2 & B2 & _).
    destruct (current s2 =? 47).
    + destruct (next s2) as [s3 | |] eqn:En3; simpl in H; try discriminate.
      pose proof (next_fields _ _ En3) as (_ & _ & _ & A3 & B3 & _).
      destruct (literal s3) as [l | |] eqn:El; simpl in H; try discriminate.
      injection H as <- <- <-. exists s3.
      repeat split; [assumption | congruence | congruence].
    + apply IH in H as (s3 & El & A3 & B3 & C3).
      exists s3. repeat split; [assumption | congruence | congruence | assumption].
Qed.

Lemma commentBody_literal fuel s s' tok lit :
  commentBody fuel s = Ok (s', tok, lit) -> literalAt s s' lit.
Proof.
  unfold commentBody. intros H.
  destruct (literal s) as [l0 | |]; simpl in H; try discriminate.
  destruct (String.eqb l0 "//").
  - destruct (while fuel _ s) as [s1 | |] eqn:Ew; simpl in H; try discriminate.
    destruct (while_fields _ _ _ _ Ew) as (A1 & B1 & _).
    destruct (next s1) as [s2 | |] eqn:En; simpl in H; try discriminate.
    pose proof (next_fields _ _ En) as (_ & _ & _ & A2 & B2 & _).
    destruct (literal s2) as [l | |] eqn:El; simpl in H; try discriminate.
    injection H as <- <- <-. exists s2.
    repeat split; [assumption | congruence | congruence].
  - eapply closeBlock_literal; eassumption.
Qed.

Lemma literalAt_from s0 s s' lit :
  start s = start s0 -> src s = src s0 -> literalAt s s' lit -> literalAt s0 s' lit.
Proof.
  intros A B (s3 & El & A3 & B3 & C3). exists s3.
  repeat split; [assumption | congruence | congruence | assumption].
Qed.

Lemma comment_literal fuel s s' tok lit :
  comment fuel s = Ok (s', tok, lit) -> literalAt s s' lit.
Proof.
  unfold comment. intros H.
  destruct (next s) as [s1 | |] eqn:En1; simpl in H; try discriminate.
  pose proof (next_fields _ _ En1) as (_ & _ & _ & A1 & B1 & _).
  destruct (current s1 =? 47).
  { destruct (next s1) as [s2 | |] eqn:En2; simpl in H; try discriminate.
    pose proof (next_fields _ _ En2) as (_ & _ & _ & A2 & B2 & _).
    apply commentBody_literal in H.
    eapply literalAt_from; [| | eassumption]; congruence. }
  destruct (current s1 =? 42).
  { destruct (next s1) as [s2 | |] eqn:En2; simpl in H; try discriminate.
    pose proof (next_fields _ _ En2) as (_ & _ & _ & A2 & B2 & _).
    destruct (current s2 =? 42).
    - destruct (next s2) as [s3 | |] eqn:En3; simpl in H; try discriminate.
      pose proof (next_fields _ _ En3) as (_ & _ & _ & A3 & B3 & _).
      destruct (current s3 =? 47).
      + destruct (next s3) as [s4 | |] eqn:En4; simpl in H; try discriminate.
        pose proof (next_fields _ _ En4) as (_ & _ & _ & A4 & B4 & _).
        destruct (literal s4) as [l | |] eqn:El; simpl in H; try discriminate.
        injection H as <- <- <-. exists s4.
        repeat split; [assumption | congruence | congruence].
      + apply commentBody_literal in H.
        eapply literalAt_from; [| | eassumption]; congruence.
    - apply commentBody_literal in H.
      eapply literalAt_from; [| | eassumption]; congruence. }
  destruct (literal s1) as [l | |] eqn:El; simpl in H; try discriminate.
  injection H as <- <- <-. exists s1.
  repeat split; [assumption | congruence | congruence].
Qed.

(** Where the literal of a token comes from: nothing for [EOF], the
    fixed strings of the two ['.'] cases, and [literal] in all others. *)
Lemma Scan_literal L fuel s s' p tok lit :
  Scan L fuel s = Ok (s', (p, tok, lit)) ->
  exists sw,
    while fuel isSpace s = Ok sw /\
    ((lit = ""%string /\ pos s' = pos sw) \/
     literalAt (moveToken sw) s' lit \/
     (current sw = 46 /\
      exists s1, next (moveToken sw) = Ok s1 /\
                 ((lit = "."%string /\ s' = s1) \/
                  (lit = ".."%string /\ current s1 = 46 /\ next s1 = Ok s')))).
Proof.
  unfold Scan, skipSpace. intros H.
  destruct (while fuel isSpace s) as [sw | |] eqn:Ew; simpl in H; try discriminate.
  exists sw. split; [reflexivity |].
  destruct (current sw =? eof).
  { injection H as <- _ _ <-. left. auto. }
  destruct (isDigit (current sw)).
  { destruct (while fuel isDigit (moveToken sw)) as [s1 | |] eqn:E1; simpl in H;
      try discriminate.
    destruct (while_fields _ _ _ _ E1) as (A & B & _).
    destruct (literal s1) as [l | |] eqn:El; simpl in H; try discriminate.
    injection H as <- _ _ <-. right; left. exists s1. auto. }
  destruct (unicode.IsLetter L (current sw)).
  { destruct (while fuel (isAlphanumeric L) (moveToken sw)) as [s1 | |] eqn:E1;
      simpl in H; try discriminate.
    destruct (while_fields _ _ _ _ E1) as (A & B & _).
    destruct (literal s1) as [l | |] eqn:El; simpl in H; try discriminate.
    injection H as <- _ _ <-. right; left. exists s1. auto. }
  destruct (current sw =? 46) eqn:E46.
  { right; right. split; [lia |].
    destruct (next (moveToken sw)) as [s1 | |] eqn:En; simpl in H; try discriminate.
    exists s1. split; [reflexivity |].
    destruct (current s1 =? 46) eqn:E1.
    - destruct (next s1) as [s2 | |] eqn:En2; simpl in H; try discriminate.
      injection H as <- _ _ <-. right. repeat split. lia.
    - injection H as <- _ _ <-. left. auto. }
  destruct (startComment (current sw)).
  { destruct (comment fuel (moveToken sw)) as [[[s1 tok'] lit'] | |] eqn:Ec;
      simpl in H; try discriminate.
    injection H as <- _ _ <-. right; left.
    eapply comment_literal; eassumption. }
  destruct (next (moveToken sw)) as [s1 | |] eqn:En; simpl in H; try discriminate.
  pose proof (next_fields _ _ En) as (_ & _ & _ & A & B & _).
  destruct (literal s1) as [l | |] eqn:El; simpl in H; try discriminate.
  injection H as <- _ _ <-. right; left. exists s1. auto.
Qed.

Lemma slice_split (l : list byte) (a k b : Z) :
  0 <= a -> a <= k -> k <= b -> b <= len l ->
  slice l a b = Ok (take (Z.to_nat (k - a)) (drop (Z.to_nat a) l)
                    ++ take (Z.to_nat (b - k)) (drop (Z.to_nat k) l)).
Proof.
  intros H0 H1 H2 H3. rewrite slice_Ok by lia. f_equal.
  replace (Z.to_nat (b - a)) with (Z.to_nat (k - a) + Z.to_nat (b - k))%nat by lia.
  rewrite <- take_take_drop, drop_drop.
  replace (Z.to_nat a + Z.to_nat (k - a))%nat with (Z.to_nat k) by lia.
  reflexivity.
Qed.

Lemma take_one_drop (l : list byte) (k : nat) x :
  l !! k = Some x -> take 1 (drop k l) = [x].
Proof.
  intros H. rewrite (drop_S _ _ _ H). reflexivity.
Qed.

Lemma take_two_drop (l : list byte) (k : nat) x y :
  l !! k = Some x -> l !! S k = Some y -> take 2 (drop k l) = [x; y].
Proof.
  intros H1 H2. rewrite (drop_S _ _ _ H1), (drop_S _ _ _ H2). reflexivity.
Qed.

(** X19. On ASCII input, the bytes a call of [Scan] consumes are white
    space followed by exactly the literal of the token it returns: no
    byte of the input is dropped or invented, for legal and illegal
    tokens alike, and [EOF] consumes white space only. *)
Theorem X19_literal_is_what_was_consumed
        (L : Z -> bool) (file : string) (input : list byte) (fuel n : nat)
        (s0 s s' : Scanner) ts p tok lit :
  Forall isAscii input ->
  New file input = Ok s0 ->
  ScanN L fuel n s0 = Ok (s, ts) ->
  Scan L fuel s = Ok (s', (p, tok, lit)) ->
  exists ws bs,
    slice input (pos s) (pos s') = Ok (ws ++ bs) /\
    Forall (fun b => isSpace (byteZ b) = true) ws /\
    lit = String.string_of_list_byte bs.
Proof.
  intros Hasc HN HS H.
  destruct (New_placed _ _ _ HN) as (HI0 & Hsrc0 & _).
  apply ScanN_Steps in HS.
  destruct (Steps_keeps _ _ HS) as (Hsrc & _).
  destruct (Steps_Inv _ _ HS HI0) as [HI _].
  assert (Hin : src s = input) by congruence.
  assert (Hasc_s : Forall isAscii (src s)) by congruence.
  pose proof (Scan_Steps _ _ _ _ _ H) as HSs.
  destruct (Steps_Inv _ _ HSs HI) as [HI' _].
  destruct (Steps_keeps _ _ HSs) as (Hsrc' & _).
  destruct (Scan_shape _ _ _ _ _ _ _ H) as (s1 & Es & _ & HS1 & _).
  apply Scan_literal in H as (sw & Ew & Hcases).
  unfold skipSpace in Es. rewrite Ew in Es. simpl in Es. injection Es as <-.
  pose proof (while_Steps _ _ _ _ Ew) as HSw.
  destruct (Steps_Inv _ _ HSw HI) as [HIw Hpw].
  destruct (Steps_keeps _ _ HSw) as (Hsw & _).
  destruct (Steps_Inv _ _ HS1 (moveToken_Inv _ HIw)) as [_ Hp']. simpl in Hp'.
  pose proof HI as (_ & Hs01 & _). pose proof HI as (Hs00 & _).
  pose proof HI' as (_ & _ & Hlen' & _).
  assert (Hin' : src s' = input) by congruence.
  rewrite Hin' in Hlen'.
  assert (Hps : 0 <= pos s) by lia.
  exists (take (Z.to_nat (pos sw - pos s)) (drop (Z.to_nat (pos s)) input)),
         (take (Z.to_nat (pos s' - pos sw)) (drop (Z.to_nat (pos sw)) input)).
  split; [apply slice_split; lia |]. split.
  - apply Forall_lookup. intros i b Hb.
    apply lookup_take_Some in Hb as [Hb Hi]. rewrite lookup_drop in Hb.
    apply (while_skipped _ _ _ _ Hasc_s HI Ew (Z.to_nat (pos s) + i) b);
      [lia | congruence].
  - destruct Hcases as [[-> Hp0] | [(s3 & El & A & B & C) | (Hc & s2 & En & Hd)]].
    + rewrite Hp0. replace (Z.to_nat (pos sw - pos sw)) with 0%nat by lia.
      reflexivity.
    + simpl in A, B. unfold literal in El.
      rewrite B, Hsw, Hin, A, C in El.
      rewrite slice_Ok in El by lia. simpl in El. injection El as <-. reflexivity.
    + assert (Hne : current sw <> eof) by (rewrite Hc; discriminate).
      destruct (Inv_byte sw HIw Hne) as (b & Hb & Hcb & Hw).
      { intros i b Hi Hl. rewrite Forall_forall in Hasc. apply Hasc.
        apply list_elem_of_lookup. exists i. congruence. }
      assert (b = "."%byte) by (apply byteZ_inj; rewrite <- Hcb, Hc; reflexivity).
      subst b. rewrite Hsw, Hin in Hb.
      destruct (next_spec (moveToken sw) (Inv_Pre _ (moveToken_Inv _ HIw)))
        as (s2' & En' & HI2 & HA2 & Hp2 & _).
      rewrite En in En'. injection En' as <-. simpl in Hp2. rewrite Hw in Hp2.
      destruct HA2 as (Hs2 & _). simpl in Hs2.
      destruct Hd as [[-> ->] | (-> & Hc2 & En3)].
      * rewrite Hp2. replace (Z.to_nat (pos sw + 1 - pos sw)) with 1%nat by lia.
        rewrite (take_one_drop _ _ _ Hb). reflexivity.
      * assert (Hne2 : current s2 <> eof) by (rewrite Hc2; discriminate).
        destruct (Inv_byte s2 HI2 Hne2) as (b2 & Hb2 & Hcb2 & Hw2).
        { intros i b Hi Hl. rewrite Forall_forall in Hasc. apply Hasc.
          apply list_elem_of_lookup. exists i. congruence. }
        assert (b2 = "."%byte)
          by (apply byteZ_inj; rewrite <- Hcb2, Hc2; reflexivity).
        subst b2. rewrite Hs2, Hsw, Hin, Hp2 in Hb2.
        replace (Z.to_nat (pos sw + 1)) with (S (Z.to_nat (pos sw))) in Hb2 by lia.
        pose proof (next_fields _ _ En3) as (Hp3 & _).
        rewrite Hp3, Hw2, Hp2.
        replace (Z.to_nat (pos sw + 1 + 1 - pos sw)) with 2%nat by lia.
        rewrite (take_two_drop _ _ _ _ Hb Hb2). reflexivity.
Qed.

Lemma X19_literal_is_what_was_consumed_witness :
  exists ws bs,
    slice (bytes " a;") 0 2 = Ok (ws ++ bs) /\
    Forall (fun b => isSpace (byteZ b) = true) ws /\
    "a"%string = String.string_of_list_byte bs.
Proof.
  apply (X19_literal_is_what_was_consumed greek "f" (bytes " a;") 4 0
           (mkScanner "f" (bytes " a;") 32 1 0 0 0 0 0 0 [])
           (mkScanner "f" (bytes " a;") 32 1 0 0 0 0 0 0 [])
           (mkScanner "f" (bytes " a;") 59 1 2 0 2 2 0 2 [])
           [] (mkPosition "f" 0 1) IDENT "a"%string).
  - repeat constructor.
  - vm_compute. reflexivity.
  - reflexivity.
  - vm_compute. reflexivity.
Defined.

(** ** Tokens behind white space *)

(** The loop of [skipSpace] over a run of white space: it stops on the
    first byte behind the run, and the line and column counters are the
    ones the run leads to. *)
Lemma skip_run : forall ws fuel s a rest,
  Inv s -> src s = a ++ ws ++ rest -> pos s = len a ->
  Forall (fun x => isSpace (byteZ x) = true) ws ->
  stops isSpace rest ->
  len ws < Z.of_nat fuel ->
  exists s', while fuel isSpace s = Ok s' /\ Inv s' /\
             pos s' = len a + len ws /\
             place s' = advancePlace (place s) ws /\
             isSpace (current s') = false.
Proof.
  induction ws as [| x ws IH]; intros fuel s a rest HI Hs Hp Hws Hstop Hf.
  - assert (Hc : isSpace (current s) = false).
    { destruct rest as [| b r].
      - destruct (Inv_at_end s HI) as [E _];
          [rewrite Hs, Hp; simpl; rewrite app_nil_r; reflexivity |].
        rewrite E. reflexivity.
      - destruct Hstop as [Hb Hcb].
        destruct (Inv_current_middle s a b r HI Hs Hp Hb) as [E _].
        rewrite E. assumption. }
    exists s. rewrite while_stop; [| assumption | unfold len in Hf; simpl in Hf; lia].
    split; [reflexivity |]. split; [assumption |].
    split; [rewrite Hp; unfold len; simpl; lia |].
    split; [reflexivity | assumption].
  - inversion Hws as [| ? ? Hx Hws']; subst.
    destruct (Inv_current_middle s a x (ws ++ rest) HI Hs Hp (space_ascii x Hx))
      as [Hc Hw].
    destruct fuel as [| fuel]; [unfold len in Hf; simpl in Hf; lia |].
    unfold while; fold while. rewrite Hc, Hx.
    destruct (next_spec s (Inv_Pre s HI)) as (s1 & En & HI1 & HA1 & HP1 & _).
    rewrite En. simpl.
    pose proof (next_fields _ _ En) as (_ & Hl & Hcol & _).
    destruct (IH fuel s1 (a ++ [x]) rest) as (s' & E & HI' & HP' & Hpl' & Hc');
      try assumption.
    + destruct HA1 as (-> & _). rewrite Hs, <- app_assoc. reflexivity.
    + rewrite HP1, Hp, Hw, len_app. reflexivity.
    + unfold len in *. simpl in Hf. lia.
    + exists s'. split; [assumption |]. split; [assumption |].
      split; [rewrite HP', len_app; unfold len; simpl; lia |].
      split; [| assumption].
      rewrite Hpl'. unfold advancePlace. simpl. f_equal.
      unfold place. rewrite Hl, Hcol, Hc, Hw. simpl.
      destruct (byteZ x =? 10); reflexivity.
Qed.

(** A call of [Scan] in front of a run of white space does what it does
    from the first byte behind the run, where the run has moved the line
    and column counters. *)
Lemma Scan_skips_space L fuel s pre ws rest :
  Inv s -> src s = pre ++ ws ++ rest -> pos s = len pre ->
  Forall (fun x => isSpace (byteZ x) = true) ws ->
  stops isSpace rest ->
  len ws < Z.of_nat fuel ->
  exists sw,
    Scan L fuel s = Scan L fuel sw /\ Inv sw /\
    src sw = (pre ++ ws) ++ rest /\ filename sw = filename s /\
    pos sw = len (pre ++ ws) /\ place sw = advancePlace (place s) ws.
Proof.
  intros HI Hs Hp Hws Hstop Hf.
  destruct (skip_run ws fuel s pre rest HI Hs Hp Hws Hstop Hf)
    as (sw & Ew & HIw & Hpw & Hplw & Hcw).
  destruct (while_fields _ _ _ _ Ew) as (_ & Hsw & Hfw).
  pose proof (len_nonneg ws).
  exists sw. split.
  - unfold Scan, skipSpace. rewrite Ew.
    rewrite (while_stop fuel isSpace sw) by (assumption || lia). reflexivity.
  - split; [assumption |].
    split; [rewrite Hsw, Hs, <- app_assoc; reflexivity |].
    split; [assumption |].
    split; [rewrite len_app; assumption | assumption].
Qed.

Lemma slash_stops l : stops isSpace ("/"%byte :: l).
Proof. split; [apply ascii_slash | reflexivity]. Qed.

(** C5, amended. A line comment made of ASCII bytes and ended by a
    carriage return or a line feed, reached by [Scan] over any run of
    white space, is returned as one [COMMENT] token whose literal runs
    from the opening [//] up to and including that end-of-line byte; the
    token is placed at the first ['/'] and the scanner is left on the byte
    after the end-of-line byte. *)
Theorem C5_line_comment_includes_end_of_line
        (L : Z -> bool) (fuel : nat) (s : Scanner) (pre ws body : list byte)
        (t : byte) (rest : list byte) :
  Inv s ->
  src s = pre ++ ws ++ ["/"; "/"]%byte ++ body ++ t :: rest ->
  pos s = len pre ->
  Forall (fun x => isSpace (byteZ x) = true) ws ->
  Forall isAscii body ->
  Forall (fun b => b <> x0a /\ b <> x0d) body ->
  t = x0a \/ t = x0d ->
  len ws < Z.of_nat fuel ->
  len body < Z.of_nat fuel ->
  exists s' p,
    Scan L fuel s
    = Ok (s', (p, COMMENT,
               String.string_of_list_byte (["/"; "/"]%byte ++ body ++ [t]))) /\
    file p = filename s /\ rawPlace p = advancePlace (place s) ws /\
    Inv s' /\ pos s' = len pre + len ws + 2 + len body + 1.
Proof.
  intros HI Hs Hp Hws Hasc Hnl Ht Hfw Hf.
  destruct (Scan_skips_space L fuel s pre ws _ HI Hs Hp Hws (slash_stops _) Hfw)
    as (sw & E & HIw & Hsw & Hfn & Hpw & Hpl).
  destruct (line_comment_at_cursor L fuel sw (pre ++ ws) body t rest)
    as (s' & E' & HI' & Hp'); try assumption.
  exists s', (mkPosition (filename sw) (line sw) (col sw)).
  rewrite E, E'. split; [reflexivity |].
  split; [exact Hfn |]. split; [exact Hpl |]. split; [assumption |].
  rewrite Hp', len_app. reflexivity.
Qed.

Lemma C5_line_comment_includes_end_of_line_witness :
  exists s' p,
    Scan greek 21 (mkScanner "f" (bytes "CHIP // until end of line" ++ [x0a]%byte)
                             32 1 4 0 4 4 0 4 [])
    = Ok (s', (p, COMMENT,
               String.string_of_list_byte (bytes "// until end of line" ++ [x0a]%byte))) /\
    file p = "f"%string /\ rawPlace p = (0, 5) /\
    Inv s' /\ pos s' = 26.
Proof.
  apply (C5_line_comment_includes_end_of_line greek 21
           (mkScanner "f" (bytes "CHIP // until end of line" ++ [x0a]%byte)
                      32 1 4 0 4 4 0 4 [])
           (bytes "CHIP") (bytes " ") (bytes " until end of line") x0a []).
  - unfold Inv. vm_compute. repeat split; congruence.
  - reflexivity.
  - reflexivity.
  - repeat constructor.
  - repeat constructor.
  - repeat constructor; discriminate.
  - left; reflexivity.
  - vm_compute. reflexivity.
  - vm_compute. reflexivity.
Defined.

(** C2, amended. When a block or API comment made of ASCII bytes is
    never closed before the end of the input, the call of [Scan] that
    reaches it, over any run of white space, returns one [ILLEGAL] token
    for it, placed at the opener, whose literal runs from the opener to
    the end of the input; every later call of [Scan] returns [EOF]. *)
Theorem C2_unterminated_comment_then_EOF
        (L : Z -> bool) (fuel : nat) (s : Scanner) (pre ws body : list byte) :
  Inv s ->
  src s = pre ++ ws ++ ["/"; "*"]%byte ++ body ->
  pos s = len pre ->
  Forall (fun x => isSpace (byteZ x) = true) ws ->
  Forall isAscii body ->
  unclosed body ->
  len ws < Z.of_nat fuel ->
  len body < Z.of_nat fuel ->
  exists s' p,
    Scan L fuel s
    = Ok (s', (p, ILLEGAL,
               String.string_of_list_byte (["/"; "*"]%byte ++ body))) /\
    file p = filename s /\ rawPlace p = advancePlace (place s) ws /\
    forall n, exists s'',
      ScanN L fuel n s'
      = Ok (s'', repeat (mkPosition (filename s) (line s') (col s'), EOF, ""%string) n).
Proof.
  intros HI Hs Hp Hws Hasc Hopen Hfw Hf.
  destruct (Scan_skips_space L fuel s pre ws _ HI Hs Hp Hws (slash_stops _) Hfw)
    as (sw & E & HIw & Hsw & Hfn & Hpw & Hpl).
  destruct (unterminated_comment_at_cursor L fuel sw (pre ++ ws) body)
    as (s' & E' & Hn); try assumption.
  exists s', (mkPosition (filename sw) (line sw) (col sw)).
  rewrite E, E'. split; [reflexivity |].
  split; [exact Hfn |]. split; [exact Hpl |].
  rewrite <- Hfn. exact Hn.
Qed.

Lemma C2_unterminated_comment_then_EOF_witness :
  exists s' p,
    Scan greek 3 (mkScanner "f" (bytes "a" ++ [x0a; x20]%byte ++ bytes "/* b")
                            10 1 1 0 1 1 0 1 [])
    = Ok (s', (p, ILLEGAL, "/* b"%string)) /\
    file p = "f"%string /\ rawPlace p = (1, 1) /\
    forall n, exists s'',
      ScanN greek 3 n s'
      = Ok (s'', repeat (mkPosition "f" (line s') (col s'), EOF, ""%string) n).
Proof.
  apply (C2_unterminated_comment_then_EOF greek 3
           (mkScanner "f" (bytes "a" ++ [x0a; x20]%byte ++ bytes "/* b")
                      10 1 1 0 1 1 0 1 [])
           (bytes "a") [x0a; x20]%byte (bytes " b")).
  - unfold Inv. vm_compute. repeat split; congruence.
  - reflexivity.
  - reflexivity.
  - repeat constructor.
  - repeat constructor.
  - intros i H. destruct i as [| [| i]]; simpl in H; discriminate H.
  - vm_compute. reflexivity.
  - vm_compute. reflexivity.
Defined.

(** X10. An ASCII letter followed by a maximal run of ASCII letters,
    digits and ['_'], reached by [Scan] over any run of white space, is
    one token whose literal is the whole word and whose kind is [Lookup]
    of that word: a keyword, [TRUE], [FALSE] or [IDENT].  The token is
    placed at the first letter; the scan stops at the end of the buffer or
    at the first ASCII byte that is no letter, digit or ['_']. *)
Theorem X10_word_is_looked_up
        (L : Z -> bool) (fuel : nat) (s : Scanner)
        (pre ws : list byte) (c : byte) (cs rest : list byte) :
  L eof = false ->
  Inv s ->
  src s = pre ++ ws ++ (c :: cs) ++ rest ->
  pos s = len pre ->
  Forall (fun x => isSpace (byteZ x) = true) ws ->
  isAscii c -> unicode.latin1Letter (byteZ c) = true ->
  Forall (fun x => isAscii x /\ isAlphanumeric L (byteZ x) = true) cs ->
  stops (isAlphanumeric L) rest ->
  len ws < Z.of_nat fuel ->
  len (c :: cs) < Z.of_nat fuel ->
  exists s' p,
    Scan L fuel s
    = Ok (s', (p, Lookup (String.string_of_list_byte (c :: cs)),
               String.string_of_list_byte (c :: cs))) /\
    file p = filename s /\ rawPlace p = advancePlace (place s) ws /\
    Inv s' /\ pos s' = len pre + len ws + len (c :: cs).
Proof.
  intros HL HI Hs Hp Hws Hca Hcl Hcs Hstop Hfw Hf.
  destruct (letter_ascii_class c Hca Hcl) as (Hsp & _ & _).
  destruct (Scan_skips_space L fuel s pre ws _ HI Hs Hp Hws (conj Hca Hsp) Hfw)
    as (sw & E & HIw & Hsw & Hfn & Hpw & Hpl).
  destruct (word_at_cursor L fuel sw (pre ++ ws) c cs rest)
    as (s' & E' & HI' & Hp'); try assumption.
  exists s', (mkPosition (filename sw) (line sw) (col sw)).
  rewrite E, E'. split; [reflexivity |].
  split; [exact Hfn |]. split; [exact Hpl |]. split; [assumption |].
  rewrite Hp', len_app. reflexivity.
Qed.

Lemma X10_word_is_looked_up_witness :
  exists s' p,
    Scan greek 6 (mkScanner "f" (bytes "CHIP  PARTS:") 32 1 4 0 4 4 0 4 [])
    = Ok (s', (p, Lookup "PARTS", "PARTS"%string)) /\
    file p = "f"%string /\ rawPlace p = (0, 6) /\
    Inv s' /\ pos s' = 11.
Proof.
  apply (X10_word_is_looked_up greek 6
           (mkScanner "f" (bytes "CHIP  PARTS:") 32 1 4 0 4 4 0 4 [])
           (bytes "CHIP") (bytes "  ") "P"%byte (bytes "ARTS") (bytes ":")).
  - reflexivity.
  - unfold Inv. vm_compute. repeat split; congruence.
  - reflexivity.
  - reflexivity.
  - repeat constructor.
  - vm_compute. reflexivity.
  - reflexivity.
  - repeat constructor.
  - split; vm_compute; reflexivity.
  - vm_compute. reflexivity.
  - vm_compute. reflexivity.
Defined.

(** X13. A ['/'] that opens no comment (the buffer ends after it, or
    the next byte is an ASCII byte other than ['/'] and ['*']), reached
    by [Scan] over any run of white space, is an [ILLEGAL] token with
    literal "/", placed at the ['/']: the ['/'] alone is consumed, and the
    byte after it is left for the next call. *)
Theorem X13_lone_slash_is_illegal
        (L : Z -> bool) (fuel : nat) (s : Scanner) (pre ws rest : list byte) :
  Inv s ->
  src s = pre ++ ws ++ "/"%byte :: rest ->
  pos s = len pre ->
  Forall (fun x => isSpace (byteZ x) = true) ws ->
  stops (fun r => (r =? 47) || (r =? 42)) rest ->
  len ws < Z.of_nat fuel ->
  exists s' p,
    Scan L fuel s = Ok (s', (p, ILLEGAL, "/"%string)) /\
    file p = filename s /\ rawPlace p = advancePlace (place s) ws /\
    Inv s' /\ pos s' = len pre + len ws + 1.
Proof.
  intros HI Hs Hp Hws Hstop Hfw.
  destruct (Scan_skips_space L fuel s pre ws _ HI Hs Hp Hws (slash_stops _) Hfw)
    as (sw & E & HIw & Hsw & Hfn & Hpw & Hpl).
  pose proof (len_nonneg ws).
  destruct (lone_slash_at_cursor L fuel sw (pre ++ ws) rest)
    as (s' & E' & HI' & Hp'); try assumption; [lia |].
  exists s', (mkPosition (filename sw) (line sw) (col sw)).
  rewrite E, E'. split; [reflexivity |].
  split; [exact Hfn |]. split; [exact Hpl |]. split; [assumption |].
  rewrite Hp', len_app. reflexivity.
Qed.

Lemma X13_lone_slash_is_illegal_witness :
  exists s' p,
    Scan greek 2 (mkScanner "f" (bytes "8 / a") 32 1 1 0 1 1 0 1 [])
    = Ok (s', (p, ILLEGAL, "/"%string)) /\
    file p = "f"%string /\ rawPlace p = (0, 2) /\
    Inv s' /\ pos s' = 3.
Proof.
  apply (X13_lone_slash_is_illegal greek 2
           (mkScanner "f" (bytes "8 / a") 32 1 1 0 1 1 0 1 [])
           (bytes "8") (bytes " ") (bytes " a")).
  - unfold Inv. vm_compute. repeat split; congruence.
  - reflexivity.
  - reflexivity.
  - repeat constructor.
  - split; vm_compute; reflexivity.
  - vm_compute. reflexivity.
Defined.

(** X14. A block or API comment of ASCII bytes, reached by [Scan] over
    any run of white space, is one [COMMENT] token, placed at the opener,
    whose literal runs from the opener through the first [*/] after it,
    the degenerate [/**/] included; the cursor is left on the byte after
    the [*/], and the literal is a multi-line comment for package
    [description]. *)
Theorem X14_closed_block_comment
        (L : Z -> bool) (fuel : nat) (s : Scanner) (pre ws body rest : list byte) :
  Inv s ->
  src s = pre ++ ws ++ ["/"; "*"]%byte ++ body ++ "*"%byte :: "/"%byte :: rest ->
  pos s = len pre ->
  Forall (fun x => isSpace (byteZ x) = true) ws ->
  Forall isAscii body ->
  unclosed body ->
  len ws < Z.of_nat fuel ->
  len body + 2 < Z.of_nat fuel ->
  exists s' p lit,
    Scan L fuel s = Ok (s', (p, COMMENT, lit)) /\
    file p = filename s /\ rawPlace p = advancePlace (place s) ws /\
    lit = String.string_of_list_byte (["/"; "*"]%byte ++ body ++ ["*"; "/"]%byte) /\
    Inv s' /\ pos s' = len pre + len ws + len body + 4 /\
    forall st en,
      description.IsMultiline (description.mkComment st en lit) = true /\
      description.IsEOL (description.mkComment st en lit) = false.
Proof.
  intros HI Hs Hp Hws Hasc Hopen Hfw Hf.
  destruct (Scan_skips_space L fuel s pre ws _ HI Hs Hp Hws (slash_stops _) Hfw)
    as (sw & E & HIw & Hsw & Hfn & Hpw & Hpl).
  destruct (block_comment_at_cursor L fuel sw (pre ++ ws) body rest)
    as (s' & lit & E' & Hlit & HI' & Hp' & Hd); try assumption.
  exists s', (mkPosition (filename sw) (line sw) (col sw)), lit.
  rewrite E, E'. split; [reflexivity |].
  split; [exact Hfn |]. split; [exact Hpl |]. split; [assumption |].
  split; [assumption |].
  split; [rewrite Hp', len_app; reflexivity | exact Hd].
Qed.

Lemma X14_closed_block_comment_witness :
  exists s' p lit,
    Scan greek 6 (mkScanner "f" (bytes "; /** a*/;") 32 1 1 0 1 1 0 1 [])
    = Ok (s', (p, COMMENT, lit)) /\
    file p = "f"%string /\ rawPlace p = (0, 2) /\
    lit = "/** a*/"%string /\
    Inv s' /\ pos s' = 9 /\
    forall st en,
      description.IsMultiline (description.mkComment st en lit) = true /\
      description.IsEOL (description.mkComment st en lit) = false.
Proof.
  apply (X14_closed_block_comment greek 6
           (mkScanner "f" (bytes "; /** a*/;") 32 1 1 0 1 1 0 1 [])
           (bytes ";") (bytes " ") (bytes "* a") (bytes ";")).
  - unfold Inv. vm_compute. repeat split; congruence.
  - reflexivity.
  - reflexivity.
  - repeat constructor.
  - repeat constructor.
  - intros i H. destruct i as [| [| [| i]]]; simpl in H; try discriminate H.
    simpl. discriminate.
  - vm_compute. reflexivity.
  - vm_compute. reflexivity.
Defined.

(** X15. A line comment of ASCII bytes that the end of the buffer ends,
    reached by [Scan] over any run of white space, is no error: it is one
    [COMMENT] token, placed at the first ['/'], whose literal runs from
    the opening [//] to the end of the buffer, an end-of-line comment for
    package [description], and every later call of [Scan] returns
    [EOF]. *)
Theorem X15_line_comment_at_end_of_input
        (L : Z -> bool) (fuel : nat) (s : Scanner) (pre ws body : list byte) :
  Inv s ->
  src s = pre ++ ws ++ ["/"; "/"]%byte ++ body ->
  pos s = len pre ->
  Forall (fun x => isSpace (byteZ x) = true) ws ->
  Forall isAscii body ->
  Forall (fun b => b <> x0a /\ b <> x0d) body ->
  len ws < Z.of_nat fuel ->
  len body < Z.of_nat fuel ->
  exists s' p lit,
    Scan L fuel s = Ok (s', (p, COMMENT, lit)) /\
    file p = filename s /\ rawPlace p = advancePlace (place s) ws /\
    lit = String.string_of_list_byte (["/"; "/"]%byte ++ body) /\
    (forall st en,
       description.IsEOL (description.mkComment st en lit) = true /\
       description.IsMultiline (description.mkComment st en lit) = false) /\
    forall n, exists s'',
      ScanN L fuel n s'
      = Ok (s'', repeat (mkPosition (filename s) (line s') (col s'), EOF, ""%string) n).
Proof.
  intros HI Hs Hp Hws Hasc Hnl Hfw Hf.
  destruct (Scan_skips_space L fuel s pre ws _ HI Hs Hp Hws (slash_stops _) Hfw)
    as (sw & E & HIw & Hsw & Hfn & Hpw & Hpl).
  destruct (line_comment_to_end_at_cursor L fuel sw (pre ++ ws) body)
    as (s' & lit & E' & Hlit & Hd & Hn); try assumption.
  exists s', (mkPosition (filename sw) (line sw) (col sw)), lit.
  rewrite E, E'. split; [reflexivity |].
  split; [exact Hfn |]. split; [exact Hpl |]. split; [assumption |].
  split; [exact Hd |].
  rewrite <- Hfn. exact Hn.
Qed.

Lemma X15_line_comment_at_end_of_input_witness :
  exists s' p lit,
    Scan greek 5 (mkScanner "f" (bytes "; // a") 32 1 1 0 1 1 0 1 [])
    = Ok (s', (p, COMMENT, lit)) /\
    file p = "f"%string /\ rawPlace p = (0, 2) /\
    lit = "// a"%string /\
    (forall st en,
       description.IsEOL (description.mkComment st en lit) = true /\
       description.IsMultiline (description.mkComment st en lit) = false) /\
    forall n, exists s'',
      ScanN greek 5 n s'
      = Ok (s'', repeat (mkPosition "f" (line s') (col s'), EOF, ""%string) n).
Proof.
  apply (X15_line_comment_at_end_of_input greek 5
           (mkScanner "f" (bytes "; // a") 32 1 1 0 1 1 0 1 [])
           (bytes ";") (bytes " ") (bytes " a")).
  - unfold Inv. vm_compute. repeat split; congruence.
  - reflexivity.
  - reflexivity.
  - repeat constructor.
  - repeat constructor.
  - repeat constructor; discriminate.
  - vm_compute. reflexivity.
  - vm_compute. reflexivity.
Defined.

(** [Scan] from a state that stands on a ['.'] that no ['.'] follows. *)
Lemma lone_dot_at_cursor
      (L : Z -> bool) (fuel : nat) (s : Scanner) (pre rest : list byte) :
  (0 < fuel)%nat ->
  Inv s ->
  src s = pre ++ "."%byte :: rest ->
  pos s = len pre ->
  stops (fun r => r =? 46) rest ->
  exists s',
    Scan L fuel s
    = Ok (s', (mkPosition (filename s) (line s) (col s), ILLEGAL, "."%string)) /\
    Inv s' /\ pos s' = len pre + 1 /\ src s' = src s.
Proof.
  intros Hf HI Hs Hp Hstop.
  destruct (Inv_current_middle s pre _ _ HI Hs Hp ascii_dot) as [Hc _].
  rewrite Scan_unfold; [| assumption | rewrite Hc; reflexivity].
  cbv zeta. simpl current. rewrite Hc. simpl.
  destruct (next_over (moveToken s) pre "."%byte rest)
    as (s1 & En1 & HI1 & Hs1 & Hp1 & _); try assumption.
  { apply moveToken_Inv; assumption. }
  { apply ascii_dot. }
  assert (Hc1 : (current s1 =? 46) = false).
  { destruct rest as [| b r].
    - destruct (Inv_at_end s1 HI1) as [E _].
      + rewrite Hp1, Hs1. simpl. rewrite Hs. reflexivity.
      + rewrite E. reflexivity.
    - destruct Hstop as [Hb Hcb].
      destruct (Inv_current_middle s1 (pre ++ ["."]%byte) b r HI1) as [E _];
        [rewrite Hs1; simpl; rewrite Hs; list_eq | assumption | assumption |].
      rewrite E. assumption. }
  rewrite En1. simpl. rewrite Hc1.
  exists s1. split; [reflexivity |]. split; [assumption |].
  split; [rewrite Hp1, len_app; reflexivity | exact Hs1].
Qed.

(** X20. A ['.'] that no ['.'] follows (the buffer ends after it, or the
    next byte is an ASCII byte other than ['.']), reached by [Scan] over
    any run of white space, is an [ILLEGAL] token with literal ".",
    placed at the dot: the dot alone is consumed, and the next call of
    [Scan] starts on the byte after it. *)
Theorem X20_lone_dot_is_illegal
        (L : Z -> bool) (fuel : nat) (s : Scanner) (pre ws rest : list byte) :
  Inv s ->
  src s = pre ++ ws ++ "."%byte :: rest ->
  pos s = len pre ->
  Forall (fun x => isSpace (byteZ x) = true) ws ->
  stops (fun r => r =? 46) rest ->
  len ws < Z.of_nat fuel ->
  exists s' p,
    Scan L fuel s = Ok (s', (p, ILLEGAL, "."%string)) /\
    file p = filename s /\ rawPlace p = advancePlace (place s) ws /\
    Inv s' /\ src s' = src s /\ pos s' = len pre + len ws + 1.
Proof.
  intros HI Hs Hp Hws Hstop Hfw.
  destruct (Scan_skips_space L fuel s pre ws _ HI Hs Hp Hws
              (conj ascii_dot eq_refl) Hfw)
    as (sw & E & HIw & Hsw & Hfn & Hpw & Hpl).
  pose proof (len_nonneg ws).
  destruct (lone_dot_at_cursor L fuel sw (pre ++ ws) rest)
    as (s' & E' & HI' & Hp' & Hs'); try assumption; [lia |].
  exists s', (mkPosition (filename sw) (line sw) (col sw)).
  rewrite E, E'. split; [reflexivity |].
  split; [exact Hfn |]. split; [exact Hpl |]. split; [assumption |].
  split; [rewrite Hs', Hsw, Hs, <- app_assoc; reflexivity |].
  rewrite Hp', len_app. reflexivity.
Qed.

Lemma X20_lone_dot_is_illegal_witness :
  exists s' p,
    Scan greek 1 (mkScanner "f" (bytes "1.2") 46 1 1 0 1 1 0 1 [])
    = Ok (s', (p, ILLEGAL, "."%string)) /\
    file p = "f"%string /\ rawPlace p = (0, 1) /\
    Inv s' /\ src s' = bytes "1.2" /\ pos s' = 2.
Proof.
  apply (X20_lone_dot_is_illegal greek 1
           (mkScanner "f" (bytes "1.2") 46 1 1 0 1 1 0 1 [])
           (bytes "1") [] (bytes "2")).
  - unfold Inv. vm_compute. repeat split; congruence.
  - reflexivity.
  - reflexivity.
  - constructor.
  - split; vm_compute; reflexivity.
  - vm_compute. reflexivity.
Defined.

(** ** The column counts bytes *)

Lemma range_forallb (P : Z -> bool) (n : nat) :
  forallb P (map Z.of_nat (seq 0 n)) = true ->
  forall z, 0 <= z < Z.of_nat n -> P z = true.
Proof.
  intros H z Hz. rewrite forallb_forall in H. apply H.
  apply in_map_iff. exists (Z.to_nat z). split; [lia |].
  apply in_seq. lia.
Qed.

Lemma lor_ge a b : 0 <= a -> 0 <= b -> a <= Z.lor a b.
Proof.
  intros Ha Hb.
  pose proof (Z.add_lor_land a b) as H.
  assert (Hl : Z.land a b <= b).
  { pose proof (Z.lor_ldiff_and b a) as H1.
    pose proof (Z.add_lor_land (Z.ldiff b a) (Z.land b a)) as H2.
    rewrite H1 in H2.
    assert (H3 : Z.land (Z.ldiff b a) (Z.land b a) = 0).
    { apply Z.bits_inj'. intros n Hn.
      rewrite !Z.land_spec, Z.ldiff_spec, Z.bits_0.
      destruct (Z.testbit b n), (Z.testbit a n); reflexivity. }
    rewrite H3 in H2.
    assert (0 <= Z.ldiff b a) by (apply Z.ldiff_nonneg; auto).
    rewrite (Z.land_comm a b). lia. }
  lia.
Qed.

(** The leading bits of a rune of two bytes. *)
Lemma lead_two p0 :
  0 <= p0 < 256 ->
  (utf8.first p0 >=? utf8.as_) = false ->
  (Z.land (utf8.first p0) 7 <=? 2) = true ->
  128 <= Z.shiftl (Z.land p0 utf8.mask2) 6.
Proof.
  intros Hp H1 H2.
  pose proof (range_forallb
                (fun z => implb (negb (utf8.first z >=? utf8.as_)
                                 && (Z.land (utf8.first z) 7 <=? 2))
                                (128 <=? Z.shiftl (Z.land z utf8.mask2) 6))
                256 eq_refl p0 Hp) as H.
  cbv beta in H. rewrite H1, H2 in H. cbn [negb andb implb] in H. lia.
Qed.

(** The leading bits of a rune of three or four bytes whose second byte
    is in the range its first byte accepts. *)
Lemma lead_more p0 b1 :
  0 <= p0 < 256 -> 0 <= b1 < 256 ->
  (utf8.first p0 >=? utf8.as_) = false ->
  (Z.land (utf8.first p0) 7 <=? 2) = false ->
  ((b1 <? fst (utf8.acceptRanges (Z.shiftr (utf8.first p0) 4)))
   || (snd (utf8.acceptRanges (Z.shiftr (utf8.first p0) 4)) <? b1)) = false ->
  if Z.land (utf8.first p0) 7 <=? 3
  then 128 <= Z.lor (Z.shiftl (Z.land p0 utf8.mask3) 12)
                    (Z.shiftl (Z.land b1 utf8.maskx) 6)
  else 128 <= Z.lor (Z.shiftl (Z.land p0 utf8.mask4) 18)
                    (Z.shiftl (Z.land b1 utf8.maskx) 12).
Proof.
  intros Hp Hb H1 H2 H3.
  assert (Hall : forallb
            (fun z => forallb
               (fun y => implb
                  (negb (utf8.first z >=? utf8.as_)
                   && negb (Z.land (utf8.first z) 7 <=? 2)
                   && negb ((y <? fst (utf8.acceptRanges (Z.shiftr (utf8.first z) 4)))
                            || (snd (utf8.acceptRanges (Z.shiftr (utf8.first z) 4)) <? y)))
                  (if Z.land (utf8.first z) 7 <=? 3
                   then 128 <=? Z.lor (Z.shiftl (Z.land z utf8.mask3) 12)
                                      (Z.shiftl (Z.land y utf8.maskx) 6)
                   else 128 <=? Z.lor (Z.shiftl (Z.land z utf8.mask4) 18)
                                      (Z.shiftl (Z.land y utf8.maskx) 12)))
               (map Z.of_nat (seq 0 256)))
            (map Z.of_nat (seq 0 256)) = true) by (vm_compute; reflexivity).
  pose proof (range_forallb _ 256 Hall p0 Hp) as H. cbv beta in H.
  pose proof (range_forallb _ 256 H b1 Hb) as H'. cbv beta in H'.
  rewrite H1, H2, H3 in H'. cbn [negb andb implb] in H'.
  destruct (Z.land (utf8.first p0) 7 <=? 3); lia.
Qed.

(** [DecodeRune] gives a width of two bytes or more to no rune below
    [RuneSelf]: it refuses the encodings that are longer than needed. *)
Lemma DecodeRune_small (p : list byte) r k :
  utf8.DecodeRune p = (r, k) -> r < 128 -> k <= 1.
Proof.
  unfold utf8.DecodeRune.
  destruct (len p <? 1); [intros [= <- <-]; lia |].
  pose proof (at_range p 0) as R0. pose proof (at_range p 1) as R1.
  pose proof (at_range p 2) as R2. pose proof (at_range p 3) as R3.
  destruct (utf8.first (utf8.at_ p 0) >=? utf8.as_) eqn:Ex;
    [intros [= <- <-]; lia |].
  cbv zeta.
  destruct (len p <? Z.land (utf8.first (utf8.at_ p 0)) 7);
    [intros [= <- <-]; lia |].
  destruct ((utf8.at_ p 1 <? _) || _) eqn:Eacc; [intros [= <- <-]; lia |].
  destruct (Z.land (utf8.first (utf8.at_ p 0)) 7 <=? 2) eqn:E2.
  { intros [= <- <-] Hr. exfalso.
    pose proof (lead_two _ R0 Ex E2) as Hlead.
    pose proof (lor_ge (Z.shiftl (Z.land (utf8.at_ p 0) utf8.mask2) 6)
                       (Z.land (utf8.at_ p 1) utf8.maskx)) as Hge.
    assert (0 <= Z.land (utf8.at_ p 1) utf8.maskx) by nonneg.
    lia. }
  pose proof (lead_more _ _ R0 R1 Ex E2 Eacc) as Hlead.
  destruct ((utf8.at_ p 2 <? _) || _); [intros [= <- <-]; lia |].
  destruct (Z.land (utf8.first (utf8.at_ p 0)) 7 <=? 3).
  { intros [= <- <-] Hr. exfalso.
    pose proof (lor_ge (Z.lor (Z.shiftl (Z.land (utf8.at_ p 0) utf8.mask3) 12)
                              (Z.shiftl (Z.land (utf8.at_ p 1) utf8.maskx) 6))
                       (Z.land (utf8.at_ p 2) utf8.maskx)) as Hge.
    assert (0 <= Z.land (utf8.at_ p 2) utf8.maskx) by nonneg.
    lia. }
  destruct ((utf8.at_ p 3 <? _) || _); [intros [= <- <-]; lia |].
  intros [= <- <-] Hr. exfalso.
  pose proof (lor_ge (Z.lor (Z.shiftl (Z.land (utf8.at_ p 0) utf8.mask4) 18)
                            (Z.shiftl (Z.land (utf8.at_ p 1) utf8.maskx) 12))
                     (Z.shiftl (Z.land (utf8.at_ p 2) utf8.maskx) 6)) as Hge1.
  pose proof (lor_ge (Z.lor (Z.lor (Z.shiftl (Z.land (utf8.at_ p 0) utf8.mask4) 18)
                                   (Z.shiftl (Z.land (utf8.at_ p 1) utf8.maskx) 12))
                            (Z.shiftl (Z.land (utf8.at_ p 2) utf8.maskx) 6))
                     (Z.land (utf8.at_ p 3) utf8.maskx)) as Hge2.
  assert (0 <= Z.shiftl (Z.land (utf8.at_ p 2) utf8.maskx) 6) by nonneg.
  assert (0 <= Z.land (utf8.at_ p 3) utf8.maskx) by nonneg.
  lia.
Qed.

Lemma DecodeLastRune_small (p : list byte) r k :
  utf8.DecodeLastRune p = (r, k) -> r < 128 -> k <= 1.
Proof.
  unfold utf8.DecodeLastRune.
  destruct (len p =? 0); [intros [= <- <-]; lia |].
  destruct (_ <? utf8.RuneSelf); [intros [= <- <-]; lia |].
  cbv zeta.
  destruct (utf8.DecodeRune _) as [r' k'] eqn:D.
  destruct (negb _); [intros [= <- <-]; lia |].
  intros [= <- <-]. eapply DecodeRune_small; eassumption.
Qed.

(** A rune below [RuneSelf] under the cursor has a width of one byte,
    whatever the bytes of the buffer are. *)
Lemma Inv_small_width s :
  Inv s -> current s <> eof -> current s < 128 -> w s = 1.
Proof.
  intros HI Hne Hlt. destruct (Inv_not_eof s HI Hne) as [Hp Hw].
  destruct HI as (_ & _ & _ & Hc & Hk). unfold readAt in Hc, Hk.
  destruct (pos s >=? len (src s)); [simpl in Hc; congruence |].
  destruct (_ >=? utf8.RuneSelf); [| assumption].
  destruct (utf8.DecodeLastRune _) as [r k] eqn:D. simpl in Hc, Hk. subst r k.
  apply DecodeLastRune_small in D; lia.
Qed.

Lemma string_length_bytes (bs : list byte) :
  String.length (String.string_of_list_byte bs) = length bs.
Proof.
  unfold String.string_of_list_byte.
  induction bs as [| b bs IH]; [reflexivity |].
  simpl. rewrite IH. reflexivity.
Qed.

Lemma literal_length s lit :
  literal s = Ok lit -> pos s = start s + Z.of_nat (String.length lit).
Proof.
  unfold literal, slice. intros H.
  destruct ((0 <=? start s) && (start s <=? pos s) && (pos s <=? len (src s))) eqn:E;
    simpl in H; [| discriminate].
  injection H as <-. rewrite string_length_bytes, length_take, length_drop.
  unfold len in E. lia.
Qed.

(** Between two states of the scanner the line counter does not
    decrease, and while it stays the same the column counter moves as
    the byte cursor does. *)
Lemma Steps_col s s' :
  Steps s s' ->
  line s <= line s' /\ (line s' = line s -> col s' - col s = pos s' - pos s).
Proof.
  induction 1 as [s | s s1 s2 En _ IH | s s2 _ IH].
  - split; lia.
  - pose proof (next_fields _ _ En) as (Hp & Hl & Hc & _).
    destruct IH as [IH1 IH2].
    destruct (current s =? 10); split; lia.
  - exact IH.
Qed.

(** A call of [Scan] that returns: the token is placed where the loop of
    [skipSpace] stops, and the call leaves the cursor as many bytes
    further as the literal has bytes. *)
Lemma Scan_span L fuel s s' p tok lit :
  Inv s ->
  Scan L fuel s = Ok (s', (p, tok, lit)) ->
  exists sw,
    Steps s sw /\ Steps sw s' /\ rawPlace p = place sw /\
    pos s <= pos sw /\
    pos s' = pos sw + Z.of_nat (String.length lit).
Proof.
  intros HI H.
  destruct (Scan_shape _ _ _ _ _ _ _ H) as (s1 & Es & Hpos & HS1 & _).
  apply Scan_literal in H as (sw & Ew & Hcases).
  unfold skipSpace in Es. rewrite Ew in Es. simpl in Es. injection Es as <-.
  pose proof (while_Steps _ _ _ _ Ew) as HSw.
  destruct (Steps_Inv _ _ HSw HI) as [HIw Hpw].
  exists sw. split; [assumption |].
  split; [eauto using Steps_trans, Steps_moved |].
  split; [rewrite Hpos; reflexivity |]. split; [assumption |].
  destruct Hcases as [[-> Hp0] | [(s3 & El & A & B & C) | (Hc & s2 & En & Hd)]].
  - simpl. lia.
  - apply literal_length in El. simpl in A. lia.
  - assert (Hw : w sw = 1)
      by (apply Inv_small_width; [assumption | rewrite Hc; discriminate | lia]).
    destruct (next_spec (moveToken sw) (Inv_Pre _ (moveToken_Inv _ HIw)))
      as (s2' & En' & HI2 & _ & Hp2 & _).
    rewrite En in En'. injection En' as <-. simpl in Hp2.
    destruct Hd as [[-> ->] | (-> & Hc2 & En3)].
    + simpl. lia.
    + assert (Hw2 : w s2 = 1)
        by (apply Inv_small_width; [assumption | rewrite Hc2; discriminate | lia]).
      pose proof (next_fields _ _ En3) as (Hp3 & _). simpl. lia.
Qed.

(** C1, amended. The column counts bytes, not runes.  For every input
    and every two tokens that [Scan] returns, in this order, from the
    scanner [New] returns: each token starts at the byte offset that lies
    as many bytes before the cursor its call leaves as its literal has
    bytes; a token reported on the first line has that offset as its
    zero-based column; and when the two tokens are reported on the same
    line, their columns differ by the distance in bytes between their
    offsets.  Scanning "γθιπ" yields one [IDENT] token at column 1, and
    the token that follows the four runes, which are eight bytes, starts
    at column 9. *)
Theorem C1_column_counts_bytes
        (L : Z -> bool) (file : string) (input : list byte) (fuel n m : nat)
        (s0 s s1 s2 s3 : Scanner) ts ts' p1 tok1 lit1 p2 tok2 lit2 :
  L eof = false -> L 0x3C0 = true ->
  New file input = Ok s0 ->
  ScanN L fuel n s0 = Ok (s, ts) ->
  Scan L fuel s = Ok (s1, (p1, tok1, lit1)) ->
  ScanN L fuel m s1 = Ok (s2, ts') ->
  Scan L fuel s2 = Ok (s3, (p2, tok2, lit2)) ->
  (pos s <= pos s1 - Z.of_nat (String.length lit1) /\
   pos s1 <= pos s2 /\
   pos s2 <= pos s3 - Z.of_nat (String.length lit2) /\
   (line_ p1 = 0 -> column_ p1 = pos s1 - Z.of_nat (String.length lit1)) /\
   (line_ p2 = line_ p1 ->
    column_ p2 - column_ p1
    = (pos s3 - Z.of_nat (String.length lit2))
      - (pos s1 - Z.of_nat (String.length lit1)))) /\
  scanAll L 9 2 "f" (bytes "γθιπ")
  = Ok [(mkPosition "f" 0 0, IDENT, "γθιπ"%string);
        (mkPosition "f" 0 8, EOF, ""%string)] /\
  String.length "γθιπ" = 8%nat /\
  Column (mkPosition "f" 0 0) = 1 /\ Column (mkPosition "f" 0 8) = 9.
Proof.
  intros He Hpi HN HS H1 HM H2.
  split; [| split; [| repeat split]].
  - destruct (New_placed _ _ _ HN) as (HI0 & _).
    pose proof (next_fields _ _ HN) as (Hp0 & Hl0 & Hc0 & _).
    simpl in Hp0, Hl0, Hc0.
    pose proof (ScanN_Steps _ _ _ _ _ _ HS) as HSs.
    destruct (Steps_Inv _ _ HSs HI0) as [HI _].
    destruct (Scan_span _ _ _ _ _ _ _ HI H1) as (sw1 & A1 & B1 & P1 & Q1 & R1).
    pose proof (Scan_Steps _ _ _ _ _ H1) as HS1.
    destruct (Steps_Inv _ _ HS1 HI) as [HI1 _].
    pose proof (ScanN_Steps _ _ _ _ _ _ HM) as HSm.
    destruct (Steps_Inv _ _ HSm HI1) as [HI2 Hp12].
    destruct (Scan_span _ _ _ _ _ _ _ HI2 H2) as (sw2 & A2 & B2 & P2 & Q2 & R2).
    unfold rawPlace, place in P1, P2. injection P1 as Pl1 Pc1. injection P2 as Pl2 Pc2.
    split; [lia |]. split; [assumption |]. split; [lia |]. split.
    + intros Hz.
      destruct (Steps_col _ _ (Steps_trans _ _ _ HSs A1)) as [_ Hcol].
      rewrite Pc1. lia.
    + intros Hsame.
      assert (HS12 : Steps sw1 sw2) by eauto using Steps_trans.
      destruct (Steps_col _ _ HS12) as [_ Hcol].
      rewrite Pc1, Pc2. lia.
  - rewrite (scanAll_ext L (pinned L 0x3C0)) by (apply pinned_eq; assumption).
    vm_compute. reflexivity.
Qed.

Lemma C1_column_counts_bytes_witness :
  (0 <= 8 - Z.of_nat (String.length "γθιπ") /\
   8 <= 8 /\
   8 <= 8 - Z.of_nat (String.length "") /\
   (0 = 0 -> 0 = 8 - Z.of_nat (String.length "γθιπ")) /\
   (0 = 0 ->
    8 - 0 = (8 - Z.of_nat (String.length "")) - (8 - Z.of_nat (String.length "γθιπ")))) /\
  scanAll greek 9 2 "f" (bytes "γθιπ")
  = Ok [(mkPosition "f" 0 0, IDENT, "γθιπ"%string);
        (mkPosition "f" 0 8, EOF, ""%string)] /\
  String.length "γθιπ" = 8%nat /\
  Column (mkPosition "f" 0 0) = 1 /\ Column (mkPosition "f" 0 8) = 9.
Proof.
  apply (C1_column_counts_bytes greek "f" (bytes "γθιπ") 9 0 0
           (mkScanner "f" (bytes "γθιπ") 0x3C0 2 0 0 0 0 0 0 [])
           (mkScanner "f" (bytes "γθιπ") 0x3C0 2 0 0 0 0 0 0 [])
           (mkScanner "f" (bytes "γθιπ") eof 0 8 0 8 8 0 8 [])
           (mkScanner "f" (bytes "γθιπ") eof 0 8 0 8 8 0 8 [])
           (mkScanner "f" (bytes "γθιπ") eof 0 8 0 8 8 0 8 [])
           [] [] (mkPosition "f" 0 0) IDENT "γθιπ"%string
           (mkPosition "f" 0 8) EOF ""%string).
  - reflexivity.
  - reflexivity.
  - vm_compute. reflexivity.
  - reflexivity.
  - vm_compute. reflexivity.
  - reflexivity.
  - vm_compute. reflexivity.
Defined.

(** ** Scanner instances in a store *)

Lemma withSrc_src s : withSrc s (src s) = s.
Proof. destruct s; reflexivity. Qed.

(** A call of [Scan] through a pointer leaves every array of the store
    as it was: [Scan] reads the buffer and never writes it. *)
Lemma ScanAt_inv L fuel l h h' t :
  ScanAt L fuel l h = Ok (h', t) ->
  arrays h' = arrays h /\
  exists a s bs s',
    structs h !! l = Some (a, s) /\ arrays h !! a = Some bs /\
    Scan L fuel (withSrc s bs) = Ok (s', t) /\ src s' = bs /\
    structs h' = <[l := (a, s')]> (structs h).
Proof.
  unfold ScanAt, deref. intros H.
  destruct (structs h !! l) as [[a s] |] eqn:El; [| discriminate H].
  destruct (arrays h !! a) as [bs |] eqn:Ea; [| discriminate H].
  simpl in H.
  destruct (Scan L fuel (withSrc s bs)) as [[s' t'] | |] eqn:Es; simpl in H;
    try discriminate H.
  injection H as <- <-.
  pose proof (Scan_Steps _ _ _ _ _ Es) as HS.
  destruct (Steps_keeps _ _ HS) as (Hsrc & _). simpl in Hsrc.
  split.
  - simpl. rewrite Hsrc. apply insert_id. assumption.
  - exists a, s, bs, s'. repeat split; assumption.
Qed.

(** A scanner in a store sees its own calls only: what it returns in a
    schedule is what it returns when it is scanned alone over the bytes
    of its array, also when other scanners of the schedule share that
    array. *)
Lemma runSchedule_alone L fuel sched : forall h h' evs l a s bs,
  runSchedule L fuel sched h = Ok (h', evs) ->
  structs h !! l = Some (a, s) -> arrays h !! a = Some bs ->
  arrays h' = arrays h /\
  exists s', ScanN L fuel (length (tokensOf l evs)) (withSrc s bs)
             = Ok (s', tokensOf l evs).
Proof.
  induction sched as [| l0 rest IH]; intros h h' evs l a s bs H Hl Ha.
  - injection H as <- <-. split; [reflexivity |]. eexists. reflexivity.
  - simpl in H.
    destruct (ScanAt L fuel l0 h) as [[h1 t] | |] eqn:E0; simpl in H;
      try discriminate H.
    destruct (runSchedule L fuel rest h1) as [[h2 ts] | |] eqn:Er;
      simpl in H; try discriminate H.
    injection H as <- <-.
    destruct (ScanAt_inv _ _ _ _ _ _ E0)
      as (Harr & a0 & s0 & bs0 & s0' & Hl0 & Ha0 & Es & Hsrc & Hst).
    simpl. destruct (Nat.eqb l0 l) eqn:El.
    + apply Nat.eqb_eq in El. subst l0.
      assert (a0 = a /\ s0 = s) as [-> ->] by (split; congruence).
      assert (Hbs : bs0 = bs) by congruence. rewrite Hbs in Es, Hsrc.
      destruct (IH _ _ _ l a s0' bs Er) as (Harr' & s' & E').
      * rewrite Hst. apply lookup_insert_eq.
      * rewrite Harr. assumption.
      * split; [congruence |].
        exists s'. simpl. rewrite Es. simpl.
        rewrite <- Hsrc, withSrc_src in E'. rewrite E'. reflexivity.
    + apply Nat.eqb_neq in El.
      destruct (IH _ _ _ l a s bs Er) as (Harr' & s' & E').
      * rewrite Hst. rewrite lookup_insert_ne by assumption. assumption.
      * rewrite Harr. assumption.
      * split; [congruence |]. exists s'. assumption.
Qed.

Lemma NewAt_inv file a h l h' :
  NewAt file a h = Ok (l, h') ->
  exists bs s, arrays h !! a = Some bs /\ New file bs = Ok s /\
               l = fresh (dom (structs h)) /\
               arrays h' = arrays h /\
               structs h' = <[l := (a, s)]> (structs h).
Proof.
  unfold NewAt. intros H.
  destruct (arrays h !! a) as [bs |] eqn:Ea; [| discriminate H].
  destruct (New file bs) as [s | |] eqn:En; simpl in H; try discriminate H.
  injection H as <- <-.
  exists bs, s. split; [reflexivity |]. split; [assumption |].
  split; [reflexivity |]. split; [| reflexivity].
  unfold New in En. apply next_fields in En as (_ & _ & _ & _ & Hs & _).
  simpl in Hs. simpl. rewrite Hs. apply insert_id. assumption.
Qed.

(** C9. Two scanners freshly constructed over the same file name and
    the same input buffer (one array that both refer to, or two arrays
    that hold the same bytes) return the same (position, token, literal)
    triples: whatever the store held before, and in whatever order the
    calls on the two scanners and on any other scanner of the store are
    made, the i-th token of the one equals the i-th token of the other;
    the two are different structs, and the calls leave every array of
    the store as it was. *)
Theorem C9_scanning_is_deterministic
        (L : Z -> bool) (fuel : nat) (file : string) (a1 a2 : nat)
        (h0 h1 h2 h' : Store) (la lb : nat) (sched : list nat)
        (evs : list (nat * (Position * Token * string)))
        (i : nat) (ta tb : Position * Token * string) :
  arrays h0 !! a1 = arrays h0 !! a2 ->
  NewAt file a1 h0 = Ok (la, h1) ->
  NewAt file a2 h1 = Ok (lb, h2) ->
  runSchedule L fuel sched h2 = Ok (h', evs) ->
  tokensOf la evs !! i = Some ta ->
  tokensOf lb evs !! i = Some tb ->
  la <> lb /\ ta = tb /\ arrays h' = arrays h0.
Proof.
  intros Hsame Ha Hb Hrun Hta Htb.
  apply NewAt_inv in Ha as (bs1 & s1 & Ha1 & En1 & Hla & Harr1 & Hst1).
  apply NewAt_inv in Hb as (bs2 & s2 & Ha2 & En2 & Hlb & Harr2 & Hst2).
  assert (bs2 = bs1) by (rewrite Harr1, <- Hsame, Ha1 in Ha2; congruence).
  subst bs2. assert (s2 = s1) by congruence. subst s2.
  assert (Hne : la <> lb).
  { intros E. apply (is_fresh (dom (structs h1))).
    rewrite <- Hlb, <- E, Hst1, dom_insert_L. set_solver. }
  assert (Hsrc : src s1 = bs1).
  { unfold New in En1. apply next_fields in En1 as (_ & _ & _ & _ & Hs & _).
    exact Hs. }
  destruct (runSchedule_alone L fuel sched _ _ _ la a1 s1 bs1 Hrun)
    as (Harr & sa & Ea).
  { rewrite Hst2, lookup_insert_ne by congruence.
    rewrite Hst1. apply lookup_insert_eq. }
  { rewrite Harr2, Harr1. assumption. }
  destruct (runSchedule_alone L fuel sched _ _ _ lb a2 s1 bs1 Hrun)
    as (_ & sb & Eb).
  { rewrite Hst2. apply lookup_insert_eq. }
  { rewrite Harr2. assumption. }
  split; [assumption |]. split; [| congruence].
  exact (ScanN_agree L fuel _ _ _ _ _ _ _ _ _ _ Ea Eb Hta Htb).
Qed.

Lemma C9_scanning_is_deterministic_witness :
  0%nat <> 1%nat /\
  (mkPosition "f" 0 1, COMMA, ","%string) = (mkPosition "f" 0 1, COMMA, ","%string) /\
  ({[7%nat := bytes ";,"]} : gmap nat (list byte)) = {[7%nat := bytes ";,"]}.
Proof.
  set (s0 := mkScanner "f" (bytes ";,") 59 1 0 0 0 0 0 0 []).
  set (s2 := mkScanner "f" (bytes ";,") eof 0 2 0 2 2 0 2 []).
  set (arr := {[7%nat := bytes ";,"]} : gmap nat (list byte)).
  apply (C9_scanning_is_deterministic greek 3 "f" 7 7
           (mkStore arr ∅)
           (mkStore arr (<[0%nat := (7%nat, s0)]> ∅))
           (mkStore arr (<[1%nat := (7%nat, s0)]> (<[0%nat := (7%nat, s0)]> ∅)))
           (mkStore arr (<[0%nat := (7%nat, s2)]> (<[1%nat := (7%nat, s2)]> ∅)))
           0 1
           [0; 1; 1; 0]%nat
           [(0%nat, (mkPosition "f" 0 0, SEMICOLON, ";"%string));
            (1%nat, (mkPosition "f" 0 0, SEMICOLON, ";"%string));
            (1%nat, (mkPosition "f" 0 1, COMMA, ","%string));
            (0%nat, (mkPosition "f" 0 1, COMMA, ","%string))]
           1%nat);
    vm_compute; reflexivity.
Defined.
